(** * Source-Graph: ingestion pipeline and graph assembly

    A shallow embedding of the Python back end of Source-Graph:
    - [bsky/models.py]                  (records, modules [Post] and [Edge]),
    - [bsky/normalize.py]               (module [Normalize]),
    - [bsky/client.py]                  (module [Client]),
    - [bsky/api.py], [bsky/ingest.py]   (modules [Api] and [Ingest]),
    - [app/services/runs_service.py]    (module [Service]).

    Python values are modelled as follows.  JSON payloads ([dict[str, Any]])
    are the inductive [json]; a [dict] whose iteration order is observable is
    an association list updated in place; the [set]s and the degree
    dictionaries, whose order is never observed, are stdpp's [gset] and
    [gmap]; Python integers are [Z].  Exceptions are explicit: a computation
    that can raise returns an [exc].  The network, Redis and the clock are
    inputs: a run is a function of what they answer.  Loops and recursions
    that the code bounds by a counter carry a fuel, and are shown below to
    end within the fuel their counter grants.  Module [Concrete] holds an
    instance of the library functions and the inputs of the worked
    examples. *)

From Stdlib Require Import ZArith QArith Qminmax Lia Ascii String.
From stdpp Require Import base option list strings pretty gmap sets sorting.

Local Open Scope Z_scope.
Set Warnings "-register-all,-clear-no-such-hyp".

(** ** Python values *)

Inductive json :=
| JNull
| JBool (b : bool)
| JInt (z : Z)
| JStr (s : string)
| JList (l : list json)
| JDict (kvs : list (string * json)).

(** The exceptions the modelled code can raise. *)
Inductive pyexn :=
| AttributeError
| TypeError
| ValueError
| RuntimeError (msg : string).

Inductive exc (A : Type) :=
| Ret (a : A)
| Raise (e : pyexn).
Arguments Ret {A} a.
Arguments Raise {A} e.

Definition exc_bind {A B} (m : exc A) (k : A -> exc B) : exc B :=
  match m with
  | Ret a => k a
  | Raise e => Raise e
  end.

Module Py.

(** Truth value of a Python object ([if x:], [x or y], [not x]). *)
Definition truthy (j : json) : bool :=
  match j with
  | JNull => false
  | JBool b => b
  | JInt z => negb (z =? 0)
  | JStr s => negb (String.eqb s "")
  | JList l => match l with [] => false | _ => true end
  | JDict kvs => match kvs with [] => false | _ => true end
  end.

(** [x or y]. *)
Definition or_ (x y : json) : json := if truthy x then x else y.

Fixpoint assoc (k : string) (kvs : list (string * json)) : option json :=
  match kvs with
  | [] => None
  | (k', v) :: rest => if String.eqb k k' then Some v else assoc k rest
  end.

(** [d.get(k, dflt)]; on an object that is not a dict the attribute
    lookup itself fails. *)
Definition get_or (d : json) (k : string) (dflt : json) : exc json :=
  match d with
  | JDict kvs => Ret (default dflt (assoc k kvs))
  | _ => Raise AttributeError
  end.

(** [d.get(k)]: the default is [None]. *)
Definition get (d : json) (k : string) : exc json := get_or d k JNull.

Fixpoint chars (s : string) : list json :=
  match s with
  | EmptyString => []
  | String c rest => JStr (String c EmptyString) :: chars rest
  end.

(** The items a [for] loop visits: the elements of a list, the characters
    of a string, the keys of a dict; anything else is not iterable. *)
Definition iter (j : json) : exc (list json) :=
  match j with
  | JList l => Ret l
  | JStr s => Ret (chars s)
  | JDict kvs => Ret (map (fun kv => JStr (fst kv)) kvs)
  | _ => Raise TypeError
  end.

(** [l[:n]] *)
Definition slice_to {A} (n : Z) (l : list A) : list A :=
  if 0 <=? n then take (Z.to_nat n) l
  else take (length l - Z.to_nat (- n))%nat l.

(** A dict keyed by strings whose insertion order is observed
    ([list(d.values())]): [d[k] = v] replaces the value of an existing key
    where it stands and appends a new key at the end. *)
Fixpoint setitem {V} (k : string) (v : V) (d : list (string * V))
  : list (string * V) :=
  match d with
  | [] => [(k, v)]
  | (k', v') :: rest =>
      if String.eqb k k' then (k', v) :: rest
      else (k', v') :: setitem k v rest
  end.

Fixpoint getitem {V} (k : string) (d : list (string * V)) : option V :=
  match d with
  | [] => None
  | (k', v) :: rest => if String.eqb k k' then Some v else getitem k rest
  end.

Definition keys {V} (d : list (string * V)) : list string := map fst d.
Definition values {V} (d : list (string * V)) : list V := map snd d.

(** [d.update(other)] *)
Definition update {V} (d other : list (string * V)) : list (string * V) :=
  foldl (fun acc kv => setitem (fst kv) (snd kv) acc) d other.

(** [range(0, stop, step)] for a positive [step] *)
Definition range_step (stop step : nat) : list nat :=
  map (fun k => (k * step)%nat) (seq 0 ((stop + step - 1) / step)).

(** [l[i : i + n]] *)
Definition slice {A} (i n : nat) (l : list A) : list A := take n (drop i l).

End Py.

(** ** bsky/models.py *)

(** A [datetime]: calendar fields and, for an aware value, the UTC offset in
    minutes. *)
Record datetime := {
  dt_year : Z; dt_month : Z; dt_day : Z;
  dt_hour : Z; dt_minute : Z; dt_second : Z; dt_microsecond : Z;
  dt_utcoffset : option Z
}.

Record PostMetrics := {
  like_count : Z;
  repost_count : Z;
  reply_count : Z;
  quote_count : Z
}.

Module Post.
Record t := {
  uri : string;
  cid : option string;
  author_did : string;
  author_handle : string;
  created_at : datetime;
  text : string;
  metrics : PostMetrics
}.
End Post.

Inductive EdgeType := QUOTE | REPLY.

#[global] Instance EdgeType_eq_dec : EqDecision EdgeType.
Proof. solve_decision. Defined.

#[global] Instance EdgeType_countable : Countable EdgeType.
Proof.
  refine (inj_countable' (fun t => match t with QUOTE => true | REPLY => false end)
                         (fun b : bool => if b then QUOTE else REPLY) _).
  by intros [].
Defined.

Module Edge.
Record t := {
  src_uri : string;
  dst_uri : string;
  edge_type : EdgeType;
  created_at : option datetime
}.

(** The identity of an edge: what [__hash__] hashes and [__eq__] compares.
    The creation time is not part of it. *)
Definition key (e : t) : string * string * EdgeType :=
  (src_uri e, dst_uri e, edge_type e).

(** [__eq__] *)
Definition eqb (e1 e2 : t) : bool := bool_decide (key e1 = key e2).
End Edge.

Record IngestConfig := {
  redis_enabled : bool;
  search_ttl : Z;
  thread_ttl : Z;
  quotes_ttl : Z;
  posts_ttl : Z;
  max_retries : Z;
  initial_backoff : Q;
  max_backoff : Q;
  max_requests_per_run : Z;
  default_page_size : Z;
  max_page_size : Z
}.

(** [IngestConfig()] *)
Definition default_config : IngestConfig := {|
  redis_enabled := true;
  search_ttl := 120; thread_ttl := 600; quotes_ttl := 600; posts_ttl := 1800;
  max_retries := 3; initial_backoff := 1%Q; max_backoff := 60%Q;
  max_requests_per_run := 500;
  default_page_size := 25; max_page_size := 100
|}.

Record SeedModeInputs := {
  seed_uri : string;
  max_depth : Z;
  max_quote_pages : Z;
  max_nodes : Z
}.

Record QueryModeInputs := {
  query : string;
  time_window_hours : option Z;
  max_pages : Z;
  page_size : Z;
  lang : option string
}.

Record IngestResult := {
  posts : list Post.t;
  edges : list Edge.t;
  total_requests : Z;
  cache_hits : Z;
  cache_misses : Z
}.

(** ** bsky/normalize.py *)

Module Normalize.

(** What a [try: ... except Exception: return None] makes of a raise. *)
Definition catch {A} (m : exc A) : option A :=
  match m with
  | Ret a => Some a
  | Raise _ => None
  end.

(** [s[:-1]] when [s.endswith("Z")]. *)
Fixpoint strip_Z (s : string) : option string :=
  match s with
  | EmptyString => None
  | String c EmptyString =>
      if Ascii.eqb c "Z"%char then Some EmptyString else None
  | String c rest => String c <$> strip_Z rest
  end.

(** pydantic's validation of a [str] field and of an [Optional[str]] field. *)
Definition validate_str (j : json) : option string :=
  match j with
  | JStr s => Some s
  | _ => None
  end.

Definition validate_opt_str (j : json) : option (option string) :=
  match j with
  | JNull => Some None
  | JStr s => Some (Some s)
  | _ => None
  end.

Section Runtime.

(** The library and the clock the module runs on: [datetime.fromisoformat]
    ([None] where it raises [ValueError]), pydantic's coercion of a value to
    an [int] field ([None] where validation fails) and the value
    [datetime.now()] returns. *)
Variable fromisoformat : string -> option datetime.
Variable validate_int : json -> option Z.
Variable now : datetime.

(** [parse_timestamp].  [ValueError] and [TypeError] are handled and give
    [None]; on a truthy value that is not a string the call of [endswith]
    raises [AttributeError], which is not handled here. *)
Definition parse_timestamp (timestamp_str : json) : exc (option datetime) :=
  if negb (Py.truthy timestamp_str) then Ret None
  else match timestamp_str with
       | JStr s =>
           let s' := match strip_Z s with
                     | Some body => body +:+ "+00:00"
                     | None => s
                     end in
           Ret (fromisoformat s')
       | _ => Raise AttributeError
       end.

(** [normalize_post].  The whole body stands in a [try] whose handler
    returns [None], so [None] is both an explicit [return None] and a caught
    exception (a [get] on a non-dict, a failed pydantic validation). *)
Definition normalize_post (post_data : json) : option Post.t :=
  uri ← catch (Py.get post_data "uri");
  if negb (Py.truthy uri) then None else
  cid ← catch (Py.get post_data "cid");
  author ← catch (Py.get_or post_data "author" (JDict []));
  author_did ← catch (Py.get author "did");
  author_handle ← catch (Py.get author "handle");
  if negb (Py.truthy author_did) || negb (Py.truthy author_handle) then None else
  record ← catch (Py.get_or post_data "record" (JDict []));
  text ← catch (Py.get_or record "text" (JStr ""));
  created_at_field ← catch (Py.get record "createdAt");
  indexed_at_field ← catch (Py.get post_data "indexedAt");
  let created_at_str := Py.or_ created_at_field indexed_at_field in
  parsed ← catch (parse_timestamp created_at_str);
  let created_at := match parsed with
                    | Some t => t
                    | None => now
                    end in
  likeCount ← catch (Py.get_or post_data "likeCount" (JInt 0));
  repostCount ← catch (Py.get_or post_data "repostCount" (JInt 0));
  replyCount ← catch (Py.get_or post_data "replyCount" (JInt 0));
  quoteCount ← catch (Py.get_or post_data "quoteCount" (JInt 0));
  like ← validate_int likeCount;
  repost ← validate_int repostCount;
  reply ← validate_int replyCount;
  quote ← validate_int quoteCount;
  let metrics := {| like_count := like; repost_count := repost;
                    reply_count := reply; quote_count := quote |} in
  uri' ← validate_str uri;
  cid' ← validate_opt_str cid;
  author_did' ← validate_str author_did;
  author_handle' ← validate_str author_handle;
  text' ← validate_str text;
  Some {| Post.uri := uri'; Post.cid := cid';
          Post.author_did := author_did';
          Post.author_handle := author_handle';
          Post.created_at := created_at; Post.text := text';
          Post.metrics := metrics |}.

(** *** Thread traversal

    [normalize_thread_node] mutates the dict [posts] and the list [edges] it
    is given and may raise half-way; what it has written by then stays
    written.  A run is therefore a function of the state [(posts, edges)]
    that gives the state it leaves and either the value returned or the
    exception raised.  The recursion is on nodes found inside the payload,
    bounded by the depth counter; the model carries a fuel besides, and
    [None] means the fuel ran out. *)

Definition thread_state : Type := list (string * Post.t) * list Edge.t.

Definition traversal (A : Type) : Type :=
  thread_state -> option (thread_state * exc A).

Definition tret {A} (a : A) : traversal A := fun st => Some (st, Ret a).

Definition tbind {A B} (m : traversal A) (k : A -> traversal B) : traversal B :=
  fun st =>
    match m st with
    | None => None
    | Some (st', Raise e) => Some (st', Raise e)
    | Some (st', Ret a) => k a st'
    end.

Definition tlift {A} (m : exc A) : traversal A := fun st => Some (st, m).

Definition out_of_fuel {A} : traversal A := fun _ => None.

(** A traversal that never runs out of fuel. *)
Definition terminates {A} (m : traversal A) : Prop :=
  ∀ st, is_Some (m st).

Notation "x <~ m ;; k" := (tbind m (fun x => k))
  (at level 100, m at next level, right associativity).

(** [for item in items: body(item)] *)
Fixpoint tfor {A} (body : json -> traversal A) (items : list json)
  : traversal unit :=
  match items with
  | [] => tret tt
  | item :: rest => _ <~ body item ;; tfor body rest
  end.

Definition threadViewPost : string := "app.bsky.feed.defs#threadViewPost".
Definition blockedPost : string := "app.bsky.feed.defs#blockedPost".
Definition notFoundPost : string := "app.bsky.feed.defs#notFoundPost".

(** [node_type == name] *)
Definition is_type (node_type : json) (name : string) : bool :=
  match node_type with
  | JStr s => String.eqb s name
  | _ => false
  end.

(** [if parent_uri:] on an [Optional[str]] *)
Definition uri_truthy (parent_uri : option string) : bool :=
  match parent_uri with
  | Some s => negb (String.eqb s "")
  | None => false
  end.

(** The statements of lines 95 to 105: record the post, and with a parent
    URI append the REPLY edge unless an equal edge is in the list. *)
Definition record_post (post : Post.t) (parent_uri : option string)
  : traversal unit :=
  fun '(posts, edges) =>
    let posts' := Py.setitem (Post.uri post) post posts in
    let edges' :=
      match parent_uri with
      | Some parent =>
          if uri_truthy parent_uri then
            let edge := {| Edge.src_uri := Post.uri post;
                           Edge.dst_uri := parent;
                           Edge.edge_type := REPLY;
                           Edge.created_at := Some (Post.created_at post) |} in
            if existsb (Edge.eqb edge) edges then edges else edges ++ [edge]
          else edges
      | None => edges
      end in
    Some ((posts', edges'), Ret tt).

Fixpoint thread_node (fuel : nat) (node : json) (parent_uri : option string)
    (max_depth current_depth : Z) : traversal (option string) :=
  if current_depth >=? max_depth then tret None else
  match fuel with
  | O => out_of_fuel
  | S fuel' =>
      node_type <~ tlift (Py.get node "$type") ;;
      if is_type node_type threadViewPost then
        post_data <~ tlift (Py.get node "post") ;;
        if negb (Py.truthy post_data) then tret None else
        match normalize_post post_data with
        | None => tret None
        | Some post =>
            _ <~ record_post post parent_uri ;;
            parent_node <~ tlift (Py.get node "parent") ;;
            _ <~ (if Py.truthy parent_node
                  then thread_node fuel' parent_node (Some (Post.uri post))
                         max_depth (current_depth + 1)
                  else tret None) ;;
            replies <~ tlift (Py.get_or node "replies" (JList [])) ;;
            reply_nodes <~ tlift (Py.iter replies) ;;
            _ <~ tfor (fun reply_node =>
                         thread_node fuel' reply_node (Some (Post.uri post))
                           max_depth (current_depth + 1))
                      reply_nodes ;;
            tret (Some (Post.uri post))
        end
      else if is_type node_type blockedPost then tret None
      else if is_type node_type notFoundPost then tret None
      else tret None
  end.

(** The fuel the depth counter itself grants: every recursive call adds one
    to [current_depth] and the function returns at once when
    [current_depth >= max_depth]. *)
Definition depth_fuel (max_depth current_depth : Z) : nat :=
  Z.to_nat (max_depth - current_depth).

(** [normalize_thread_node(node, posts, edges, parent_uri, max_depth,
    current_depth)]: the state left and the outcome.  The traversal never
    runs out of this fuel ([thread_node_terminates]). *)
Definition normalize_thread_node (node : json) (posts : list (string * Post.t))
    (edges : list Edge.t) (parent_uri : option string)
    (max_depth current_depth : Z) : thread_state * exc (option string) :=
  match thread_node (depth_fuel max_depth current_depth) node parent_uri
          max_depth current_depth (posts, edges) with
  | Some r => r
  | None => ((posts, edges), Ret None)
  end.

(** [extract_thread_posts_and_edges].  The dict and the list are local: when
    the traversal raises, the caller gets the exception and nothing else. *)
Definition extract_thread_posts_and_edges (thread_response : json)
    (max_depth : Z) : exc (list (string * Post.t) * list Edge.t) :=
  exc_bind (Py.get thread_response "thread") (fun thread =>
  if negb (Py.truthy thread) then Ret ([], [])
  else match normalize_thread_node thread [] [] None max_depth 0 with
       | (st, Ret _) => Ret st
       | (_, Raise e) => Raise e
       end).

(** *** Quote extraction *)

Definition quote_edge (target_uri : string) (post : Post.t) : Edge.t :=
  {| Edge.src_uri := Post.uri post;
     Edge.dst_uri := target_uri;
     Edge.edge_type := QUOTE;
     Edge.created_at := Some (Post.created_at post) |}.

Fixpoint quote_edges_loop (quote_posts : list json) (target_uri : string)
    (posts : list Post.t) (edges : list Edge.t)
  : list Post.t * list Edge.t :=
  match quote_posts with
  | [] => (posts, edges)
  | post_data :: rest =>
      match normalize_post post_data with
      | None => quote_edges_loop rest target_uri posts edges
      | Some post =>
          quote_edges_loop rest target_uri (posts ++ [post])
            (edges ++ [quote_edge target_uri post])
      end
  end.

Definition extract_quote_edges (quote_posts : json) (target_uri : string)
  : exc (list Post.t * list Edge.t) :=
  exc_bind (Py.iter quote_posts) (fun items =>
  Ret (quote_edges_loop items target_uri [] [])).

End Runtime.

(** *** Deduplication

    Both functions are the same loop over a different key: a set [seen] of
    keys and the list [deduped], to which an item is appended when its key
    is not yet in [seen]. *)

Section Dedup.
Context {A K : Type} `{Countable K}.
Variable key : A -> K.

Fixpoint dedup_loop (items : list A) (seen : gset K) (deduped : list A)
  : list A :=
  match items with
  | [] => deduped
  | item :: rest =>
      if decide (key item ∈ seen) then dedup_loop rest seen deduped
      else dedup_loop rest ({[key item]} ∪ seen) (deduped ++ [item])
  end.

End Dedup.

Definition deduplicate_posts (posts : list Post.t) : list Post.t :=
  dedup_loop Post.uri posts ∅ [].

Definition deduplicate_edges (edges : list Edge.t) : list Edge.t :=
  dedup_loop Edge.key edges ∅ [].

End Normalize.

(** ** bsky/client.py *)

Module Client.

Record RequestStats := {
  total_requests : Z;
  cache_hits : Z;
  cache_misses : Z;
  failed_requests : Z
}.

(** A [BlueskyClient].  [_redis] tells whether the constructor got a Redis
    connection; the handles themselves are part of the environment. *)
Record BlueskyClient := {
  config : IngestConfig;
  stats : RequestStats;
  _request_count : Z;
  _redis : bool
}.

(** *** The environment of one call of [get]

    What Redis answers to the lookup, and what the network answers to each
    attempt of the retry loop, numbered from 0, with the jitter drawn at
    that attempt for the sleep that follows it. *)

Inductive redis_reply :=
| RedisFails                (* the lookup raises *)
| RedisNothing              (* no entry ([None]) or an empty string: falsy *)
| RedisGarbage              (* a text [json.loads] rejects *)
| RedisJson (j : json).     (* a text [json.loads] decodes to [j] *)

(** The [Retry-After] header.  Durations are rationals: a text that
    [float] reads as an infinity has no counterpart here. *)
Inductive retry_after :=
| NoRetryAfter                     (* header absent or empty *)
| RetryAfterSeconds (secs : Q)     (* [float] reads it as the number [secs] *)
| RetryAfterMalformed.             (* [float] raises [ValueError], or reads a
                                      NaN, which [time.sleep] rejects with
                                      [ValueError] *)

Inductive http_reply :=
| TransportError                   (* [_client.get] raises an [httpx.HTTPError] *)
| Response (status_code : Z) (header : retry_after) (body : option json).
                                   (* [body] is [None] when [response.json()] raises *)

Record call_env := {
  cache_answer : redis_reply;
  net_answer : nat -> http_reply;
  jitter : nat -> Q                (* what [random.uniform(0, 1)] draws *)
}.

(** What the call does to the outside world, in order. *)
Inductive io_event :=
| CacheLookup (cache_key : string)
| CacheStore (cache_key : string) (ttl : Z)
| HttpRequest (endpoint : string) (params : json)
| Sleep (seconds : Q).             (* without the random jitter *)

(** [time.sleep(seconds)] raises [ValueError] for a negative duration. *)
Definition sleep_raises (seconds : Q) : bool := negb (Qle_bool 0 seconds).

Definition is_http_request (ev : io_event) : bool :=
  match ev with
  | HttpRequest _ _ => true
  | _ => false
  end.

(** The number of network calls in a trace. *)
Definition requests_made (evs : list io_event) : Z :=
  Z.of_nat (length (filter is_http_request evs)).

(** [BlueskyClient(config)]; [ping_ok] tells whether Redis answered the
    constructor's ping. *)
Definition new_client (cfg : IngestConfig) (ping_ok : bool) : BlueskyClient := {|
  config := cfg;
  stats := {| total_requests := 0; cache_hits := 0;
              cache_misses := 0; failed_requests := 0 |};
  _request_count := 0;
  _redis := redis_enabled cfg && ping_ok
|}.

Definition with_stats (c : BlueskyClient) (s : RequestStats) : BlueskyClient :=
  {| config := config c; stats := s;
     _request_count := _request_count c; _redis := _redis c |}.

Definition hit (s : RequestStats) : RequestStats :=
  {| total_requests := total_requests s; cache_hits := cache_hits s + 1;
     cache_misses := cache_misses s; failed_requests := failed_requests s |}.

Definition miss (s : RequestStats) : RequestStats :=
  {| total_requests := total_requests s; cache_hits := cache_hits s;
     cache_misses := cache_misses s + 1; failed_requests := failed_requests s |}.

Definition failed (s : RequestStats) : RequestStats :=
  {| total_requests := total_requests s; cache_hits := cache_hits s;
     cache_misses := cache_misses s; failed_requests := failed_requests s + 1 |}.

(** [self._request_count += 1; self.stats.total_requests += 1] *)
Definition count_request (c : BlueskyClient) : BlueskyClient :=
  {| config := config c;
     stats := {| total_requests := total_requests (stats c) + 1;
                 cache_hits := cache_hits (stats c);
                 cache_misses := cache_misses (stats c);
                 failed_requests := failed_requests (stats c) |};
     _request_count := _request_count c + 1; _redis := _redis c |}.

(** [sub in s] *)
Definition contains (sub s : string) : bool :=
  match String.index 0 sub s with
  | Some _ => true
  | None => false
  end.

Definition _get_ttl_for_endpoint (c : BlueskyClient) (endpoint : string) : Z :=
  if contains "searchPosts" endpoint then search_ttl (config c)
  else if contains "getPostThread" endpoint || contains "getQuotes" endpoint
       then thread_ttl (config c)
  else if contains "getPosts" endpoint then posts_ttl (config c)
  else search_ttl (config c).

(** [_get_from_cache]: the client after the call, the value returned
    ([JNull] for [None]) and whether Redis was asked.  The hit counter is
    incremented before [json.loads] runs, so a text that does not decode
    counts as a hit and still gives [None]. *)
Definition _get_from_cache (c : BlueskyClient) (cache_key : string)
    (answer : redis_reply) : BlueskyClient * json * list io_event :=
  if negb (_redis c) then (c, JNull, [])
  else match answer with
       | RedisFails => (c, JNull, [CacheLookup cache_key])
       | RedisNothing => (c, JNull, [CacheLookup cache_key])
       | RedisGarbage =>
           (with_stats c (hit (stats c)), JNull, [CacheLookup cache_key])
       | RedisJson j =>
           (with_stats c (hit (stats c)), j, [CacheLookup cache_key])
       end.

(** [_set_cache]: no effect on the client; failures are swallowed. *)
Definition _set_cache (c : BlueskyClient) (cache_key : string) (ttl : Z)
  : list io_event :=
  if negb (_redis c) then [] else [CacheStore cache_key ttl].

Definition _check_budget (c : BlueskyClient) : exc unit :=
  if _request_count c >=? max_requests_per_run (config c)
  then Raise (RuntimeError "Request budget exhausted")
  else Ret tt.

(** [min(backoff * 2, max_backoff)] *)
Definition next_backoff (c : BlueskyClient) (backoff : Q) : Q :=
  Qmin (backoff * 2) (max_backoff (config c)).

(** The answers the retry loop sleeps on and tries again without counting a
    failure: a 5xx, and a 429 without a [Retry-After] header (lines 198 to
    219). *)
Definition retried_quietly (reply : http_reply) : bool :=
  match reply with
  | TransportError => false
  | Response status_code header _ =>
      (status_code >=? 500)
      || ((status_code =? 429)
          && match header with NoRetryAfter => true | _ => false end)
  end.


Section Get.

(** [hashlib.md5(json.dumps(params, sort_keys=True).encode()).hexdigest()] *)
Variable param_hash : json -> string.

Definition _make_cache_key (endpoint : string) (params : json) : string :=
  "bsky:" +:+ endpoint +:+ ":" +:+ param_hash params.

(** The retry loop of [get], lines 183 to 238.  [fuel] bounds the number of
    iterations of the model; [None] means it ran out.  A sleep of negative
    length raises [ValueError], which no handler of the loop catches: the
    call ends there, in the handler with the failure already counted. *)
Fixpoint retry_loop (fuel : nat) (c : BlueskyClient) (endpoint : string)
    (params : json) (cache_key : string) (ttl : Z) (net : nat -> http_reply)
    (jit : nat -> Q) (attempt : Z) (backoff : Q)
  : option (BlueskyClient * exc json * list io_event) :=
  if negb (attempt <? max_retries (config c)) then
    Some (c, Raise (RuntimeError "Failed to fetch after all attempts"), [])
  else
  match fuel with
  | O => None
  | S fuel' =>
      let c1 := count_request c in
      let again c' backoff' pre :=
        match retry_loop fuel' c' endpoint params cache_key ttl net jit
                (attempt + 1) backoff' with
        | Some (c'', r, evs) => Some (c'', r, pre ++ evs)
        | None => None
        end in
      let request := HttpRequest endpoint params in
      let draw := jit (Z.to_nat attempt) in
      match net (Z.to_nat attempt) with
      | TransportError =>
          let c2 := with_stats c1 (failed (stats c1)) in
          if attempt >=? max_retries (config c) - 1 then
            Some (c2, Raise (RuntimeError "Max retries reached"), [request])
          else
            let backoff' := next_backoff c backoff in
            if sleep_raises (backoff' + draw) then
              Some (c2, Raise ValueError, [request])
            else again c2 backoff' [request; Sleep backoff']
      | Response status_code header body =>
          if status_code =? 429 then
            match header with
            | RetryAfterMalformed => Some (c1, Raise ValueError, [request])
            | RetryAfterSeconds secs =>
                if sleep_raises secs then
                  Some (c1, Raise ValueError, [request])
                else again c1 (next_backoff c backoff) [request; Sleep secs]
            | NoRetryAfter =>
                if sleep_raises (backoff + draw) then
                  Some (c1, Raise ValueError, [request])
                else again c1 (next_backoff c backoff) [request; Sleep backoff]
            end
          else if status_code >=? 500 then
            if sleep_raises (backoff + draw) then
              Some (c1, Raise ValueError, [request])
            else again c1 (next_backoff c backoff) [request; Sleep backoff]
          else if (200 <=? status_code) && (status_code <=? 299) then
            match body with
            | None => Some (c1, Raise ValueError, [request])
            | Some data =>
                Some (c1, Ret data, request :: _set_cache c1 cache_key ttl)
            end
          else
            (* [raise_for_status] raises an [httpx.HTTPError] *)
            let c2 := with_stats c1 (failed (stats c1)) in
            if attempt >=? max_retries (config c) - 1 then
              Some (c2, Raise (RuntimeError "Max retries reached"), [request])
            else
              let backoff' := next_backoff c backoff in
              if sleep_raises (backoff' + draw) then
                Some (c2, Raise ValueError, [request])
              else again c2 backoff' [request; Sleep backoff']
      end
  end.

(** One iteration of the retry loop, lines 184 to 236, on its own: either
    the call of [get] is over, or the loop goes on with a new backoff.
    [draw] is the jitter drawn at this attempt. *)
Inductive attempt_outcome :=
| Finished (c : BlueskyClient) (r : exc json) (evs : list io_event)
| Retry (c : BlueskyClient) (backoff : Q) (evs : list io_event).

Definition attempt_once (c : BlueskyClient) (endpoint : string) (params : json)
    (cache_key : string) (ttl : Z) (reply : http_reply) (draw : Q)
    (attempt : Z) (backoff : Q) : attempt_outcome :=
  let c1 := count_request c in
  let request := HttpRequest endpoint params in
  let on_http_error :=
    let c2 := with_stats c1 (failed (stats c1)) in
    if attempt >=? max_retries (config c) - 1 then
      Finished c2 (Raise (RuntimeError "Max retries reached")) [request]
    else
      let backoff' := next_backoff c backoff in
      if sleep_raises (backoff' + draw) then
        Finished c2 (Raise ValueError) [request]
      else Retry c2 backoff' [request; Sleep backoff'] in
  match reply with
  | TransportError => on_http_error
  | Response status_code header body =>
      if status_code =? 429 then
        match header with
        | RetryAfterMalformed => Finished c1 (Raise ValueError) [request]
        | RetryAfterSeconds secs =>
            if sleep_raises secs then Finished c1 (Raise ValueError) [request]
            else Retry c1 (next_backoff c backoff) [request; Sleep secs]
        | NoRetryAfter =>
            if sleep_raises (backoff + draw) then
              Finished c1 (Raise ValueError) [request]
            else Retry c1 (next_backoff c backoff) [request; Sleep backoff]
        end
      else if status_code >=? 500 then
        if sleep_raises (backoff + draw) then
          Finished c1 (Raise ValueError) [request]
        else Retry c1 (next_backoff c backoff) [request; Sleep backoff]
      else if (200 <=? status_code) && (status_code <=? 299) then
        match body with
        | None => Finished c1 (Raise ValueError) [request]
        | Some data =>
            Finished c1 (Ret data) (request :: _set_cache c1 cache_key ttl)
        end
      else on_http_error
  end.

(** [get(endpoint, params)]: the client after the call, the value returned
    or the exception raised, and the trace of what the call did.  The loop
    starts at attempt 0 with the fuel [max_retries], which is enough
    ([retry_loop_counts]): the branch for a loop out of fuel is never
    taken. *)
Definition get (c : BlueskyClient) (endpoint : string) (params : json)
    (env : call_env) : BlueskyClient * exc json * list io_event :=
  match _check_budget c with
  | Raise e => (c, Raise e, [])
  | Ret _ =>
      let params := Py.or_ params (JDict []) in
      let cache_key := _make_cache_key endpoint params in
      let ttl := _get_ttl_for_endpoint c endpoint in
      let '(c1, cached, evs1) := _get_from_cache c cache_key (cache_answer env) in
      match cached with
      | JNull =>
          let c2 := with_stats c1 (miss (stats c1)) in
          match retry_loop (Z.to_nat (max_retries (config c))) c2 endpoint
                  params cache_key ttl (net_answer env) (jitter env) 0
                  (initial_backoff (config c)) with
          | Some (c3, r, evs2) => (c3, r, evs1 ++ evs2)
          | None => (c2, Raise (RuntimeError "unreachable"), evs1)
          end
      | _ => (c1, Ret cached, evs1)
      end
  end.

(** What the cache gives a call of [get], lines 168 to 173: the client after
    the lookup, the value found ([JNull] when the cache does not serve the
    call) and the lookup made. *)
Definition lookup (c : BlueskyClient) (endpoint : string) (params : json)
    (env : call_env) : BlueskyClient * json * list io_event :=
  _get_from_cache c (_make_cache_key endpoint (Py.or_ params (JDict [])))
    (cache_answer env).

Definition get_remaining_budget (c : BlueskyClient) : Z :=
  Z.max 0 (max_requests_per_run (config c) - _request_count c).

(** [counted n c c']: from [c] to [c'] the budget counter and the
    total-request counter have grown by [n], and nothing else but the
    failed-request counter has changed. *)
Definition counted (n : Z) (c c' : BlueskyClient) : Prop :=
  config c' = config c
  ∧ _redis c' = _redis c
  ∧ _request_count c' = _request_count c + n
  ∧ total_requests (stats c') = total_requests (stats c) + n
  ∧ cache_hits (stats c') = cache_hits (stats c)
  ∧ cache_misses (stats c') = cache_misses (stats c).

Definition reset_stats (c : BlueskyClient) : BlueskyClient :=
  with_stats c {| total_requests := 0; cache_hits := 0; cache_misses := 0;
                  failed_requests := 0 |}.

Definition reset_budget (c : BlueskyClient) : BlueskyClient :=
  {| config := config c; stats := stats c; _request_count := 0;
     _redis := _redis c |}.

(** A sequence of calls of [get] on one client, whatever the caller does
    with the values and the exceptions: the client after the last call and
    the trace of the whole sequence. *)
Record get_call := {
  call_endpoint : string;
  call_params : json;
  call_environment : call_env
}.

Fixpoint gets (c : BlueskyClient) (calls : list get_call)
  : BlueskyClient * list io_event :=
  match calls with
  | [] => (c, [])
  | first :: rest =>
      let '(c', _, evs) :=
        get c (call_endpoint first) (call_params first)
          (call_environment first) in
      let '(c'', evs') := gets c' rest in
      (c'', evs ++ evs')
  end.

End Get.

End Client.

(** ** bsky/api.py *)

Module Api.
Section Api.
Variable param_hash : json -> string.

Definition get_post_thread (client : Client.BlueskyClient) (uri : string)
    (depth parent_height : Z) (env : Client.call_env)
  : Client.BlueskyClient * exc json * list Client.io_event :=
  let params := JDict [("uri", JStr uri); ("depth", JInt depth);
                       ("parentHeight", JInt parent_height)] in
  Client.get param_hash client "app.bsky.feed.getPostThread" params env.

Definition get_quotes (client : Client.BlueskyClient) (uri : string)
    (limit : Z) (cursor : json) (env : Client.call_env)
  : Client.BlueskyClient * exc json * list Client.io_event :=
  let params := [("uri", JStr uri); ("limit", JInt (Z.min limit 100))] in
  let params := if Py.truthy cursor then params ++ [("cursor", cursor)]
                else params in
  Client.get param_hash client "app.bsky.feed.getQuotes" (JDict params) env.

(** [if s:] on an [Optional[str]] *)
Definition given (s : option string) : bool :=
  match s with
  | Some s => negb (String.eqb s "")
  | None => false
  end.

(** [if s: params[key] = s] *)
Definition with_param (key : string) (s : option string)
    (params : list (string * json)) : list (string * json) :=
  match s with
  | Some v => if given s then params ++ [(key, JStr v)] else params
  | None => params
  end.

Definition search_posts (client : Client.BlueskyClient) (query : string)
    (limit : Z) (cursor : json) (since until lang : option string)
    (env : Client.call_env)
  : Client.BlueskyClient * exc json * list Client.io_event :=
  let params := [("q", JStr query); ("limit", JInt (Z.min limit 100))] in
  let params := if Py.truthy cursor then params ++ [("cursor", cursor)]
                else params in
  let params := with_param "since" since params in
  let params := with_param "until" until params in
  let params := with_param "lang" lang params in
  Client.get param_hash client "app.bsky.feed.searchPosts" (JDict params) env.

(** [get_posts]: without URIs no request is made. *)
Definition get_posts (client : Client.BlueskyClient) (uris : list string)
    (env : Client.call_env)
  : Client.BlueskyClient * exc json * list Client.io_event :=
  match uris with
  | [] => (client, Ret (JDict [("posts", JList [])]), [])
  | _ =>
      let params := JDict [("uris", JList (map JStr (take 25 uris)))] in
      Client.get param_hash client "app.bsky.feed.getPosts" params env
  end.

(** The chunks of [batch_get_posts]: [uris[i : i + 25]] for [i] in
    [range(0, len(uris), 25)]. *)
Definition chunks (uris : list string) : list (list string) :=
  map (fun i => Py.slice i 25 uris) (Py.range_step (length uris) 25).

(** The loop of [batch_get_posts]: the [k]-th call of [get_posts] runs in the
    environment [envs k]; whatever a chunk raises is logged and dropped. *)
Fixpoint batch_loop (todo : list (list string)) (k : nat)
    (client : Client.BlueskyClient) (all_posts : list json)
    (envs : nat -> Client.call_env)
  : Client.BlueskyClient * list json * list Client.io_event :=
  match todo with
  | [] => (client, all_posts, [])
  | chunk :: rest =>
      let '(client', r, evs) := get_posts client chunk (envs k) in
      let all_posts' :=
        match exc_bind r (fun response =>
                exc_bind (Py.get_or response "posts" (JList [])) Py.iter) with
        | Ret found => all_posts ++ found
        | Raise _ => all_posts
        end in
      let '(client'', all_posts'', evs') :=
        batch_loop rest (S k) client' all_posts' envs in
      (client'', all_posts'', evs ++ evs')
  end.

Definition batch_get_posts (client : Client.BlueskyClient) (uris : list string)
    (envs : nat -> Client.call_env)
  : Client.BlueskyClient * list json * list Client.io_event :=
  match uris with
  | [] => (client, [], [])
  | _ => batch_loop (chunks uris) 0 client [] envs
  end.

End Api.
End Api.

(** ** bsky/ingest.py *)

Module Ingest.

(** The outside world of one run: whether Redis answers the constructor's
    ping, and the environment of the [n]-th call of [get] of the run. *)
Record world := {
  ping_ok : bool;
  call : nat -> Client.call_env
}.

(** [all_posts[post.uri] = post] *)
Definition put_post (all_posts : list (string * Post.t)) (post : Post.t)
  : list (string * Post.t) :=
  Py.setitem (Post.uri post) post all_posts.

(** Lines 164 to 168: the quote posts of a page go into the accumulator one
    by one, and the loop breaks as soon as the accumulator holds [max_nodes]
    entries. *)
Fixpoint absorb_quote_posts (max_nodes : Z) (quote_posts : list Post.t)
    (all_posts : list (string * Post.t)) : list (string * Post.t) :=
  match quote_posts with
  | [] => all_posts
  | post :: rest =>
      if Z.of_nat (length all_posts) >=? max_nodes then all_posts
      else absorb_quote_posts max_nodes rest (put_post all_posts post)
  end.

Section Run.
Variable fromisoformat : string -> option datetime.
Variable validate_int : json -> option Z.
Variable now : datetime.
Variable param_hash : json -> string.

Definition accumulators : Type := list (string * Post.t) * list Edge.t.

(** Step 1, lines 108 to 131: fetch the thread of the seed and merge what
    the traversal extracts; any exception leaves the accumulators empty. *)
Definition thread_phase (inputs : SeedModeInputs) (client : Client.BlueskyClient)
    (env : Client.call_env) : Client.BlueskyClient * accumulators :=
  let '(client', r, _) :=
    Api.get_post_thread param_hash client (seed_uri inputs)
      (max_depth inputs) 3 env in
  match exc_bind r (fun thread_response =>
          Normalize.extract_thread_posts_and_edges fromisoformat validate_int
            now thread_response (max_depth inputs)) with
  | Ret (thread_posts, thread_edges) =>
      (client', (Py.update [] thread_posts, [] ++ thread_edges))
  | Raise _ => (client', ([], []))
  end.

(** Lines 160 to 172: what one fetched quote page does to the accumulators;
    an exception here is caught by the handler of the loop body. *)
Definition absorb_quote_page (inputs : SeedModeInputs) (quote_response : json)
    (acc : accumulators) : exc accumulators :=
  exc_bind (Py.get_or quote_response "posts" (JList [])) (fun raw_quote_posts =>
  exc_bind (Normalize.extract_quote_edges fromisoformat validate_int now
              raw_quote_posts (seed_uri inputs))
    (fun '(quote_posts, quote_edges) =>
  Ret (absorb_quote_posts (max_nodes inputs) quote_posts (fst acc),
       snd acc ++ quote_edges))).

(** The [while] loop of step 2, lines 151 to 194.  [call_no] is the number
    of the next call of [get]; [None] means the fuel ran out. *)
Fixpoint quote_loop (fuel : nat) (inputs : SeedModeInputs) (w : world)
    (call_no : nat) (client : Client.BlueskyClient) (acc : accumulators)
    (cursor : json) (quote_pages_fetched : Z)
  : option (Client.BlueskyClient * accumulators) :=
  if negb (quote_pages_fetched <? max_quote_pages inputs) then
    Some (client, acc)
  else
  match fuel with
  | O => None
  | S fuel' =>
      let '(client', r, _) :=
        Api.get_quotes param_hash client (seed_uri inputs) 50 cursor
          (call w call_no) in
      match r with
      | Raise _ => Some (client', acc)
      | Ret quote_response =>
          match absorb_quote_page inputs quote_response acc with
          | Raise _ => Some (client', acc)
          | Ret acc' =>
              match Py.get quote_response "cursor" with
              | Raise _ => Some (client', acc')
              | Ret cursor' =>
                  if negb (Py.truthy cursor') then Some (client', acc')
                  else if Client.get_remaining_budget client' <? 10
                       then Some (client', acc')
                  else if Z.of_nat (length (fst acc')) >=? max_nodes inputs
                       then Some (client', acc')
                  else quote_loop fuel' inputs w (S call_no) client' acc'
                         cursor' (quote_pages_fetched + 1)
              end
          end
      end
  end.

Definition result (inputs : SeedModeInputs) (client : Client.BlueskyClient)
    (acc : accumulators) : IngestResult :=
  {| posts := Py.slice_to (max_nodes inputs) (Py.values (fst acc));
     edges := Normalize.deduplicate_edges (snd acc);
     total_requests := Client.total_requests (Client.stats client);
     cache_hits := Client.cache_hits (Client.stats client);
     cache_misses := Client.cache_misses (Client.stats client) |}.

(** [seed_mode(inputs, config)].  The quote loop starts with no page
    fetched and the fuel [max_quote_pages], which is enough
    ([quote_loop_terminates]). *)
Definition seed_mode (inputs : SeedModeInputs) (config : IngestConfig)
    (w : world) : IngestResult :=
  let client := Client.new_client config (ping_ok w) in
  let '(client, acc) := thread_phase inputs client (call w 0) in
  if Z.of_nat (length (fst acc)) >=? max_nodes inputs then
    result inputs client acc
  else
    match quote_loop (Z.to_nat (max_quote_pages inputs)) inputs w 1 client acc
            JNull 0 with
    | Some (client', acc') => result inputs client' acc'
    | None => result inputs client acc
    end.

(** *** Query mode *)

(** [since] and [until] of a time window of [h] hours, as the clock and
    [isoformat] give them; [timedelta] and the subtraction raise
    [OverflowError] out of range. *)
Variable window : Z -> exc (string * string).

(** Lines 50 to 54: the posts of one page, in page order, without those
    that do not normalize. *)
Definition page_posts (response : json) : exc (list Post.t) :=
  exc_bind (Py.get_or response "posts" (JList [])) (fun raw_posts =>
  exc_bind (Py.iter raw_posts) (fun items =>
  Ret (omap (Normalize.normalize_post fromisoformat validate_int now) items))).

(** The [while] loop of lines 38 to 73; [None] means the fuel ran out. *)
Fixpoint search_loop (fuel : nat) (inputs : QueryModeInputs) (limit : Z)
    (since until : option string) (w : world) (call_no : nat)
    (client : Client.BlueskyClient) (all_posts : list Post.t) (cursor : json)
    (pages_fetched : Z) : option (Client.BlueskyClient * list Post.t) :=
  if negb (pages_fetched <? max_pages inputs) then Some (client, all_posts)
  else
  match fuel with
  | O => None
  | S fuel' =>
      let '(client', r, _) :=
        Api.search_posts param_hash client (query inputs) limit cursor since
          until (lang inputs) (call w call_no) in
      match exc_bind r page_posts with
      | Raise _ => Some (client', all_posts)
      | Ret found =>
          let all_posts' := all_posts ++ found in
          match exc_bind r (fun response => Py.get response "cursor") with
          | Raise _ => Some (client', all_posts')
          | Ret cursor' =>
              if negb (Py.truthy cursor') then Some (client', all_posts')
              else if Client.get_remaining_budget client' <? 10
                   then Some (client', all_posts')
              else search_loop fuel' inputs limit since until w (S call_no)
                     client' all_posts' cursor' (pages_fetched + 1)
          end
      end
  end.

(** [query_mode(inputs, config)].  Only the computation of the time window
    is outside every handler. *)
Definition query_mode (inputs : QueryModeInputs) (config : IngestConfig)
    (w : world) : exc IngestResult :=
  let limit := Z.min (page_size inputs) (max_page_size config) in
  let client := Client.new_client config (ping_ok w) in
  exc_bind
    (match time_window_hours inputs with
     | Some h => if negb (h =? 0)
                 then exc_bind (window h) (fun '(since, until) =>
                        Ret (Some since, Some until))
                 else Ret (None, None)
     | None => Ret (None, None)
     end)
    (fun '(since, until) =>
  let '(client', all_posts) :=
    match search_loop (Z.to_nat (max_pages inputs)) inputs limit since until
            w 0 client [] JNull 0 with
    | Some r => r
    | None => (client, [])
    end in
  Ret {| posts := Normalize.deduplicate_posts all_posts;
         edges := [];
         total_requests := Client.total_requests (Client.stats client');
         cache_hits := Client.cache_hits (Client.stats client');
         cache_misses := Client.cache_misses (Client.stats client') |}).

End Run.

End Ingest.

(** ** app/db/models.py, app/schemas.py *)

(** A row of the table [posts].  [created_at] is a [TIMESTAMP] with time
    zone, an instant: microseconds since the epoch. *)
Module DbPost.
Record t := {
  uri : string;
  cid : option string;
  author_did : string;
  author_handle : string;
  created_at : Z;
  text : string;
  like_count : Z;
  repost_count : Z;
  reply_count : Z;
  quote_count : Z
}.
End DbPost.

Module GraphNode.
Record t := {
  uri : string;
  text : string;
  author_handle : string;
  author_did : string;
  created_at : Z;
  metrics : PostMetrics;
  in_degree : Z;
  out_degree : Z
}.
End GraphNode.

Module GraphEdge.
Record t := {
  src : string;
  dst : string;
  type : string
}.
End GraphEdge.

Record GraphStats := {
  node_count : Z;
  edge_count : Z;
  time_min : option Z;
  time_max : option Z
}.

Record GraphDTO := {
  nodes : list GraphNode.t;
  graph_edges : list GraphEdge.t;
  graph_stats : GraphStats
}.

(** ** app/services/runs_service.py *)

Module Service.

(** [(src_uri, dst_uri, edge_type, created_at)] *)
Definition edge_tuple : Type := string * string * string * option Z.

Definition tuple_src (e : edge_tuple) : string := e.1.1.1.
Definition tuple_dst (e : edge_tuple) : string := e.1.1.2.
Definition tuple_type (e : edge_tuple) : string := e.1.2.

Definition score (post : DbPost.t) : Z :=
  DbPost.like_count post + DbPost.repost_count post
  + DbPost.reply_count post + DbPost.quote_count post.

(** [scored_posts.sort(key=lambda x: x[0], reverse=True)]: a stable sort by
    decreasing key, written as an insertion sort.  An element goes in front
    of the elements to its right that have the same key. *)
Fixpoint insert_desc (x : Z * DbPost.t) (l : list (Z * DbPost.t))
  : list (Z * DbPost.t) :=
  match l with
  | [] => [x]
  | y :: l' => if y.1 <=? x.1 then x :: y :: l' else y :: insert_desc x l'
  end.

Definition sort_desc (l : list (Z * DbPost.t)) : list (Z * DbPost.t) :=
  foldr insert_desc [] l.

(** [if max_nodes and len(posts) > max_nodes] *)
Definition limit_applies (posts : list DbPost.t) (max_nodes : option Z) : bool :=
  match max_nodes with
  | Some n => negb (n =? 0) && (Z.of_nat (length posts) >? n)
  | None => false
  end.

(** Lines 209 to 226. *)
Definition apply_node_limit (posts : list DbPost.t) (max_nodes : option Z)
  : list DbPost.t :=
  match max_nodes with
  | Some n =>
      if limit_applies posts max_nodes then
        let scored_posts := map (fun post => (score post, post)) posts in
        map snd (Py.slice_to n (sort_desc scored_posts))
      else posts
  | None => posts
  end.

Definition filter_edges (uri_set : gset string) (edge_tuples : list edge_tuple)
  : list edge_tuple :=
  filter (fun e => tuple_src e ∈ uri_set ∧ tuple_dst e ∈ uri_set) edge_tuples.

(** Lines 244 to 249: the two degree dictionaries. *)
Fixpoint degrees_loop (filtered_edges : list edge_tuple)
    (in_degree out_degree : gmap string Z) : gmap string Z * gmap string Z :=
  match filtered_edges with
  | [] => (in_degree, out_degree)
  | e :: rest =>
      let out_degree' :=
        <[tuple_src e := default 0 (out_degree !! tuple_src e) + 1]> out_degree in
      let in_degree' :=
        <[tuple_dst e := default 0 (in_degree !! tuple_dst e) + 1]> in_degree in
      degrees_loop rest in_degree' out_degree'
  end.

Definition make_node (in_degree out_degree : gmap string Z) (post : DbPost.t)
  : GraphNode.t :=
  {| GraphNode.uri := DbPost.uri post;
     GraphNode.text := DbPost.text post;
     GraphNode.author_handle := DbPost.author_handle post;
     GraphNode.author_did := DbPost.author_did post;
     GraphNode.created_at := DbPost.created_at post;
     GraphNode.metrics :=
       {| like_count := DbPost.like_count post;
          repost_count := DbPost.repost_count post;
          reply_count := DbPost.reply_count post;
          quote_count := DbPost.quote_count post |};
     GraphNode.in_degree := default 0 (in_degree !! DbPost.uri post);
     GraphNode.out_degree := default 0 (out_degree !! DbPost.uri post) |}.

Definition make_edge (e : edge_tuple) : GraphEdge.t :=
  {| GraphEdge.src := tuple_src e; GraphEdge.dst := tuple_dst e;
     GraphEdge.type := tuple_type e |}.

(** [min(timestamps)], [max(timestamps)] of a list that is not empty. *)
Definition minimum (timestamps : list Z) : option Z :=
  match timestamps with
  | [] => None
  | t :: ts => Some (foldl Z.min t ts)
  end.

Definition maximum (timestamps : list Z) : option Z :=
  match timestamps with
  | [] => None
  | t :: ts => Some (foldl Z.max t ts)
  end.

Definition _build_graph (posts : list DbPost.t) (edge_tuples : list edge_tuple)
    (max_nodes : option Z) : GraphDTO :=
  let posts := apply_node_limit posts max_nodes in
  let uri_set : gset string := list_to_set (map DbPost.uri posts) in
  let filtered_edges := filter_edges uri_set edge_tuples in
  let '(in_degree, out_degree) := degrees_loop filtered_edges ∅ ∅ in
  let nodes := map (make_node in_degree out_degree) posts in
  let edges := map make_edge filtered_edges in
  let timestamps := map DbPost.created_at posts in
  {| nodes := nodes;
     graph_edges := edges;
     graph_stats := {| node_count := Z.of_nat (length nodes);
                       edge_count := Z.of_nat (length edges);
                       time_min := minimum timestamps;
                       time_max := maximum timestamps |} |}.

(** The order the specification asks for, in its own words: the posts
    sorted by score in decreasing order, ties broken by the order of the
    input.  [ranked] is such an order of [posts] when it is sorted and, for
    every score, holds the posts of that score exactly as the input holds
    them. *)
Definition ranked_by_engagement (posts ranked : list DbPost.t) : Prop :=
  StronglySorted (λ p q, score q ≤ score p) ranked
  ∧ ∀ z, filter (λ p, score p = z) ranked = filter (λ p, score p = z) posts.

(** [node] is the node made of [post]: it carries the fields of the post. *)
Definition shows (node : GraphNode.t) (post : DbPost.t) : Prop :=
  GraphNode.uri node = DbPost.uri post
  ∧ GraphNode.text node = DbPost.text post
  ∧ GraphNode.author_handle node = DbPost.author_handle post
  ∧ GraphNode.author_did node = DbPost.author_did post
  ∧ GraphNode.created_at node = DbPost.created_at post
  ∧ GraphNode.metrics node
    = {| like_count := DbPost.like_count post;
         repost_count := DbPost.repost_count post;
         reply_count := DbPost.reply_count post;
         quote_count := DbPost.quote_count post |}.

End Service.

(** ** An instance of the runtime

    The functions above take the library they run on as parameters.  Worked
    examples need an instance: [fromisoformat] restricted to the form
    [YYYY-MM-DDTHH:MM:SS], with an optional fraction of three or six digits
    and an optional offset [+HH:MM] or [-HH:MM]; the validation of an [int]
    field restricted to integers; a fixed clock; and the
    identity of the printed parameters in place of their MD5 digest. *)

Module Concrete.

Definition digit (c : ascii) : option Z :=
  let n := Z.of_nat (nat_of_ascii c) in
  if (48 <=? n) && (n <=? 57) then Some (n - 48) else None.

Fixpoint number (n : nat) (s : string) (acc : Z) : option (Z * string) :=
  match n with
  | O => Some (acc, s)
  | S n' =>
      match s with
      | String c rest => d ← digit c; number n' rest (10 * acc + d)
      | EmptyString => None
      end
  end.

Definition expect (c : ascii) (s : string) : option string :=
  match s with
  | String c' rest => if Ascii.eqb c c' then Some rest else None
  | EmptyString => None
  end.

Definition is_leap (y : Z) : bool :=
  ((y mod 4 =? 0) && negb (y mod 100 =? 0)) || (y mod 400 =? 0).

Definition days_in_month (y m : Z) : Z :=
  if m =? 2 then (if is_leap y then 29 else 28)
  else if (m =? 4) || (m =? 6) || (m =? 9) || (m =? 11) then 30
  else 31.

Definition fraction (s : string) : option (Z * string) :=
  match s with
  | String "." rest =>
      match number 6 rest 0 with
      | Some r => Some r
      | None => '(ms, rest') ← number 3 rest 0; Some (ms * 1000, rest')
      end
  | _ => Some (0, s)
  end.

Definition offset (s : string) : option (option Z) :=
  match s with
  | EmptyString => Some None
  | String sign rest =>
      sgn ← (if Ascii.eqb sign "+" then Some 1
             else if Ascii.eqb sign "-" then Some (-1) else None);
      '(h, rest) ← number 2 rest 0;
      rest ← expect ":" rest;
      '(m, rest) ← number 2 rest 0;
      match rest with
      | EmptyString =>
          if (h <? 24) && (m <? 60) then Some (Some (sgn * (60 * h + m)))
          else None
      | _ => None
      end
  end.

Definition fromisoformat (s : string) : option datetime :=
  '(year, s) ← number 4 s 0;
  s ← expect "-" s;
  '(month, s) ← number 2 s 0;
  s ← expect "-" s;
  '(day, s) ← number 2 s 0;
  s ← expect "T" s;
  '(hour, s) ← number 2 s 0;
  s ← expect ":" s;
  '(minute, s) ← number 2 s 0;
  s ← expect ":" s;
  '(second, s) ← number 2 s 0;
  '(micro, s) ← fraction s;
  tz ← offset s;
  if (1 <=? year) && (1 <=? month) && (month <=? 12) && (1 <=? day)
     && (day <=? days_in_month year month)
     && (hour <? 24) && (minute <? 60) && (second <? 60)
  then Some {| dt_year := year; dt_month := month; dt_day := day;
               dt_hour := hour; dt_minute := minute; dt_second := second;
               dt_microsecond := micro; dt_utcoffset := tz |}
  else None.

Definition validate_int (j : json) : option Z :=
  match j with
  | JInt z => Some z
  | _ => None
  end.

Definition now : datetime :=
  {| dt_year := 2026; dt_month := 1; dt_day := 1; dt_hour := 0;
     dt_minute := 0; dt_second := 0; dt_microsecond := 0;
     dt_utcoffset := None |}.

Fixpoint dumps (fuel : nat) (j : json) : string :=
  match fuel with
  | O => ""
  | S fuel' =>
      match j with
      | JNull => "null"
      | JBool b => if b then "true" else "false"
      | JInt z => pretty z
      | JStr s => "'" +:+ s +:+ "'"
      | JList l => "[" +:+ String.concat "," (map (dumps fuel') l) +:+ "]"
      | JDict kvs =>
          "{" +:+ String.concat ","
                    (map (fun kv => kv.1 +:+ ":" +:+ dumps fuel' kv.2) kvs)
          +:+ "}"
      end
  end.

Definition param_hash (params : json) : string := dumps 8 params.

Definition normalize_post := Normalize.normalize_post fromisoformat validate_int now.
Definition parse_timestamp := Normalize.parse_timestamp fromisoformat.
Definition normalize_thread_node :=
  Normalize.normalize_thread_node fromisoformat validate_int now.
Definition extract_thread_posts_and_edges :=
  Normalize.extract_thread_posts_and_edges fromisoformat validate_int now.
Definition extract_quote_edges :=
  Normalize.extract_quote_edges fromisoformat validate_int now.
Definition get := Client.get param_hash.
Definition gets := Client.gets param_hash.
Definition seed_mode := Ingest.seed_mode fromisoformat validate_int now param_hash.
Definition thread_phase := Ingest.thread_phase fromisoformat validate_int now param_hash.
Definition absorb_quote_page := Ingest.absorb_quote_page fromisoformat validate_int now.

(** A raw post payload with the fields the tests use. *)
Definition raw_post (uri handle text createdAt : string) (likes : Z) : json :=
  JDict [("uri", JStr uri);
         ("author", JDict [("did", JStr ("did:plc:" +:+ handle));
                           ("handle", JStr handle)]);
         ("record", JDict [("text", JStr text); ("createdAt", JStr createdAt)]);
         ("likeCount", JInt likes)].

Definition thread_view (post : json) (extra : list (string * json)) : json :=
  JDict ([("$type", JStr Normalize.threadViewPost); ("post", post)] ++ extra).

(** The keys of the edges a traversal of [thread] leaves, starting from an
    empty dict and an empty list. *)
Definition thread_edge_keys (thread : json) (max_depth : Z)
  : list (string * string * EdgeType) :=
  map Edge.key (normalize_thread_node thread [] [] None max_depth 0).1.2.

(** A world without Redis in which the [n]-th call of [get] is answered, at
    its first attempt, by a 200 response carrying the [n]-th body. *)
Definition ok (body : json) : Client.http_reply :=
  Client.Response 200 Client.NoRetryAfter (Some body).

Definition answers (bodies : list json) (n : nat) : Client.call_env :=
  {| Client.cache_answer := Client.RedisNothing;
     Client.net_answer := fun _ => match bodies !! n with
                                   | Some body => ok body
                                   | None => Client.TransportError
                                   end;
     Client.jitter := fun _ => 0%Q |}.

Definition world_of (bodies : list json) : Ingest.world :=
  {| Ingest.ping_ok := false; Ingest.call := answers bodies |}.

(** A call answered at once, and a call that meets two server errors
    before it is answered. *)
Definition prompt_call : Client.get_call :=
  {| Client.call_endpoint := "app.bsky.feed.searchPosts";
     Client.call_params := JDict [("q", JStr "rocq")];
     Client.call_environment :=
       {| Client.cache_answer := Client.RedisNothing;
          Client.net_answer := fun _ => ok (JDict []);
          Client.jitter := fun _ => 0%Q |} |}.

Definition retried_call : Client.get_call :=
  {| Client.call_endpoint := "app.bsky.feed.searchPosts";
     Client.call_params := JDict [("q", JStr "rocq")];
     Client.call_environment :=
       {| Client.cache_answer := Client.RedisNothing;
          Client.net_answer := fun attempt =>
            match attempt with
            | 0%nat | 1%nat => Client.Response 503 Client.NoRetryAfter None
            | _ => ok (JDict [])
            end;
          Client.jitter := fun _ => 0%Q |} |}.

(** A server that is down, and a page that does not exist. *)
Definition unavailable : Client.call_env :=
  {| Client.cache_answer := Client.RedisNothing;
     Client.net_answer := fun _ => Client.Response 503 Client.NoRetryAfter None;
     Client.jitter := fun _ => 0%Q |}.

Definition missing : Client.call_env :=
  {| Client.cache_answer := Client.RedisNothing;
     Client.net_answer := fun _ => Client.Response 404 Client.NoRetryAfter None;
     Client.jitter := fun _ => 0%Q |}.

(** The default configuration with a negative initial backoff, and with a
    negative cap on the backoff. *)
Definition negative_initial_backoff : IngestConfig := {|
  redis_enabled := true;
  search_ttl := 120; thread_ttl := 600; quotes_ttl := 600; posts_ttl := 1800;
  max_retries := 3; initial_backoff := (-5)%Q; max_backoff := 60%Q;
  max_requests_per_run := 500;
  default_page_size := 25; max_page_size := 100
|}.

Definition negative_max_backoff : IngestConfig := {|
  redis_enabled := true;
  search_ttl := 120; thread_ttl := 600; quotes_ttl := 600; posts_ttl := 1800;
  max_retries := 3; initial_backoff := 1%Q; max_backoff := (-3)%Q;
  max_requests_per_run := 500;
  default_page_size := 25; max_page_size := 100
|}.

(** An answer that is not JSON. *)
Definition garbled : Client.call_env :=
  {| Client.cache_answer := Client.RedisNothing;
     Client.net_answer := fun _ => Client.Response 200 Client.NoRetryAfter None;
     Client.jitter := fun _ => 0%Q |}.

(** A client that has used up the default budget, and a call whose answer
    is in the cache. *)
Definition exhausted_client : Client.BlueskyClient :=
  {| Client.config := default_config;
     Client.stats := {| Client.total_requests := 500; Client.cache_hits := 0;
                        Client.cache_misses := 500;
                        Client.failed_requests := 0 |};
     Client._request_count := 500;
     Client._redis := true |}.

Definition cached_call : Client.get_call :=
  {| Client.call_endpoint := "app.bsky.feed.searchPosts";
     Client.call_params := JDict [("q", JStr "rocq")];
     Client.call_environment :=
       {| Client.cache_answer := Client.RedisJson (JDict [("posts", JList [])]);
          Client.net_answer := fun _ => Client.TransportError;
          Client.jitter := fun _ => 0%Q |} |}.

(** The posts of [test_graph_builder_max_nodes_filtering], of scores 180,
    90 and 8, and posts with equal scores. *)
Definition db_post (uri : string) (likes reposts replies quotes : Z) : DbPost.t :=
  {| DbPost.uri := uri; DbPost.cid := None;
     DbPost.author_did := "did:plc:" +:+ uri; DbPost.author_handle := uri;
     DbPost.created_at := 0; DbPost.text := "";
     DbPost.like_count := likes; DbPost.repost_count := reposts;
     DbPost.reply_count := replies; DbPost.quote_count := quotes |}.

Definition post1 : DbPost.t := db_post "post1" 100 50 20 10.
Definition post2 : DbPost.t := db_post "post2" 50 25 10 5.
Definition post3 : DbPost.t := db_post "post3" 5 2 1 0.

Definition test_edges : list Service.edge_tuple :=
  [("post2", "post1", "QUOTE", None);
   ("post3", "post1", "QUOTE", None);
   ("post3", "post2", "REPLY", None)].

(** A payload whose authored timestamp does not parse and whose index
    timestamp does. *)
Definition garbled_payload : json :=
  JDict [("uri", JStr "at://garbled");
         ("author", JDict [("did", JStr "did:plc:carol");
                           ("handle", JStr "carol")]);
         ("record", JDict [("text", JStr "hello");
                           ("createdAt", JStr "garbage")]);
         ("indexedAt", JStr "2024-01-15T10:00:00Z")].

Definition seed_post : Post.t :=
  {| Post.uri := "at://seed"; Post.cid := None;
     Post.author_did := "did:plc:alice"; Post.author_handle := "alice";
     Post.created_at :=
       {| dt_year := 2024; dt_month := 1; dt_day := 15; dt_hour := 10;
          dt_minute := 0; dt_second := 0; dt_microsecond := 0;
          dt_utcoffset := Some 0 |};
     Post.text := "seed";
     Post.metrics := {| like_count := 7; repost_count := 0;
                        reply_count := 0; quote_count := 0 |} |}.

(** A seed with one reply that also quotes it.  The thread shows the reply
    with one like; the quote list, fetched later, shows it with two. *)
Definition seed_payload : json :=
  raw_post "at://seed" "alice" "seed" "2024-01-15T10:00:00Z" 7.
Definition reply_in_thread : json :=
  raw_post "at://reply" "bob" "reply" "2024-01-15T10:05:00Z" 1.


(** The same two posts as a thread: once rooted at the seed, with the reply
    among its [replies], and once rooted at the reply, with the seed as its
    [parent]. *)
Definition thread_from_seed : json :=
  thread_view seed_payload [("replies", JList [thread_view reply_in_thread []])].

Definition thread_from_reply : json :=
  thread_view reply_in_thread [("parent", thread_view seed_payload [])].

(** A run capped at two nodes: the thread holds the seed alone, and the
    only quote page holds two quote posts. *)
Definition capped_inputs : SeedModeInputs :=
  {| seed_uri := "at://seed"; max_depth := 2; max_quote_pages := 3;
     max_nodes := 2 |}.

Definition quote_page : json :=
  JDict [("posts",
          JList [raw_post "at://quote1" "carol" "q1" "2024-01-15T11:00:00Z" 0;
                 raw_post "at://quote2" "dave" "q2" "2024-01-15T12:00:00Z" 0])].

Definition capped_world : Ingest.world :=
  world_of [JDict [("thread", thread_view seed_payload [])]; quote_page].


End Concrete.

(** * Properties *)

(** ** The deduplication loop *)

Section DedupFacts.
Context {A K : Type} `{Countable K}.
Variable key : A -> K.
Implicit Types (items deduped : list A) (seen : gset K) (k : K).

(** What the loop adds to [deduped] is a subsequence of the items. *)
Lemma dedup_loop_sublist items seen deduped :
  ∃ added, Normalize.dedup_loop key items seen deduped = deduped ++ added
           ∧ added `sublist_of` items.
Proof.
  revert seen deduped.
  induction items as [|item rest IH]; intros seen deduped; simpl.
  - exists []. by rewrite app_nil_r.
  - case_decide.
    + destruct (IH seen deduped) as (added & -> & Hsub).
      exists added. split; [done|]. by apply sublist_cons.
    + destruct (IH ({[key item]} ∪ seen) (deduped ++ [item]))
        as (added & -> & Hsub).
      exists (item :: added). rewrite <- app_assoc. split; [done|].
      by apply sublist_skip.
Qed.

(** Of the items of key [k], the loop adds the first one, unless [k] has
    been seen before, and no other. *)
Lemma dedup_loop_filter items seen deduped k :
  filter (λ x, key x = k) (Normalize.dedup_loop key items seen deduped)
  = filter (λ x, key x = k) deduped
    ++ (if decide (k ∈ seen) then []
        else take 1 (filter (λ x, key x = k) items)).
Proof.
  revert seen deduped.
  induction items as [|item rest IH]; intros seen deduped; simpl.
  - case_decide; by rewrite app_nil_r.
  - rewrite filter_cons.
    destruct (decide (key item ∈ seen)) as [Hin|Hnotin]; rewrite IH.
    + f_equal. destruct (decide (k ∈ seen)); [done|].
      rewrite decide_False; [done|]. by intros <-.
    + rewrite filter_app, filter_cons, filter_nil, <- app_assoc. f_equal.
      destruct (decide (key item = k)) as [<-|Hne]; simpl.
      * rewrite decide_True by set_solver.
        rewrite decide_False by done. by rewrite take_0.
      * destruct (decide (k ∈ seen)).
        -- rewrite decide_True by set_solver. done.
        -- rewrite decide_False by set_solver. done.
Qed.

End DedupFacts.

(** ** Deduplication of edges *)


(** ** Ordered dictionaries *)

Section DictFacts.
Context {V : Type}.
Implicit Types (d : list (string * V)) (k : string) (v : V).

Lemma keys_setitem k v d :
  Py.keys (Py.setitem k v d)
  = if decide (k ∈ Py.keys d) then Py.keys d else Py.keys d ++ [k].
Proof.
  unfold Py.keys.
  induction d as [|[k' v'] d IH]; simpl.
  - done.
  - destruct (String.eqb_spec k k') as [->|Hne]; simpl.
    + rewrite decide_True; [done|]. set_solver.
    + rewrite IH. destruct (decide (k ∈ map fst d)).
      * rewrite decide_True; [done|]. set_solver.
      * rewrite decide_False; [done|]. set_solver.
Qed.

Lemma keys_setitem_prefix k v d :
  Py.keys d `prefix_of` Py.keys (Py.setitem k v d).
Proof.
  rewrite keys_setitem. case_decide; [done|]. by apply prefix_app_r.
Qed.

Lemma getitem_setitem k v d k' :
  Py.getitem k' (Py.setitem k v d)
  = if decide (k = k') then Some v else Py.getitem k' d.
Proof.
  induction d as [|[k0 v0] d IH]; simpl.
  - destruct (String.eqb_spec k' k) as [->|Hne].
    + by rewrite decide_True.
    + by rewrite decide_False.
  - destruct (String.eqb_spec k k0) as [->|Hne]; simpl.
    + destruct (String.eqb_spec k' k0) as [->|Hne'].
      * by rewrite decide_True.
      * by rewrite decide_False.
    + destruct (String.eqb_spec k' k0) as [->|Hne'].
      * by rewrite decide_False.
      * apply IH.
Qed.

Lemma length_setitem k v d :
  length (Py.setitem k v d)
  = if decide (k ∈ Py.keys d) then length d else S (length d).
Proof.
  rewrite <- (length_map fst (Py.setitem k v d)).
  change (map fst (Py.setitem k v d)) with (Py.keys (Py.setitem k v d)).
  rewrite keys_setitem. unfold Py.keys.
  case_decide; rewrite ?length_app, length_map; simpl; lia.
Qed.

End DictFacts.

(** ** Accumulation of posts in seed mode *)






(** ** The creation time of a normalized post *)

(** Inversion of a bind of the option monad, one step of [normalize_post]. *)
Ltac invert_bind H :=
  match type of H with
  | mbind _ ?m = Some _ =>
      let x := fresh "x" in
      let Hx := fresh "Hx" in
      destruct m as [x|] eqn:Hx; simpl in H; [|discriminate H]
  | (if ?b then None else _) = Some _ =>
      let Hb := fresh "Hb" in
      destruct b eqn:Hb; [discriminate H|]
  end.

Lemma catch_Some {A} (m : exc A) (a : A) :
  Normalize.catch m = Some a → m = Ret a.
Proof. destruct m; simpl; congruence. Qed.

(** C2, as amended.  For a payload [normalize_post] accepts, the field read
    is [record.createdAt] when that value is truthy and [indexedAt]
    otherwise; the creation time of the post is what [parse_timestamp] makes
    of the field read, and the current time when that is [None].  A
    [createdAt] that is present and does not parse gives the current time,
    whatever [indexedAt] holds. *)
Theorem normalize_post_created_at fromisoformat validate_int now raw post :
  Normalize.normalize_post fromisoformat validate_int now raw = Some post →
  ∃ record createdAt indexedAt,
    Py.get_or raw "record" (JDict []) = Ret record
    ∧ Py.get record "createdAt" = Ret createdAt
    ∧ Py.get raw "indexedAt" = Ret indexedAt
    ∧ (Py.truthy createdAt = true →
       ∃ parsed,
         Normalize.parse_timestamp fromisoformat createdAt = Ret parsed
         ∧ Post.created_at post = default now parsed)
    ∧ (Py.truthy createdAt = false →
       ∃ parsed,
         Normalize.parse_timestamp fromisoformat indexedAt = Ret parsed
         ∧ Post.created_at post = default now parsed).
Proof.
  intros Hpost. unfold Normalize.normalize_post in Hpost.
  repeat invert_bind Hpost.
  injection Hpost as <-. simpl.
  repeat match goal with
         | H : Normalize.catch _ = Some _ |- _ => apply catch_Some in H
         end.
  eexists _, _, _. repeat split; try eassumption.
  - intros Htrue. eexists. split; [|reflexivity].
    unfold Py.or_ in *. by rewrite Htrue in *.
  - intros Hfalse. eexists. split; [|reflexivity].
    unfold Py.or_ in *. by rewrite Hfalse in *.
Qed.

(** The premise of C2 holds of the payload of the seed. *)
Lemma normalize_post_created_at_witness :
  Concrete.normalize_post Concrete.seed_payload = Some Concrete.seed_post
  ∧ ∃ record createdAt indexedAt,
      Py.get_or Concrete.seed_payload "record" (JDict []) = Ret record
      ∧ Py.get record "createdAt" = Ret createdAt
      ∧ Py.get Concrete.seed_payload "indexedAt" = Ret indexedAt
      ∧ (Py.truthy createdAt = true →
         ∃ parsed,
           Normalize.parse_timestamp Concrete.fromisoformat createdAt
           = Ret parsed
           ∧ Post.created_at Concrete.seed_post = default Concrete.now parsed)
      ∧ (Py.truthy createdAt = false →
         ∃ parsed,
           Normalize.parse_timestamp Concrete.fromisoformat indexedAt
           = Ret parsed
           ∧ Post.created_at Concrete.seed_post = default Concrete.now parsed).
Proof.
  split; [vm_compute; reflexivity|].
  apply (normalize_post_created_at Concrete.fromisoformat
           Concrete.validate_int Concrete.now Concrete.seed_payload
           Concrete.seed_post).
  vm_compute. reflexivity.
Defined.

(** C2, as stated, fails.  [createdAt] does not parse and [indexedAt] does,
    and the post gets the current time, not the parsed [indexedAt]. *)
Lemma normalize_post_ignores_indexed_at :
  ∃ post indexed,
    Concrete.normalize_post Concrete.garbled_payload = Some post
    ∧ Concrete.parse_timestamp (JStr "garbage") = Ret None
    ∧ Concrete.parse_timestamp (JStr "2024-01-15T10:00:00Z") = Ret (Some indexed)
    ∧ Post.created_at post = Concrete.now
    ∧ Post.created_at post ≠ indexed.
Proof.
  eexists _, _.
  split; [vm_compute; reflexivity|].
  split; [vm_compute; reflexivity|].
  split; [vm_compute; reflexivity|].
  split; [reflexivity|discriminate].
Qed.

(** ** The client: the retry loop *)

Lemma requests_made_nil : Client.requests_made [] = 0.
Proof. reflexivity. Qed.

Lemma requests_made_app evs1 evs2 :
  Client.requests_made (evs1 ++ evs2)
  = Client.requests_made evs1 + Client.requests_made evs2.
Proof.
  unfold Client.requests_made. rewrite filter_app, length_app. lia.
Qed.

Lemma requests_made_set_cache c cache_key ttl :
  Client.requests_made (Client._set_cache c cache_key ttl) = 0.
Proof. unfold Client._set_cache. by destruct (Client._redis c). Qed.

Lemma requests_made_nonneg evs : 0 ≤ Client.requests_made evs.
Proof. unfold Client.requests_made. lia. Qed.

(** One more attempt after a request that was counted. *)
Lemma retry_again c c1 c' (n : Z) :
  Client.counted 1 c c1 → Client.counted n c1 c' → Client.counted (1 + n) c c'.
Proof.
  unfold Client.counted. intros (? & ? & ? & ? & ? & ?) (? & ? & ? & ? & ? & ?).
  repeat split; congruence || lia.
Qed.

Lemma counted_refl c : Client.counted 0 c c.
Proof. unfold Client.counted. repeat split; lia. Qed.

Lemma counted_count_request c : Client.counted 1 c (Client.count_request c).
Proof. by repeat split. Qed.

Lemma counted_failed c :
  Client.counted 1 c
    (Client.with_stats (Client.count_request c)
       (Client.failed (Client.stats (Client.count_request c)))).
Proof. by repeat split. Qed.

(** The loop ends within the fuel the attempt counter grants.  It makes one
    network call per iteration, at most [max_retries - attempt] of them, and
    counts each call once in both counters; it returns a payload only after
    a call. *)
Lemma retry_loop_counts fuel c endpoint params cache_key ttl net jit attempt backoff :
  (Z.to_nat (max_retries (Client.config c) - attempt) ≤ fuel)%nat →
  ∃ c' r evs,
    Client.retry_loop fuel c endpoint params cache_key ttl net jit attempt backoff
    = Some (c', r, evs)
    ∧ Client.counted (Client.requests_made evs) c c'
    ∧ Client.requests_made evs ≤ Z.max 0 (max_retries (Client.config c) - attempt)
    ∧ (∀ data, r = Ret data → 1 ≤ Client.requests_made evs).
Proof.
  revert c attempt backoff.
  induction fuel as [|fuel IH]; intros c attempt backoff Hfuel; simpl.
  - destruct (Z.ltb_spec attempt (max_retries (Client.config c))); [lia|].
    simpl. eexists _, _, _. split; [reflexivity|].
    rewrite requests_made_nil.
    split; [apply counted_refl|]. split; [lia|discriminate].
  - destruct (Z.ltb_spec attempt (max_retries (Client.config c))) as [Hlt|Hge];
      simpl.
    2:{ eexists _, _, _. split; [reflexivity|].
        rewrite requests_made_nil.
        split; [apply counted_refl|]. split; [lia|discriminate]. }
    assert (Hrec : ∀ c1 backoff' pre,
      Client.counted 1 c c1 → Client.requests_made pre = 1 →
      ∃ c' r evs,
        match Client.retry_loop fuel c1 endpoint params cache_key ttl net jit
                (attempt + 1) backoff' with
        | Some (c'', r, evs) => Some (c'', r, pre ++ evs)
        | None => None
        end = Some (c', r, evs)
        ∧ Client.counted (Client.requests_made evs) c c'
        ∧ Client.requests_made evs
          ≤ Z.max 0 (max_retries (Client.config c) - attempt)
        ∧ (∀ data, r = Ret data → 1 ≤ Client.requests_made evs)).
    { intros c1 backoff' pre Hc1 Hpre.
      assert (Hcfg : Client.config c1 = Client.config c) by apply Hc1.
      destruct (IH c1 (attempt + 1) backoff') as (c' & r & evs & -> & Hcnt & Hle & _).
      { rewrite Hcfg. lia. }
      eexists _, _, _. split; [reflexivity|].
      rewrite requests_made_app, Hpre. rewrite Hcfg in Hle.
      pose proof (requests_made_nonneg evs).
      split; [by eapply retry_again|]. split; [lia|]. intros; lia. }
    assert (Hstop : ∀ c1 e,
      Client.counted 1 c c1 →
      ∃ c' r evs,
        Some (c1, @Raise json e, [Client.HttpRequest endpoint params])
        = Some (c', r, evs)
        ∧ Client.counted (Client.requests_made evs) c c'
        ∧ Client.requests_made evs
          ≤ Z.max 0 (max_retries (Client.config c) - attempt)
        ∧ (∀ data, r = Ret data → 1 ≤ Client.requests_made evs)).
    { intros c1 e Hc1. eexists _, _, _. split; [reflexivity|].
      change (Client.requests_made [Client.HttpRequest endpoint params]) with 1.
      split; [done|]. split; [lia|]. intros; lia. }
    assert (Hsleep : ∀ c1 seconds backoff' pre,
      Client.counted 1 c c1 → Client.requests_made pre = 1 →
      ∃ c' r evs,
        (if Client.sleep_raises seconds then
           Some (c1, @Raise json ValueError,
                 [Client.HttpRequest endpoint params])
         else
           match Client.retry_loop fuel c1 endpoint params cache_key ttl net
                   jit (attempt + 1) backoff' with
           | Some (c'', r, evs) => Some (c'', r, pre ++ evs)
           | None => None
           end) = Some (c', r, evs)
        ∧ Client.counted (Client.requests_made evs) c c'
        ∧ Client.requests_made evs
          ≤ Z.max 0 (max_retries (Client.config c) - attempt)
        ∧ (∀ data, r = Ret data → 1 ≤ Client.requests_made evs)).
    { intros c1 seconds backoff' pre Hc1 Hpre.
      destruct (Client.sleep_raises seconds); [by apply Hstop|by apply Hrec]. }
    destruct (net (Z.to_nat attempt)) as [|status_code header body].
    + destruct (attempt >=? max_retries (Client.config c) - 1).
      * apply Hstop, counted_failed.
      * apply (Hsleep _ _ _ [_; _]); [apply counted_failed|done].
    + destruct (status_code =? 429).
      { destruct header as [|secs|].
        - apply (Hsleep _ _ _ [_; _]); [apply counted_count_request|done].
        - apply (Hsleep _ _ _ [_; _]); [apply counted_count_request|done].
        - apply Hstop, counted_count_request. }
      destruct (status_code >=? 500).
      { apply (Hsleep _ _ _ [_; _]); [apply counted_count_request|done]. }
      destruct ((200 <=? status_code) && (status_code <=? 299)).
      { destruct body as [data|].
        - eexists _, _, _. split; [reflexivity|].
          change (?x :: ?l) with ([x] ++ l).
          rewrite requests_made_app, requests_made_set_cache.
          change (Client.requests_made [Client.HttpRequest endpoint params])
            with 1.
          split; [apply counted_count_request|]. split; [lia|]. intros; lia.
        - apply Hstop, counted_count_request. }
      destruct (attempt >=? max_retries (Client.config c) - 1).
      * apply Hstop, counted_failed.
      * apply (Hsleep _ _ _ [_; _]); [apply counted_failed|done].
Qed.

(** ** The client: [get] *)

Lemma counted_hit c n c' :
  Client.counted n (Client.with_stats c (Client.miss (Client.stats c))) c' →
  Client.config c' = Client.config c
  ∧ Client._request_count c' = Client._request_count c + n
  ∧ Client.total_requests (Client.stats c')
    = Client.total_requests (Client.stats c) + n.
Proof. intros (? & ? & ? & ? & ? & ?). done. Qed.

(** What a call of [get] does to the configuration and to the two request
    counters, whatever the environment answers. *)
Lemma get_counts param_hash c endpoint params env :
  ∃ c' r evs,
    Client.get param_hash c endpoint params env = (c', r, evs)
    ∧ Client.config c' = Client.config c
    ∧ Client._request_count c'
      = Client._request_count c + Client.requests_made evs
    ∧ Client.total_requests (Client.stats c')
      = Client.total_requests (Client.stats c) + Client.requests_made evs
    ∧ 0 ≤ Client.requests_made evs
      ≤ Z.max 0 (max_retries (Client.config c))
    ∧ (max_requests_per_run (Client.config c) ≤ Client._request_count c →
       Client.requests_made evs = 0).
Proof.
  unfold Client.get, Client._check_budget.
  destruct (Z.geb_spec (Client._request_count c)
              (max_requests_per_run (Client.config c))) as [Hfull|Hroom].
  { eexists _, _, _. split; [reflexivity|].
    rewrite requests_made_nil. repeat split; lia. }
  set (key := Client._make_cache_key _ _ _).
  set (ttl := Client._get_ttl_for_endpoint _ _).
  assert (Hlookup : ∃ c1 cached evs1,
    Client._get_from_cache c key (Client.cache_answer env) = (c1, cached, evs1)
    ∧ Client.requests_made evs1 = 0
    ∧ Client.config c1 = Client.config c
    ∧ Client._request_count c1 = Client._request_count c
    ∧ Client.total_requests (Client.stats c1)
      = Client.total_requests (Client.stats c)).
  { unfold Client._get_from_cache.
    destruct (Client._redis c); simpl; [|by eexists _, _, _].
    destruct (Client.cache_answer env); by eexists _, _, _. }
  destruct Hlookup as (c1 & cached & evs1 & -> & Hevs1 & Hcfg1 & Hcnt1 & Htot1).
  assert (Hmiss : ∃ c' r evs,
    match Client.retry_loop (Z.to_nat (max_retries (Client.config c)))
            (Client.with_stats c1 (Client.miss (Client.stats c1))) endpoint
            (Py.or_ params (JDict [])) key ttl (Client.net_answer env) (Client.jitter env) 0
            (initial_backoff (Client.config c)) with
    | Some (c3, r, evs2) => (c3, r, evs1 ++ evs2)
    | None => (Client.with_stats c1 (Client.miss (Client.stats c1)),
               Raise (RuntimeError "unreachable"), evs1)
    end = (c', r, evs)
    ∧ Client.config c' = Client.config c
    ∧ Client._request_count c'
      = Client._request_count c + Client.requests_made evs
    ∧ Client.total_requests (Client.stats c')
      = Client.total_requests (Client.stats c) + Client.requests_made evs
    ∧ 0 ≤ Client.requests_made evs ≤ Z.max 0 (max_retries (Client.config c))
    ∧ (max_requests_per_run (Client.config c) ≤ Client._request_count c →
       Client.requests_made evs = 0)).
  { destruct (retry_loop_counts (Z.to_nat (max_retries (Client.config c)))
                (Client.with_stats c1 (Client.miss (Client.stats c1)))
                endpoint (Py.or_ params (JDict [])) key ttl
                (Client.net_answer env) (Client.jitter env) 0 (initial_backoff (Client.config c)))
      as (c3 & r & evs2 & -> & Hcnt & Hle & _).
    { simpl. rewrite Hcfg1. lia. }
    apply counted_hit in Hcnt as (Hcfg3 & Hcnt3 & Htot3).
    simpl in Hle. rewrite Hcfg1 in Hle.
    pose proof (requests_made_nonneg evs2).
    eexists _, _, _. split; [reflexivity|].
    rewrite requests_made_app, Hevs1.
    repeat split; try congruence; try lia. }
  destruct cached; try exact Hmiss;
    (eexists _, _, _; split; [reflexivity|]; rewrite Hevs1;
     repeat split; try congruence; try lia).
Qed.

(** A sequence of calls counts its network calls one by one, and a bound
    that holds of the counter before the sequence and is at least
    [max_requests_per_run + max_retries - 1] holds after it. *)
Lemma gets_counts param_hash calls c (bound : Z) :
  max_requests_per_run (Client.config c) + max_retries (Client.config c) - 1
  ≤ bound →
  ∃ c' evs,
    Client.gets param_hash c calls = (c', evs)
    ∧ Client.config c' = Client.config c
    ∧ Client._request_count c'
      = Client._request_count c + Client.requests_made evs
    ∧ Client.total_requests (Client.stats c')
      = Client.total_requests (Client.stats c) + Client.requests_made evs
    ∧ (Client._request_count c ≤ bound → Client._request_count c' ≤ bound).
Proof.
  revert c. induction calls as [|first rest IH]; intros c Hbound; simpl.
  - eexists _, _. split; [reflexivity|]. rewrite requests_made_nil.
    repeat split; lia.
  - destruct (get_counts param_hash c (Client.call_endpoint first)
                (Client.call_params first) (Client.call_environment first))
      as (c1 & r & evs1 & -> & Hcfg1 & Hcnt1 & Htot1 & Hrange & Hfull).
    destruct (IH c1) as (c2 & evs2 & -> & Hcfg2 & Hcnt2 & Htot2 & Hkeep).
    { rewrite Hcfg1. lia. }
    eexists _, _. split; [reflexivity|]. rewrite requests_made_app.
    repeat split; congruence || lia.
Qed.

(** C3, as amended.  Every call of [get] adds to the per-run request counter
    exactly the number of network calls it makes, so after any sequence of
    calls on a new client the counter is the number of network calls made.
    The cap is checked once, when [get] is entered, and not before each
    attempt: the counter never exceeds
    [max_requests_per_run + max_retries - 1]. *)
Theorem request_counter_counts_network_calls param_hash :
  (∀ c endpoint params env,
     Client._request_count (Client.get param_hash c endpoint params env).1.1
     = Client._request_count c
       + Client.requests_made (Client.get param_hash c endpoint params env).2)
  ∧ (∀ cfg ping_ok calls,
       let run := Client.gets param_hash (Client.new_client cfg ping_ok) calls in
       Client._request_count run.1 = Client.requests_made run.2
       ∧ Client._request_count run.1
         ≤ Z.max 0 (max_requests_per_run cfg + max_retries cfg - 1)).
Proof.
  split.
  - intros c endpoint params env.
    destruct (get_counts param_hash c endpoint params env)
      as (c' & r & evs & -> & _ & Hcnt & _). done.
  - intros cfg ping_ok calls run. subst run.
    destruct (gets_counts param_hash calls (Client.new_client cfg ping_ok)
                (Z.max 0 (max_requests_per_run cfg + max_retries cfg - 1)))
      as (c' & evs & -> & _ & Hcnt & _ & Hkeep).
    { simpl. lia. }
    simpl in *. split; [lia|]. apply Hkeep. lia.
Qed.

(** C3, as stated, fails.  With the default configuration (a cap of 500
    and three attempts), 499 calls answered at once and a call that meets
    two server errors leave the counter at 502. *)
Lemma request_counter_exceeds_cap :
  let run := Concrete.gets (Client.new_client default_config false)
               (replicate 499 Concrete.prompt_call ++ [Concrete.retried_call]) in
  max_requests_per_run default_config = 500
  ∧ Client._request_count run.1 = 502
  ∧ Client.requests_made run.2 = 502.
Proof. vm_compute. done. Qed.

(** C8.  When the request counter has reached the cap, [get] raises at once:
    the trace is empty, so neither the network nor the cache is touched, and
    the client, with all its counters, is the one that was given. *)
Theorem get_raises_when_budget_exhausted param_hash c endpoint params env :
  max_requests_per_run (Client.config c) ≤ Client._request_count c →
  Client.get param_hash c endpoint params env
  = (c, Raise (RuntimeError "Request budget exhausted"), []).
Proof.
  intros Hfull. unfold Client.get, Client._check_budget.
  destruct (Z.geb_spec (Client._request_count c)
              (max_requests_per_run (Client.config c))); [done|lia].
Qed.

Lemma get_raises_when_budget_exhausted_witness :
  max_requests_per_run (Client.config Concrete.exhausted_client)
  ≤ Client._request_count Concrete.exhausted_client
  ∧ Concrete.get Concrete.exhausted_client "app.bsky.feed.getQuotes"
      (JDict [("uri", JStr "at://seed")])
      (Client.call_environment Concrete.prompt_call)
    = (Concrete.exhausted_client,
       Raise (RuntimeError "Request budget exhausted"), []).
Proof.
  assert (H : max_requests_per_run (Client.config Concrete.exhausted_client)
              ≤ Client._request_count Concrete.exhausted_client)
    by (vm_compute; discriminate).
  split; [exact H|].
  exact (get_raises_when_budget_exhausted Concrete.param_hash
           Concrete.exhausted_client "app.bsky.feed.getQuotes"
           (JDict [("uri", JStr "at://seed")])
           (Client.call_environment Concrete.prompt_call) H).
Defined.

(** C10.  A call of [get] that returns a payload without a network call has
    been answered from the cache: the client it leaves is the client it was
    given with the cache-hit counter incremented, and nothing else changed;
    in particular the budget counter, the remaining budget and the
    total-request, cache-miss and failed-request counters are the same. *)
Theorem get_from_cache_changes_hits_only
    param_hash c endpoint params env c' payload evs :
  Client.get param_hash c endpoint params env = (c', Ret payload, evs) →
  Client.requests_made evs = 0 →
  Client.cache_answer env = Client.RedisJson payload
  ∧ c' = Client.with_stats c (Client.hit (Client.stats c))
  ∧ Client.cache_hits (Client.stats c') = Client.cache_hits (Client.stats c) + 1
  ∧ Client._request_count c' = Client._request_count c
  ∧ Client.get_remaining_budget c' = Client.get_remaining_budget c
  ∧ Client.total_requests (Client.stats c')
    = Client.total_requests (Client.stats c)
  ∧ Client.cache_misses (Client.stats c') = Client.cache_misses (Client.stats c)
  ∧ Client.failed_requests (Client.stats c')
    = Client.failed_requests (Client.stats c).
Proof.
  unfold Client.get, Client._check_budget.
  destruct (Client._request_count c >=? max_requests_per_run (Client.config c));
    [discriminate|].
  set (key := Client._make_cache_key _ _ _).
  set (ttl := Client._get_ttl_for_endpoint _ _).
  assert (Hmiss : ∀ c1 evs1,
    match Client.retry_loop (Z.to_nat (max_retries (Client.config c)))
            (Client.with_stats c1 (Client.miss (Client.stats c1))) endpoint
            (Py.or_ params (JDict [])) key ttl (Client.net_answer env) (Client.jitter env) 0
            (initial_backoff (Client.config c)) with
    | Some (c3, r, evs2) => (c3, r, evs1 ++ evs2)
    | None => (Client.with_stats c1 (Client.miss (Client.stats c1)),
               Raise (RuntimeError "unreachable"), evs1)
    end = (c', Ret payload, evs) →
    Client.config c1 = Client.config c →
    Client.requests_made evs ≠ 0).
  { intros c1 evs1 Hrun Hcfg.
    destruct (retry_loop_counts (Z.to_nat (max_retries (Client.config c)))
                (Client.with_stats c1 (Client.miss (Client.stats c1)))
                endpoint (Py.or_ params (JDict [])) key ttl
                (Client.net_answer env) (Client.jitter env) 0 (initial_backoff (Client.config c)))
      as (c3 & r & evs2 & Heq & _ & _ & Hret).
    { simpl. rewrite Hcfg. lia. }
    rewrite Heq in Hrun. injection Hrun as -> -> <-.
    rewrite requests_made_app.
    pose proof (requests_made_nonneg evs1). pose proof (Hret _ eq_refl). lia. }
  unfold Client._get_from_cache.
  destruct (Client._redis c); simpl.
  2:{ intros Hrun Hzero. by destruct (Hmiss _ _ Hrun eq_refl). }
  destruct (Client.cache_answer env) as [| | |j];
    try (intros Hrun Hzero; by destruct (Hmiss _ _ Hrun eq_refl)).
  destruct j;
    try (intros Hrun Hzero; by destruct (Hmiss _ _ Hrun eq_refl));
    intros [= <- <- <-] _; done.
Qed.

Lemma get_from_cache_changes_hits_only_witness :
  let c := Client.new_client default_config true in
  let c' := Client.with_stats c (Client.hit (Client.stats c)) in
  let payload := JDict [("posts", JList [])] in
  let evs := [Client.CacheLookup
                (Client._make_cache_key Concrete.param_hash
                   (Client.call_endpoint Concrete.cached_call)
                   (Client.call_params Concrete.cached_call))] in
  Client.get Concrete.param_hash c
    (Client.call_endpoint Concrete.cached_call)
    (Client.call_params Concrete.cached_call)
    (Client.call_environment Concrete.cached_call)
  = (c', Ret payload, evs)
  ∧ Client.requests_made evs = 0
  ∧ Client.cache_hits (Client.stats c') = Client.cache_hits (Client.stats c) + 1
  ∧ Client._request_count c' = Client._request_count c
  ∧ Client.get_remaining_budget c' = Client.get_remaining_budget c.
Proof.
  intros c c' payload evs.
  assert (Hget : Client.get Concrete.param_hash c
                   (Client.call_endpoint Concrete.cached_call)
                   (Client.call_params Concrete.cached_call)
                   (Client.call_environment Concrete.cached_call)
                 = (c', Ret payload, evs))
    by (vm_compute; reflexivity).
  assert (Hzero : Client.requests_made evs = 0) by (vm_compute; reflexivity).
  destruct (get_from_cache_changes_hits_only Concrete.param_hash c
              (Client.call_endpoint Concrete.cached_call)
              (Client.call_params Concrete.cached_call)
              (Client.call_environment Concrete.cached_call)
              c' payload evs Hget Hzero)
    as (_ & _ & Hhits & Hcount & Hbudget & _).
  split; [exact Hget|]. split; [exact Hzero|].
  split; [exact Hhits|]. split; [exact Hcount|exact Hbudget].
Defined.

(** ** Graph assembly: the sort *)

Lemma insert_desc_Permutation x l : Service.insert_desc x l ≡ₚ x :: l.
Proof.
  induction l as [|y l IH]; simpl; [done|].
  destruct (y.1 <=? x.1); [done|]. rewrite IH. apply Permutation_swap.
Qed.

Lemma sort_desc_Permutation l : Service.sort_desc l ≡ₚ l.
Proof.
  induction l as [|x l IH]; simpl; [done|].
  rewrite insert_desc_Permutation. by rewrite IH.
Qed.

Lemma insert_desc_sorted x l :
  StronglySorted (λ a b : Z * DbPost.t, b.1 ≤ a.1) l →
  StronglySorted (λ a b : Z * DbPost.t, b.1 ≤ a.1) (Service.insert_desc x l).
Proof.
  induction l as [|y l IH]; simpl; intros Hsorted.
  - by repeat constructor.
  - apply StronglySorted_inv in Hsorted as [Hl Hy].
    destruct (Z.leb_spec y.1 x.1) as [Hle|Hgt].
    + constructor; [by constructor|].
      constructor; [done|]. eapply Forall_impl; [exact Hy|].
      simpl. intros; lia.
    + constructor; [by apply IH|].
      rewrite insert_desc_Permutation. constructor; [lia|done].
Qed.

Lemma sort_desc_sorted l :
  StronglySorted (λ a b : Z * DbPost.t, b.1 ≤ a.1) (Service.sort_desc l).
Proof.
  induction l as [|x l IH]; simpl; [constructor|]. by apply insert_desc_sorted.
Qed.

(** The sort is stable: among the elements of one key the order of the
    input is kept. *)
Lemma insert_desc_filter x l (z : Z) :
  filter (λ a : Z * DbPost.t, a.1 = z) (Service.insert_desc x l)
  = filter (λ a : Z * DbPost.t, a.1 = z) (x :: l).
Proof.
  induction l as [|y l IH]; simpl; [done|].
  destruct (Z.leb_spec y.1 x.1) as [Hle|Hgt]; [done|].
  rewrite (filter_cons _ y), IH, !filter_cons.
  repeat case_decide; try done; lia.
Qed.

Lemma sort_desc_filter l (z : Z) :
  filter (λ a : Z * DbPost.t, a.1 = z) (Service.sort_desc l)
  = filter (λ a : Z * DbPost.t, a.1 = z) l.
Proof.
  induction l as [|x l IH]; simpl; [done|].
  by rewrite insert_desc_filter, !filter_cons, IH.
Qed.

(** The pairs the code sorts carry the score of their post. *)
Lemma filter_scored (l : list (Z * DbPost.t)) (z : Z) :
  Forall (λ a, a.1 = Service.score a.2) l →
  filter (λ p, Service.score p = z) (map snd l)
  = map snd (filter (λ a : Z * DbPost.t, a.1 = z) l).
Proof.
  induction 1 as [|a l Ha _ IH]; simpl; [done|].
  rewrite !filter_cons, IH. repeat case_decide; try done; congruence.
Qed.

Lemma sorted_scored (l : list (Z * DbPost.t)) :
  Forall (λ a, a.1 = Service.score a.2) l →
  StronglySorted (λ a b : Z * DbPost.t, b.1 ≤ a.1) l →
  StronglySorted (λ p q, Service.score q ≤ Service.score p) (map snd l).
Proof.
  induction 1 as [|a l Ha Hl IH]; simpl; intros Hsorted; [constructor|].
  apply StronglySorted_inv in Hsorted as [Hs Hall].
  constructor; [by apply IH|].
  change (map snd l) with (snd <$> l). apply Forall_fmap.
  rewrite Forall_forall in Hall, Hl. apply Forall_forall.
  intros b Hb. simpl. rewrite <- Ha, <- (Hl b Hb). by apply Hall.
Qed.

(** The list the code computes is a ranking in the sense of the
    specification. *)
Lemma sort_desc_ranked posts :
  Service.ranked_by_engagement posts
    (map snd (Service.sort_desc (map (λ post, (Service.score post, post)) posts))).
Proof.
  assert (Hscored : Forall (λ a : Z * DbPost.t, a.1 = Service.score a.2)
                      (map (λ post, (Service.score post, post)) posts)).
  { change (map ?f posts) with (f <$> posts). by apply Forall_fmap, Forall_true. }
  assert (Hsorted : Forall (λ a : Z * DbPost.t, a.1 = Service.score a.2)
    (Service.sort_desc (map (λ post, (Service.score post, post)) posts))).
  { by rewrite sort_desc_Permutation. }
  split.
  - apply sorted_scored; [done|apply sort_desc_sorted].
  - intros z. rewrite filter_scored by done.
    rewrite sort_desc_filter, <- filter_scored by done.
    by rewrite map_map, map_id.
Qed.

(** There is only one ranking. *)
Lemma ranked_unique posts ranked ranked' :
  Service.ranked_by_engagement posts ranked →
  Service.ranked_by_engagement posts ranked' →
  ranked = ranked'.
Proof.
  intros [Hs Hf] [Hs' Hf'].
  assert (Hsame : ∀ z, filter (λ p, Service.score p = z) ranked
                       = filter (λ p, Service.score p = z) ranked')
    by (intros z; by rewrite Hf, Hf').
  clear Hf Hf'. revert ranked' Hs' Hsame.
  induction Hs as [|x l Hl IH Hx]; intros [|y l'] Hs' Hsame.
  - done.
  - specialize (Hsame (Service.score y)).
    rewrite filter_cons, decide_True in Hsame by done. discriminate.
  - specialize (Hsame (Service.score x)).
    rewrite filter_cons, decide_True in Hsame by done. discriminate.
  - apply StronglySorted_inv in Hs' as [Hl' Hy].
    rewrite Forall_forall in Hx, Hy.
    assert (Hxy : Service.score x = Service.score y).
    { assert (Hin : x ∈ y :: l').
      { eapply (list_elem_of_filter (λ p, Service.score p = Service.score x)).
        rewrite <- Hsame, filter_cons, decide_True by done. left. }
      assert (Hin' : y ∈ x :: l).
      { eapply (list_elem_of_filter (λ p, Service.score p = Service.score y)).
        rewrite Hsame, filter_cons, decide_True by done. left. }
      apply elem_of_cons in Hin as [->|Hin]; [done|].
      apply elem_of_cons in Hin' as [->|Hin']; [done|].
      specialize (Hx _ Hin'). specialize (Hy _ Hin). simpl in *. lia. }
    assert (Hhead := Hsame (Service.score x)).
    rewrite !filter_cons, decide_True, decide_True in Hhead by done.
    injection Hhead as -> Htail. f_equal. apply IH; [done|].
    intros z. specialize (Hsame z). rewrite !filter_cons in Hsame.
    destruct (decide (Service.score y = z)); [|done]. congruence.
Qed.

(** ** Graph assembly: nodes, edges and degrees *)

Lemma build_graph_nodes posts edge_tuples max_nodes :
  ∃ in_degree out_degree,
    Service.degrees_loop
      (Service.filter_edges
         (list_to_set (map DbPost.uri (Service.apply_node_limit posts max_nodes)))
         edge_tuples) ∅ ∅
    = (in_degree, out_degree)
    ∧ nodes (Service._build_graph posts edge_tuples max_nodes)
      = map (Service.make_node in_degree out_degree)
          (Service.apply_node_limit posts max_nodes)
    ∧ graph_edges (Service._build_graph posts edge_tuples max_nodes)
      = map Service.make_edge
          (Service.filter_edges
             (list_to_set
                (map DbPost.uri (Service.apply_node_limit posts max_nodes)))
             edge_tuples).
Proof.
  unfold Service._build_graph.
  destruct (Service.degrees_loop _ ∅ ∅) as [in_degree out_degree].
  by exists in_degree, out_degree.
Qed.

Lemma make_node_shows in_degree out_degree kept :
  Forall2 Service.shows (map (Service.make_node in_degree out_degree) kept) kept.
Proof. induction kept; constructor; [by repeat split|done]. Qed.

Lemma apply_node_limit_top posts (n : Z) :
  0 < n < Z.of_nat (length posts) →
  Service.apply_node_limit posts (Some n)
  = take (Z.to_nat n)
      (map snd (Service.sort_desc
                  (map (λ post, (Service.score post, post)) posts))).
Proof.
  intros Hn. unfold Service.apply_node_limit, Service.limit_applies.
  destruct (Z.eqb_spec n 0); [lia|].
  destruct (Z.gtb_spec (Z.of_nat (length posts)) n); [|lia]. simpl.
  unfold Py.slice_to. destruct (Z.leb_spec 0 n); [|lia].
  change (map snd ?l) with (snd <$> l). by rewrite fmap_take.
Qed.

Lemma apply_node_limit_all posts max_nodes :
  max_nodes = None ∨ max_nodes = Some 0
  ∨ (∃ n, max_nodes = Some n ∧ Z.of_nat (length posts) ≤ n) →
  Service.apply_node_limit posts max_nodes = posts.
Proof.
  unfold Service.apply_node_limit, Service.limit_applies.
  intros [->|[->|(n & -> & Hn)]]; [done|done|].
  destruct (Z.gtb_spec (Z.of_nat (length posts)) n); [lia|].
  by rewrite andb_false_r.
Qed.

(** C5, as amended.  When [max_nodes] is set to a positive number that the
    number of posts exceeds, the nodes are made, in that order, of the
    first [max_nodes] posts of the ranking by engagement score (decreasing
    score, ties in input order); such a ranking exists and is unique.  When
    [max_nodes] is unset, is zero, or is not exceeded by the number of
    posts, the nodes are made of the input posts in input order. *)
Theorem build_graph_node_order posts edge_tuples :
  (∀ n : Z,
     0 < n < Z.of_nat (length posts) →
     ∃ ranked,
       Service.ranked_by_engagement posts ranked
       ∧ (∀ other, Service.ranked_by_engagement posts other → other = ranked)
       ∧ length (nodes (Service._build_graph posts edge_tuples (Some n)))
         = Z.to_nat n
       ∧ Forall2 Service.shows
           (nodes (Service._build_graph posts edge_tuples (Some n)))
           (take (Z.to_nat n) ranked))
  ∧ (∀ max_nodes,
       max_nodes = None ∨ max_nodes = Some 0
       ∨ (∃ n, max_nodes = Some n ∧ Z.of_nat (length posts) ≤ n) →
       Forall2 Service.shows
         (nodes (Service._build_graph posts edge_tuples max_nodes)) posts).
Proof.
  split.
  - intros n Hn.
    destruct (build_graph_nodes posts edge_tuples (Some n))
      as (ind & outd & _ & -> & _).
    rewrite apply_node_limit_top by done.
    set (ranked := map snd _).
    assert (Hranked : Service.ranked_by_engagement posts ranked)
      by apply sort_desc_ranked.
    exists ranked. split; [done|].
    split; [intros other Hother; by apply (ranked_unique posts)|].
    split; [|apply make_node_shows].
    rewrite length_map, length_take. subst ranked.
    rewrite length_map, (Permutation_length (sort_desc_Permutation _)),
      length_map.
    lia.
  - intros max_nodes Hmax.
    destruct (build_graph_nodes posts edge_tuples max_nodes)
      as (ind & outd & _ & -> & _).
    rewrite apply_node_limit_all by done. apply make_node_shows.
Qed.

(** The premise of C5 holds of the three posts of the test, cut to two. *)
Lemma build_graph_node_order_witness :
  0 < 2 < Z.of_nat (length [Concrete.post1; Concrete.post2; Concrete.post3])
  ∧ ∃ ranked,
      Service.ranked_by_engagement
        [Concrete.post1; Concrete.post2; Concrete.post3] ranked
      ∧ Forall2 Service.shows
          (nodes (Service._build_graph
                    [Concrete.post1; Concrete.post2; Concrete.post3]
                    Concrete.test_edges (Some 2)))
          (take 2 ranked).
Proof.
  assert (Hn : 0 < 2 < Z.of_nat (length [Concrete.post1; Concrete.post2;
                                         Concrete.post3]))
    by (simpl; lia).
  split; [exact Hn|].
  destruct (proj1 (build_graph_node_order
                     [Concrete.post1; Concrete.post2; Concrete.post3]
                     Concrete.test_edges) 2 Hn)
    as (ranked & Hranked & _ & _ & Hshows).
  exists ranked. split; [exact Hranked|exact Hshows].
Defined.

(** C5, as stated, fails when [max_nodes] is zero: the number of posts
    exceeds it, and every post is kept. *)
Lemma build_graph_zero_limit_keeps_all :
  Z.of_nat (length [Concrete.post1; Concrete.post2; Concrete.post3]) > 0
  ∧ map GraphNode.uri
      (nodes (Service._build_graph
                [Concrete.post1; Concrete.post2; Concrete.post3]
                Concrete.test_edges (Some 0)))
    = ["post1"; "post2"; "post3"].
Proof. split; [done|]. vm_compute. reflexivity. Qed.

(** The posts of the test, cut to two, with their edges and degrees. *)
Example build_graph_max_nodes_filtering :
  let g := Service._build_graph
             [Concrete.post3; Concrete.post2; Concrete.post1]
             Concrete.test_edges (Some 2) in
  map (λ node, (GraphNode.uri node, GraphNode.in_degree node,
                GraphNode.out_degree node)) (nodes g)
  = [("post1", 1, 0); ("post2", 0, 1)]
  ∧ graph_edges g = [GraphEdge.Build_t "post2" "post1" "QUOTE"].
Proof. vm_compute. done. Qed.

(** Equal scores keep the order of the input. *)
Example build_graph_ties :
  map GraphNode.uri
    (nodes (Service._build_graph
              [Concrete.db_post "a" 5 0 0 0; Concrete.db_post "b" 7 0 0 0;
               Concrete.db_post "c" 5 0 0 0; Concrete.db_post "d" 7 0 0 0]
              [] (Some 3)))
  = ["b"; "d"; "a"].
Proof. vm_compute. reflexivity. Qed.

(** The degree dictionaries count the edges they are fed: the entry of a
    URI grows by the number of edges that end, respectively start, there. *)
Lemma degrees_loop_counts filtered_edges (in_degree out_degree : gmap string Z) :
  ∀ in_degree' out_degree',
    Service.degrees_loop filtered_edges in_degree out_degree
    = (in_degree', out_degree') →
    ∀ uri : string,
      default 0 (in_degree' !! uri)
      = default 0 (in_degree !! uri)
        + Z.of_nat (length (filter (λ e, Service.tuple_dst e = uri)
                              filtered_edges))
      ∧ default 0 (out_degree' !! uri)
        = default 0 (out_degree !! uri)
          + Z.of_nat (length (filter (λ e, Service.tuple_src e = uri)
                                filtered_edges)).
Proof.
  revert in_degree out_degree.
  induction filtered_edges as [|e rest IH];
    intros in_degree out_degree in_degree' out_degree' Hloop uri; simpl in Hloop.
  - injection Hloop as <- <-. rewrite !filter_nil. simpl. lia.
  - destruct (IH _ _ _ _ Hloop uri) as [Hin Hout].
    rewrite Hin, Hout, !filter_cons. split.
    + destruct (decide (Service.tuple_dst e = uri)) as [<-|Hne].
      * rewrite lookup_insert_eq. simpl. lia.
      * by rewrite lookup_insert_ne.
    + destruct (decide (Service.tuple_src e = uri)) as [<-|Hne].
      * rewrite lookup_insert_eq. simpl. lia.
      * by rewrite lookup_insert_ne.
Qed.

Lemma filter_make_edge (P : GraphEdge.t → Prop) `{∀ e, Decision (P e)}
    (l : list Service.edge_tuple) :
  length (filter P (map Service.make_edge l))
  = length (filter (λ e, P (Service.make_edge e)) l).
Proof.
  induction l as [|e l IH]; simpl; [done|].
  rewrite !filter_cons. case_decide; simpl; by rewrite IH.
Qed.

Lemma apply_node_limit_slice posts (n : Z) :
  n ≠ 0 → n < Z.of_nat (length posts) →
  Service.apply_node_limit posts (Some n)
  = Py.slice_to n
      (map snd (Service.sort_desc
                  (map (λ post, (Service.score post, post)) posts))).
Proof.
  intros Hn Hlt. unfold Service.apply_node_limit, Service.limit_applies.
  destruct (Z.eqb_spec n 0); [lia|].
  destruct (Z.gtb_spec (Z.of_nat (length posts)) n); [|lia]. simpl.
  unfold Py.slice_to. rewrite length_map.
  change (map snd ?l) with (snd <$> l).
  by destruct (0 <=? n); rewrite fmap_take.
Qed.

(** C6.  The nodes of the graph are made, in order, of the retained posts:
    the input posts when the limit does not apply, the slice [[:max_nodes]]
    of their ranking by engagement score when it does.  The edges of the
    graph are the input edges, in input order, whose two ends are URIs of
    retained posts; the in-degree and the out-degree of every node are the
    numbers of edges of the graph that end, respectively start, at the
    node. *)
Theorem build_graph_edges_and_degrees posts edge_tuples max_nodes :
  let g := Service._build_graph posts edge_tuples max_nodes in
  ∃ kept : list DbPost.t,
    (max_nodes = None ∨ max_nodes = Some 0
     ∨ (∃ n, max_nodes = Some n ∧ Z.of_nat (length posts) ≤ n) →
     kept = posts)
    ∧ (∀ n, max_nodes = Some n → n ≠ 0 → n < Z.of_nat (length posts) →
         ∃ ranked, Service.ranked_by_engagement posts ranked
                   ∧ kept = Py.slice_to n ranked)
    ∧ Forall2 Service.shows (nodes g) kept
    ∧ let retained : gset string := list_to_set (map DbPost.uri kept) in
      graph_edges g
      = map Service.make_edge
          (filter (λ e, Service.tuple_src e ∈ retained
                        ∧ Service.tuple_dst e ∈ retained) edge_tuples)
      ∧ Forall (λ node,
          GraphNode.in_degree node
          = Z.of_nat (length (filter (λ e, GraphEdge.dst e = GraphNode.uri node)
                                (graph_edges g)))
          ∧ GraphNode.out_degree node
            = Z.of_nat (length (filter (λ e, GraphEdge.src e = GraphNode.uri node)
                                  (graph_edges g))))
          (nodes g).
Proof.
  intros g. subst g.
  destruct (build_graph_nodes posts edge_tuples max_nodes)
    as (ind & outd & Hloop & -> & ->).
  exists (Service.apply_node_limit posts max_nodes).
  split; [apply apply_node_limit_all|].
  split.
  { intros n -> Hn Hlt. eexists. split; [apply sort_desc_ranked|].
    by apply apply_node_limit_slice. }
  split; [apply make_node_shows|].
  cbv zeta. split; [done|].
  change (map ?f ?l) with (f <$> l) at 1. apply Forall_fmap, Forall_forall.
  intros post _. simpl.
  destruct (degrees_loop_counts _ _ _ _ _ Hloop (DbPost.uri post)) as [Hin Hout].
  rewrite Hin, Hout, !lookup_empty. simpl.
  by rewrite !filter_make_edge.
Qed.

(** C6 at the posts of the test, cut to two: the retained posts are the
    first two of the ranking, and the edges are those between them. *)
Lemma build_graph_edges_and_degrees_witness :
  let posts := [Concrete.post3; Concrete.post2; Concrete.post1] in
  let g := Service._build_graph posts Concrete.test_edges (Some 2) in
  (2 ≠ 0 ∧ 2 < Z.of_nat (length posts))
  ∧ ∃ kept ranked,
      Service.ranked_by_engagement posts ranked
      ∧ kept = Py.slice_to 2 ranked
      ∧ Forall2 Service.shows (nodes g) kept
      ∧ graph_edges g
        = map Service.make_edge
            (filter (λ e, Service.tuple_src e
                            ∈ (list_to_set (map DbPost.uri kept) : gset string)
                          ∧ Service.tuple_dst e
                            ∈ (list_to_set (map DbPost.uri kept) : gset string))
               Concrete.test_edges).
Proof.
  intros posts g.
  assert (Hn : 2 ≠ 0) by discriminate.
  assert (Hlt : 2 < Z.of_nat (length posts)) by reflexivity.
  split; [by split|].
  destruct (build_graph_edges_and_degrees posts Concrete.test_edges (Some 2))
    as (kept & _ & Hcut & Hshows & Hedges & _).
  destruct (Hcut 2 eq_refl Hn Hlt) as (ranked & Hranked & Hkept).
  exists kept, ranked.
  split; [exact Hranked|]. split; [exact Hkept|].
  split; [exact Hshows|exact Hedges].
Defined.

(** The example of the specification: posts A, B and C, the edges B → A
    and C → A, and no limit. *)
Example build_graph_two_quotes :
  let g := Service._build_graph
             [Concrete.db_post "A" 0 0 0 0; Concrete.db_post "B" 0 0 0 0;
              Concrete.db_post "C" 0 0 0 0]
             [("B", "A", "QUOTE", None); ("C", "A", "QUOTE", None)] None in
  map (λ node, (GraphNode.uri node, GraphNode.in_degree node,
                GraphNode.out_degree node)) (nodes g)
  = [("A", 2, 0); ("B", 0, 1); ("C", 0, 1)]
  ∧ graph_edges g = [GraphEdge.Build_t "B" "A" "QUOTE";
                     GraphEdge.Build_t "C" "A" "QUOTE"].
Proof. vm_compute. done. Qed.

(** ** Thread traversal *)

Section TraversalFacts.
Variable fromisoformat : string -> option datetime.
Variable validate_int : json -> option Z.
Variable now : datetime.

Lemma terminates_tret {A} (a : A) : Normalize.terminates (Normalize.tret a).
Proof. intros st. by eexists. Qed.

Lemma terminates_tlift {A} (m : exc A) : Normalize.terminates (Normalize.tlift m).
Proof. intros st. by eexists. Qed.

Lemma terminates_tbind {A B} (m : Normalize.traversal A)
    (k : A → Normalize.traversal B) :
  Normalize.terminates m → (∀ a, Normalize.terminates (k a)) →
  Normalize.terminates (Normalize.tbind m k).
Proof.
  intros Hm Hk st. unfold Normalize.tbind.
  destruct (Hm st) as [[st' [a|e]] ->]; [apply Hk|by eexists].
Qed.

Lemma terminates_tfor {A} (body : json → Normalize.traversal A) items :
  (∀ item, Normalize.terminates (body item)) →
  Normalize.terminates (Normalize.tfor body items).
Proof.
  intros Hbody. induction items as [|item rest IH]; simpl.
  - apply terminates_tret.
  - apply terminates_tbind; [apply Hbody|done].
Qed.

Lemma terminates_record_post post parent_uri :
  Normalize.terminates (Normalize.record_post post parent_uri).
Proof. intros [posts edges]. by eexists. Qed.

(** The depth counter bounds the recursion: with the fuel it grants, the
    traversal never runs out. *)
Lemma thread_node_terminates fuel node parent_uri max_depth current_depth :
  (Normalize.depth_fuel max_depth current_depth ≤ fuel)%nat →
  Normalize.terminates
    (Normalize.thread_node fromisoformat validate_int now fuel node parent_uri
       max_depth current_depth).
Proof.
  unfold Normalize.depth_fuel.
  revert node parent_uri current_depth.
  induction fuel as [|fuel IH]; intros node parent_uri current_depth Hfuel;
    simpl; destruct (Z.geb_spec current_depth max_depth) as [Hdone|Hmore];
    try apply terminates_tret; [lia|].
  assert (Hrec : ∀ child uri,
    Normalize.terminates
      (Normalize.thread_node fromisoformat validate_int now fuel child uri
         max_depth (current_depth + 1)))
    by (intros; apply IH; lia).
  apply terminates_tbind; [apply terminates_tlift|]. intros node_type.
  destruct (Normalize.is_type node_type Normalize.threadViewPost).
  2:{ repeat case_match; apply terminates_tret. }
  apply terminates_tbind; [apply terminates_tlift|]. intros post_data.
  destruct (negb (Py.truthy post_data)); [apply terminates_tret|].
  destruct (Normalize.normalize_post _ _ _ post_data) as [post|];
    [|apply terminates_tret].
  apply terminates_tbind; [apply terminates_record_post|]. intros _.
  apply terminates_tbind; [apply terminates_tlift|]. intros parent_node.
  apply terminates_tbind.
  { destruct (Py.truthy parent_node); [apply Hrec|apply terminates_tret]. }
  intros _.
  apply terminates_tbind; [apply terminates_tlift|]. intros replies.
  apply terminates_tbind; [apply terminates_tlift|]. intros reply_nodes.
  apply terminates_tbind; [|intros; apply terminates_tret].
  apply terminates_tfor. intros item. apply Hrec.
Qed.

(** [normalize_thread_node] is the traversal run on the fuel of the depth
    counter. *)
Lemma normalize_thread_node_run node posts edges parent_uri max_depth
    current_depth :
  Normalize.thread_node fromisoformat validate_int now
    (Normalize.depth_fuel max_depth current_depth) node parent_uri max_depth
    current_depth (posts, edges)
  = Some (Normalize.normalize_thread_node fromisoformat validate_int now node
            posts edges parent_uri max_depth current_depth).
Proof.
  unfold Normalize.normalize_thread_node.
  by destruct (thread_node_terminates _ node parent_uri max_depth
                 current_depth (le_n _) (posts, edges)) as [r ->].
Qed.

(** With a parent URI, [record_post] leaves in the list an edge from the
    post to that URI, whoever that URI belongs to. *)
Lemma record_post_edge post parent posts edges :
  parent ≠ "" →
  ∃ posts' edges',
    Normalize.record_post post (Some parent) (posts, edges)
    = Some ((posts', edges'), Ret tt)
    ∧ Py.getitem (Post.uri post) posts' = Some post
    ∧ ∃ edge, edge ∈ edges'
              ∧ Edge.key edge = (Post.uri post, parent, REPLY).
Proof.
  intros Hparent. unfold Normalize.record_post, Normalize.uri_truthy.
  destruct (String.eqb_spec parent "") as [|_]; [done|]. simpl.
  eexists _, _. split; [reflexivity|]. split.
  { rewrite getitem_setitem. by rewrite decide_True. }
  destruct (existsb _ edges) eqn:Hex.
  - apply existsb_exists in Hex as (edge & Hin & Heq).
    exists edge. split; [by apply list_elem_of_In|].
    unfold Edge.eqb in Heq. apply bool_decide_eq_true in Heq. by rewrite <- Heq.
  - eexists. split; [apply elem_of_app; right; by left|done].
Qed.

Local Arguments Py.truthy : simpl nomatch.

(** A payload that normalizes is a truthy value, and the URI of its post is
    not empty. *)
Lemma normalize_post_truthy post_data post :
  Normalize.normalize_post fromisoformat validate_int now post_data = Some post →
  Py.truthy post_data = true ∧ Post.uri post ≠ "".
Proof.
  intros Hpost. unfold Normalize.normalize_post in Hpost.
  repeat invert_bind Hpost. injection Hpost as <-. simpl.
  match goal with
  | H : Normalize.catch (Py.get post_data "uri") = Some ?u |- _ =>
      apply catch_Some in H; rename H into Huri
  end.
  destruct post_data as [| | | | |kvs]; try discriminate Huri.
  destruct kvs as [|kv kvs].
  { injection Huri as <-. discriminate. }
  split; [done|].
  match goal with
  | H : Normalize.validate_str ?u = Some ?s,
    Hb : negb (Py.truthy ?u) = false |- ?s ≠ "" =>
      destruct u; try discriminate H; injection H as ->;
      intros ->; discriminate Hb
  end.
Qed.

(** The direction of a REPLY edge on the way down.  A thread rooted at a
    post that has another post among its [replies], both of which
    normalize, leaves one edge: from the reply to the post it replies
    to. *)
Lemma reply_child_edge child_data parent_data child parent max_depth :
  Normalize.normalize_post fromisoformat validate_int now child_data
  = Some child →
  Normalize.normalize_post fromisoformat validate_int now parent_data
  = Some parent →
  2 ≤ max_depth →
  (Normalize.normalize_thread_node fromisoformat validate_int now
     (JDict [("$type", JStr Normalize.threadViewPost); ("post", parent_data);
             ("replies",
              JList [JDict [("$type", JStr Normalize.threadViewPost);
                            ("post", child_data)]])])
     [] [] None max_depth 0).1.2
  = [{| Edge.src_uri := Post.uri child; Edge.dst_uri := Post.uri parent;
        Edge.edge_type := REPLY;
        Edge.created_at := Some (Post.created_at child) |}].
Proof.
  intros Hchild Hparent Hdepth.
  destruct (normalize_post_truthy _ _ Hchild) as [Htc _].
  destruct (normalize_post_truthy _ _ Hparent) as [Htp Hup].
  unfold Normalize.normalize_thread_node, Normalize.depth_fuel.
  replace (Z.to_nat (max_depth - 0)) with (S (S (Z.to_nat (max_depth - 2))))
    by lia.
  cbn -[Normalize.normalize_post Z.geb Z.add].
  destruct (Z.geb_spec 0 max_depth); [lia|].
  unfold Normalize.tbind, Normalize.tlift, Normalize.tret.
  cbn -[Normalize.normalize_post Z.geb Z.add].
  rewrite Htp, Hparent.
  cbn -[Normalize.normalize_post Z.geb Z.add].
  destruct (Z.geb_spec (0 + 1) max_depth); [lia|].
  rewrite Htc, Hchild.
  cbn -[Normalize.normalize_post Z.geb Z.add].
  destruct (String.eqb_spec (Post.uri parent) ""); [done|]. reflexivity.
Qed.

(** The direction of a REPLY edge on the way up.  A thread rooted
    at a post whose [parent] is another post, both of which normalize,
    leaves one edge: from the parent to the post that replies to it. *)
Lemma parent_chain_edge child_data parent_data child parent max_depth :
  Normalize.normalize_post fromisoformat validate_int now child_data
  = Some child →
  Normalize.normalize_post fromisoformat validate_int now parent_data
  = Some parent →
  2 ≤ max_depth →
  (Normalize.normalize_thread_node fromisoformat validate_int now
     (JDict [("$type", JStr Normalize.threadViewPost); ("post", child_data);
             ("parent",
              JDict [("$type", JStr Normalize.threadViewPost);
                     ("post", parent_data)])])
     [] [] None max_depth 0).1.2
  = [{| Edge.src_uri := Post.uri parent; Edge.dst_uri := Post.uri child;
        Edge.edge_type := REPLY;
        Edge.created_at := Some (Post.created_at parent) |}].
Proof.
  intros Hchild Hparent Hdepth.
  destruct (normalize_post_truthy _ _ Hchild) as [Htc Huc].
  destruct (normalize_post_truthy _ _ Hparent) as [Htp _].
  unfold Normalize.normalize_thread_node, Normalize.depth_fuel.
  replace (Z.to_nat (max_depth - 0)) with (S (S (Z.to_nat (max_depth - 2))))
    by lia.
  cbn -[Normalize.normalize_post Z.geb Z.add].
  destruct (Z.geb_spec 0 max_depth); [lia|].
  unfold Normalize.tbind, Normalize.tlift, Normalize.tret.
  cbn -[Normalize.normalize_post Z.geb Z.add].
  rewrite Htc, Hchild.
  cbn -[Normalize.normalize_post Z.geb Z.add].
  destruct (Z.geb_spec (0 + 1) max_depth); [lia|].
  rewrite Htp, Hparent.
  cbn -[Normalize.normalize_post Z.geb Z.add].
  destruct (String.eqb_spec (Post.uri child) ""); [done|]. reflexivity.
Qed.

End TraversalFacts.

(** C1, evaluated.  The reply and the seed it replies to, traversed from the
    seed, give the edge from the reply to the seed.  The same two posts
    traversed from the reply, whose [parent] is the seed, give the edge from
    the seed to the reply: the parent is made the source and its child the
    destination. *)
Theorem parent_chain_edge_is_reversed :
  Concrete.thread_edge_keys Concrete.thread_from_seed 10
  = [("at://reply", "at://seed", REPLY)]
  ∧ Concrete.thread_edge_keys Concrete.thread_from_reply 10
    = [("at://seed", "at://reply", REPLY)].
Proof. split; vm_compute; reflexivity. Qed.

(** ** Seed mode: quote expansion *)

Section SeedFacts.
Variable fromisoformat : string -> option datetime.
Variable validate_int : json -> option Z.
Variable now : datetime.
Variable param_hash : json -> string.

(** Every item of the page that normalizes gives one post and one QUOTE
    edge to the target, in the order of the page. *)
Lemma quote_edges_loop_spec items target_uri posts edges :
  Normalize.quote_edges_loop fromisoformat validate_int now items target_uri
    posts edges
  = (posts ++ omap (Normalize.normalize_post fromisoformat validate_int now)
                items,
     edges ++ map (Normalize.quote_edge target_uri)
                (omap (Normalize.normalize_post fromisoformat validate_int now)
                   items)).
Proof.
  revert posts edges.
  induction items as [|post_data rest IH]; intros posts edges; simpl.
  - by rewrite !app_nil_r.
  - destruct (Normalize.normalize_post _ _ _ post_data) as [post|]; [|done].
    rewrite IH. simpl. by rewrite <- !app_assoc.
Qed.


(** A run returns what [result] makes of some client and accumulators. *)
Lemma seed_mode_result inputs config w :
  ∃ client acc,
    Ingest.seed_mode fromisoformat validate_int now param_hash inputs config w
    = Ingest.result inputs client acc.
Proof.
  unfold Ingest.seed_mode.
  destruct (Ingest.thread_phase _ _ _ _ _ _ _) as [client acc].
  destruct (_ >=? _); [by eexists _, _|].
  destruct (Ingest.quote_loop _ _ _ _ _ _ _ _ _ _ _ _) as [[client' acc']|];
    by eexists _, _.
Qed.

End SeedFacts.

Section QuoteLoopFacts.
Variable fromisoformat : string -> option datetime.
Variable validate_int : json -> option Z.
Variable now : datetime.
Variable param_hash : json -> string.



End QuoteLoopFacts.



(** The run capped at two nodes: the second quote post is left out of the
    posts, and its edge is among the edges. *)
Example seed_mode_capped_run :
  let run := Concrete.seed_mode Concrete.capped_inputs default_config
               Concrete.capped_world in
  map Post.uri (posts run) = ["at://seed"; "at://quote1"]
  ∧ map Edge.key (edges run)
    = [("at://quote1", "at://seed", QUOTE); ("at://quote2", "at://seed", QUOTE)].
Proof. vm_compute. done. Qed.

(** A negative [max_nodes] is truthy and always exceeded: the slice drops
    the last posts of the ranking. *)
Example build_graph_negative_limit :
  map GraphNode.uri
    (nodes (Service._build_graph
              [Concrete.post3; Concrete.post2; Concrete.post1] [] (Some (-1))))
  = ["post1"; "post2"].
Proof. vm_compute. reflexivity. Qed.

(** * Further properties *)

(** ** [normalize_post]: what an accepted payload looks like *)

Section NormalizeFacts.
Variable fromisoformat : string -> option datetime.
Variable validate_int : json -> option Z.
Variable now : datetime.

Lemma validate_str_truthy j s :
  Normalize.validate_str j = Some s → negb (Py.truthy j) = false →
  j = JStr s ∧ s ≠ "".
Proof.
  destruct j; try discriminate. intros [= ->] Htruthy. split; [done|].
  intros ->. discriminate.
Qed.

Lemma get_or_Ret d k dflt v :
  Py.get_or d k dflt = Ret v →
  ∃ kvs, d = JDict kvs ∧ v = default dflt (Py.assoc k kvs).
Proof. destruct d; try discriminate. intros [= <-]. by eexists. Qed.

(** X1.  A payload is accepted only if it is a dict that holds a URI and, under
    [author], a DID and a handle, all three strings that are not empty; the
    post carries exactly these strings. *)
Theorem normalize_post_identity raw post :
  Normalize.normalize_post fromisoformat validate_int now raw = Some post →
  ∃ kvs author,
    raw = JDict kvs
    ∧ Py.assoc "uri" kvs = Some (JStr (Post.uri post))
    ∧ Py.assoc "author" kvs = Some (JDict author)
    ∧ Py.assoc "did" author = Some (JStr (Post.author_did post))
    ∧ Py.assoc "handle" author = Some (JStr (Post.author_handle post))
    ∧ Post.uri post ≠ "" ∧ Post.author_did post ≠ ""
    ∧ Post.author_handle post ≠ "".
Proof.
  intros Hpost. unfold Normalize.normalize_post in Hpost.
  repeat invert_bind Hpost. injection Hpost as <-. simpl.
  repeat match goal with
         | H : Normalize.catch _ = Some _ |- _ => apply catch_Some in H
         end.
  unfold Py.get in *.
  match goal with
  | H : Py.get_or raw "uri" _ = Ret _ |- _ =>
      destruct raw as [| | | | |kvs]; try discriminate H
  end.
  simpl in *.
  repeat match goal with
         | H : Ret _ = Ret ?x |- _ => injection H as <-
         end.
  match goal with
  | H : Py.get_or ?a "did" _ = Ret _ |- _ =>
      destruct a as [| | | | |author] eqn:Hauthor; try discriminate H
  end.
  simpl in *.
  repeat match goal with
         | H : Ret _ = Ret ?x |- _ => injection H as <-
         end.
  match goal with
  | H : negb _ || negb _ = false |- _ =>
      apply orb_false_elim in H as [Hdid Hhandle]
  end.
  repeat match goal with
         | H : Normalize.validate_str ?j = Some ?s,
           Hb : negb (Py.truthy ?j) = false |- _ =>
             let Heq := fresh "Heq" in
             let Hne := fresh "Hne" in
             destruct (validate_str_truthy _ _ H Hb) as [Heq Hne]; clear H
         end.
  exists kvs, author.
  destruct (Py.assoc "uri" kvs); [|discriminate].
  destruct (Py.assoc "did" author) eqn:Edid; [|discriminate].
  destruct (Py.assoc "handle" author); [|discriminate].
  simpl in *. subst.
  destruct (Py.assoc "author" kvs); simpl in Hauthor.
  - by subst.
  - injection Hauthor as <-. discriminate Edid.
Qed.

(** X2.  The other fields of an accepted payload: the text is the string under
    [record.text], the empty string when the key is absent; the content hash
    is the string under [cid], [None] when the key is absent or null; each
    counter is what the validation makes of the value under its key, of 0
    when the key is absent. *)
Theorem normalize_post_defaults raw post :
  Normalize.normalize_post fromisoformat validate_int now raw = Some post →
  ∃ kvs record,
    raw = JDict kvs
    ∧ default (JDict []) (Py.assoc "record" kvs) = JDict record
    ∧ default (JStr "") (Py.assoc "text" record) = JStr (Post.text post)
    ∧ Normalize.validate_opt_str (default JNull (Py.assoc "cid" kvs))
      = Some (Post.cid post)
    ∧ validate_int (default (JInt 0) (Py.assoc "likeCount" kvs))
      = Some (like_count (Post.metrics post))
    ∧ validate_int (default (JInt 0) (Py.assoc "repostCount" kvs))
      = Some (repost_count (Post.metrics post))
    ∧ validate_int (default (JInt 0) (Py.assoc "replyCount" kvs))
      = Some (reply_count (Post.metrics post))
    ∧ validate_int (default (JInt 0) (Py.assoc "quoteCount" kvs))
      = Some (quote_count (Post.metrics post)).
Proof.
  intros Hpost. unfold Normalize.normalize_post in Hpost.
  repeat invert_bind Hpost. injection Hpost as <-. simpl.
  repeat match goal with
         | H : Normalize.catch _ = Some _ |- _ => apply catch_Some in H
         end.
  unfold Py.get in *.
  match goal with
  | H : Py.get_or raw "uri" _ = Ret _ |- _ =>
      destruct raw as [| | | | |kvs]; try discriminate H
  end.
  simpl in *.
  repeat match goal with
         | H : Ret _ = Ret ?x |- _ => injection H as <-
         end.
  match goal with
  | H : Py.get_or ?r "text" _ = Ret _ |- _ =>
      destruct r as [| | | | |record] eqn:Hrecord; try discriminate H
  end.
  simpl in *.
  repeat match goal with
         | H : Ret _ = Ret ?x |- _ => injection H as <-
         end.
  exists kvs, record. repeat split; try done.
  match goal with
  | H : Normalize.validate_str ?j = Some ?s |- ?j = JStr ?s =>
      by destruct j; try discriminate H; injection H as ->
  end.
Qed.

End NormalizeFacts.

Lemma normalize_post_defaults_witness :
  Concrete.normalize_post Concrete.seed_payload = Some Concrete.seed_post
  ∧ ∃ kvs record,
      Concrete.seed_payload = JDict kvs
      ∧ default (JDict []) (Py.assoc "record" kvs) = JDict record
      ∧ default (JStr "") (Py.assoc "text" record)
        = JStr (Post.text Concrete.seed_post)
      ∧ Normalize.validate_opt_str (default JNull (Py.assoc "cid" kvs))
        = Some (Post.cid Concrete.seed_post).
Proof.
  assert (H : Concrete.normalize_post Concrete.seed_payload
              = Some Concrete.seed_post) by (vm_compute; reflexivity).
  split; [exact H|].
  destruct (normalize_post_defaults Concrete.fromisoformat
              Concrete.validate_int Concrete.now _ _ H)
    as (kvs & record & H1 & H2 & H3 & H4 & _).
  exists kvs, record.
  split; [exact H1|]. split; [exact H2|]. split; [exact H3|exact H4].
Defined.

Lemma normalize_post_identity_witness :
  Concrete.normalize_post Concrete.seed_payload = Some Concrete.seed_post
  ∧ Post.uri Concrete.seed_post ≠ ""
  ∧ Post.author_did Concrete.seed_post ≠ ""
  ∧ Post.author_handle Concrete.seed_post ≠ "".
Proof.
  assert (H : Concrete.normalize_post Concrete.seed_payload
              = Some Concrete.seed_post) by (vm_compute; reflexivity).
  split; [exact H|].
  destruct (normalize_post_identity Concrete.fromisoformat
              Concrete.validate_int Concrete.now _ _ H)
    as (kvs & author & _ & _ & _ & _ & _ & H1 & H2 & H3).
  split; [exact H1|]. split; [exact H2|exact H3].
Defined.

(** ** [parse_timestamp]: the designator [Z] *)

Lemma strip_Z_app_Z s : Normalize.strip_Z (s +:+ "Z") = Some s.
Proof.
  induction s as [|c s IH]; [done|].
  change (String c s +:+ "Z") with (String c (s +:+ "Z")).
  simpl. rewrite IH. by destruct s.
Qed.

Lemma strip_Z_app_offset s : Normalize.strip_Z (s +:+ "+00:00") = None.
Proof.
  induction s as [|c s IH]; [done|].
  change (String c s +:+ "+00:00") with (String c (s +:+ "+00:00")).
  simpl. rewrite IH. by destruct s.
Qed.

Lemma truthy_app s (c : ascii) t : Py.truthy (JStr (s +:+ String c t)) = true.
Proof. by destruct s. Qed.

(** X3.  A timestamp that ends in [Z] is parsed as the same text with [+00:00]
    in place of the [Z], and so gives what that text gives; [None] and the
    empty string give [None]; no string makes [parse_timestamp] raise. *)
Theorem parse_timestamp_Z fromisoformat :
  (∀ s, Normalize.parse_timestamp fromisoformat (JStr (s +:+ "Z"))
        = Ret (fromisoformat (s +:+ "+00:00")))
  ∧ (∀ s, Normalize.parse_timestamp fromisoformat (JStr (s +:+ "Z"))
          = Normalize.parse_timestamp fromisoformat (JStr (s +:+ "+00:00")))
  ∧ Normalize.parse_timestamp fromisoformat JNull = Ret None
  ∧ Normalize.parse_timestamp fromisoformat (JStr "") = Ret None
  ∧ (∀ s, ∃ parsed,
       Normalize.parse_timestamp fromisoformat (JStr s) = Ret parsed).
Proof.
  assert (HZ : ∀ s, Normalize.parse_timestamp fromisoformat (JStr (s +:+ "Z"))
                    = Ret (fromisoformat (s +:+ "+00:00"))).
  { intros s. unfold Normalize.parse_timestamp.
    by rewrite truthy_app, strip_Z_app_Z. }
  split; [done|]. split.
  { intros s. rewrite HZ. unfold Normalize.parse_timestamp.
    by rewrite truthy_app, strip_Z_app_offset. }
  split; [done|]. split; [done|].
  intros s. unfold Normalize.parse_timestamp.
  destruct (negb (Py.truthy (JStr s))); by eexists.
Qed.

(** ** [extract_quote_edges] *)

(** X4.  On an iterable, [extract_quote_edges] returns the posts of the items
    that normalize, in their order, and one edge per post: a QUOTE edge from
    the post to the target, with the creation time of the post.  It raises
    only when the value is not iterable. *)
Theorem extract_quote_edges_paired fromisoformat validate_int now raw target_uri :
  match Py.iter raw with
  | Ret items =>
      let quote_posts :=
        omap (Normalize.normalize_post fromisoformat validate_int now) items in
      ∃ quote_edges,
        Normalize.extract_quote_edges fromisoformat validate_int now raw
          target_uri = Ret (quote_posts, quote_edges)
        ∧ (length quote_posts ≤ length items)%nat
        ∧ Forall2 (λ post edge,
                     Edge.src_uri edge = Post.uri post
                     ∧ Edge.dst_uri edge = target_uri
                     ∧ Edge.edge_type edge = QUOTE
                     ∧ Edge.created_at edge = Some (Post.created_at post))
            quote_posts quote_edges
  | Raise e =>
      Normalize.extract_quote_edges fromisoformat validate_int now raw
        target_uri = Raise e
  end.
Proof.
  unfold Normalize.extract_quote_edges.
  destruct (Py.iter raw) as [items|e]; simpl; [|done].
  rewrite quote_edges_loop_spec. simpl.
  eexists. split; [reflexivity|]. split.
  - clear. induction items as [|item items IH]; [done|].
    change (omap ?f (item :: items))
      with (match f item with
            | Some post => post :: omap f items
            | None => omap f items
            end).
    destruct (Normalize.normalize_post _ _ _ item); simpl; lia.
  - change (map ?f ?l) with (f <$> l).
    apply Forall2_fmap_r, Forall_Forall2_diag, Forall_true. done.
Qed.

(** ** Deduplication: distinct keys, idempotence *)

Section DedupMore.
Context {A K : Type} `{Countable K}.
Variable key : A -> K.
Implicit Types (items deduped : list A) (seen : gset K).

Lemma dedup_loop_NoDup items seen deduped :
  NoDup (key <$> deduped) →
  (∀ x, x ∈ deduped → key x ∈ seen) →
  NoDup (key <$> Normalize.dedup_loop key items seen deduped).
Proof.
  revert seen deduped.
  induction items as [|item rest IH]; intros seen deduped Hnodup Hseen; simpl.
  - done.
  - case_decide as Hin; [by apply IH|]. apply IH.
    + rewrite fmap_app. apply NoDup_app. split; [done|]. split.
      * intros k Hk Hk'. apply list_elem_of_fmap in Hk as (x & -> & Hx).
        apply list_elem_of_fmap in Hk' as (y & Heq & Hy).
        apply list_elem_of_singleton in Hy as ->.
        apply Hin. rewrite <- Heq. by apply Hseen.
      * apply NoDup_singleton.
    + intros x Hx. apply elem_of_app in Hx as [Hx|Hx].
      * apply elem_of_union_r. by apply Hseen.
      * apply list_elem_of_singleton in Hx as ->. set_solver.
Qed.

Lemma dedup_loop_distinct items seen deduped :
  NoDup (key <$> items) →
  (∀ x, x ∈ items → key x ∉ seen) →
  Normalize.dedup_loop key items seen deduped = deduped ++ items.
Proof.
  revert seen deduped.
  induction items as [|item rest IH]; intros seen deduped Hnodup Hfresh; simpl.
  - by rewrite app_nil_r.
  - rewrite fmap_cons in Hnodup. apply NoDup_cons in Hnodup as [Hitem Hrest].
    rewrite decide_False by (apply Hfresh; left).
    rewrite IH; [by rewrite <- app_assoc|done|].
    intros x Hx Hin. apply elem_of_union in Hin as [Hin|Hin].
    + apply elem_of_singleton in Hin. apply Hitem. rewrite <- Hin.
      by apply list_elem_of_fmap_2.
    + apply (Hfresh x); [by right|done].
Qed.

(** The loop started on nothing: distinct keys, the keys of the input and
    no others, nothing changed when run again, nothing dropped from an
    input whose keys are distinct. *)
Lemma dedup_loop_properties items :
  let deduped := Normalize.dedup_loop key items ∅ [] in
  NoDup (key <$> deduped)
  ∧ (∀ k, k ∈ key <$> deduped ↔ k ∈ key <$> items)
  ∧ Normalize.dedup_loop key deduped ∅ [] = deduped
  ∧ (length deduped ≤ length items)%nat
  ∧ (deduped = items ↔ NoDup (key <$> items)).
Proof.
  cbv zeta.
  assert (Hnodup : NoDup (key <$> Normalize.dedup_loop key items ∅ [])).
  { apply dedup_loop_NoDup; [constructor|]. intros x Hx. by inversion Hx. }
  assert (Hid : ∀ l, NoDup (key <$> l) → Normalize.dedup_loop key l ∅ [] = l).
  { intros l Hl. rewrite dedup_loop_distinct; [done|done|]. set_solver. }
  split; [done|]. split.
  { intros k.
    assert (Hnonempty : ∀ l : list A,
      k ∈ key <$> l ↔ filter (λ x, key x = k) l ≠ []).
    { intros l. rewrite list_elem_of_fmap. split.
      - intros (x & -> & Hx) Hnil.
        assert (Hin : x ∈ filter (λ y, key y = key x) l)
          by by apply list_elem_of_filter.
        rewrite Hnil in Hin. by inversion Hin.
      - intros Hne. destruct (filter _ l) as [|x l'] eqn:Hf; [done|].
        assert (Hin : x ∈ filter (λ y, key y = k) l) by (rewrite Hf; left).
        apply list_elem_of_filter in Hin as [<- Hin]. by exists x. }
    rewrite !Hnonempty, dedup_loop_filter, filter_nil. simpl.
    rewrite decide_False by set_solver.
    by destruct (filter _ items). }
  split; [by apply Hid|]. split.
  { destruct (dedup_loop_sublist key items ∅ []) as (added & -> & Hsub).
    by apply sublist_length. }
  split; [by intros <-|apply Hid].
Qed.

End DedupMore.

(** X5.  [deduplicate_posts] and [deduplicate_edges] return items of pairwise
    distinct keys (URIs, identity triples) and keep every key of the input;
    they change nothing when applied again, and they return the input as it
    is exactly when its keys are distinct. *)
Theorem deduplicate_idempotent :
  (∀ posts : list Post.t,
     NoDup (Post.uri <$> Normalize.deduplicate_posts posts)
     ∧ (∀ uri, uri ∈ Post.uri <$> Normalize.deduplicate_posts posts
               ↔ uri ∈ Post.uri <$> posts)
     ∧ Normalize.deduplicate_posts (Normalize.deduplicate_posts posts)
       = Normalize.deduplicate_posts posts
     ∧ (length (Normalize.deduplicate_posts posts) ≤ length posts)%nat
     ∧ (Normalize.deduplicate_posts posts = posts
        ↔ NoDup (Post.uri <$> posts)))
  ∧ (∀ edges : list Edge.t,
       NoDup (Edge.key <$> Normalize.deduplicate_edges edges)
       ∧ (∀ triple, triple ∈ Edge.key <$> Normalize.deduplicate_edges edges
                    ↔ triple ∈ Edge.key <$> edges)
       ∧ Normalize.deduplicate_edges (Normalize.deduplicate_edges edges)
         = Normalize.deduplicate_edges edges
       ∧ (length (Normalize.deduplicate_edges edges) ≤ length edges)%nat
       ∧ (Normalize.deduplicate_edges edges = edges
          ↔ NoDup (Edge.key <$> edges))).
Proof.
  split.
  - intros posts. apply (dedup_loop_properties Post.uri posts).
  - intros edges. apply (dedup_loop_properties Edge.key edges).
Qed.

(** ** Thread traversal: an induction principle for invariants

    [extends st st'] relates a state to the states a traversal may leave from
    it, [admits parent st] says that a parent URI may be used in a state, and
    [inv] is the invariant; the hypotheses are what [record_post], the only
    statement that writes, must satisfy. *)

Section TraversalInvariant.
Variable fromisoformat : string -> option datetime.
Variable validate_int : json -> option Z.
Variable now : datetime.

Variable extends : relation Normalize.thread_state.
Variable admits : option string → Normalize.thread_state → Prop.
Variable inv : Normalize.thread_state → Prop.

Hypothesis extends_refl : ∀ st, extends st st.
Hypothesis extends_trans : ∀ st1 st2 st3,
  extends st1 st2 → extends st2 st3 → extends st1 st3.
Hypothesis admits_extends : ∀ parent st st',
  admits parent st → extends st st' → admits parent st'.
Hypothesis record_extends : ∀ post parent st st' r,
  Normalize.record_post post parent st = Some (st', r) → extends st st'.
Hypothesis record_admits : ∀ post parent st st' r,
  Normalize.record_post post parent st = Some (st', r) →
  admits (Some (Post.uri post)) st'.
Hypothesis record_inv : ∀ post parent st st' r,
  inv st → admits parent st →
  Normalize.record_post post parent st = Some (st', r) → inv st'.

Set Warnings "-notation-for-abbreviation".
Local Notation good parent m :=
  (∀ st st' r, m st = Some (st', r) →
     extends st st' ∧ (inv st → admits parent st → inv st')).

Lemma good_tret {A} parent (a : A) : good parent (Normalize.tret a).
Proof. intros st st' r [= <- <-]. auto. Qed.

Lemma good_tlift {A} parent (m : exc A) : good parent (Normalize.tlift m).
Proof. intros st st' r [= <- <-]. auto. Qed.

Lemma good_tbind {A B} parent (m : Normalize.traversal A)
    (k : A → Normalize.traversal B) :
  good parent m → (∀ a, good parent (k a)) → good parent (Normalize.tbind m k).
Proof.
  intros Hm Hk st st' r. unfold Normalize.tbind.
  destruct (m st) as [[st1 [a|e]]|] eqn:Hrun; [| |discriminate].
  - intros Hrest. destruct (Hm _ _ _ Hrun) as [Hext Hinv].
    destruct (Hk a _ _ _ Hrest) as [Hext' Hinv'].
    split; [by eapply extends_trans|]. intros Hi Ha.
    apply Hinv'; [by apply Hinv|by eapply admits_extends].
  - intros [= <- <-]. by apply (Hm _ _ _ Hrun).
Qed.

Lemma good_tfor {A} parent (body : json → Normalize.traversal A) items :
  (∀ item, good parent (body item)) → good parent (Normalize.tfor body items).
Proof.
  intros Hbody. induction items as [|item rest IH]; simpl.
  - apply good_tret.
  - apply good_tbind; [apply Hbody|intros _; apply IH].
Qed.

Lemma thread_node_good fuel node parent_uri max_depth current_depth :
  good parent_uri
    (Normalize.thread_node fromisoformat validate_int now fuel node parent_uri
       max_depth current_depth).
Proof.
  revert node parent_uri current_depth.
  induction fuel as [|fuel IH]; intros node parent_uri current_depth; simpl;
    destruct (current_depth >=? max_depth); try apply good_tret.
  { intros st st' r. discriminate. }
  apply good_tbind; [apply good_tlift|]. intros node_type.
  destruct (Normalize.is_type node_type Normalize.threadViewPost).
  2:{ repeat case_match; apply good_tret. }
  apply good_tbind; [apply good_tlift|]. intros post_data.
  destruct (negb (Py.truthy post_data)); [apply good_tret|].
  destruct (Normalize.normalize_post _ _ _ post_data) as [post|];
    [|apply good_tret].
  assert (Hrest : ∀ (rest : Normalize.traversal (option string)),
    good (Some (Post.uri post)) rest →
    good parent_uri
      (Normalize.tbind (Normalize.record_post post parent_uri) (λ _, rest))).
  { intros rest Hgood st st' r. unfold Normalize.tbind.
    destruct (Normalize.record_post post parent_uri st)
      as [[st1 [[]|e]]|] eqn:Hrec; [| |discriminate].
    - intros Hrun. destruct (Hgood _ _ _ Hrun) as [Hext Hinv].
      split; [eapply extends_trans; [by eapply record_extends|done]|].
      intros Hi Ha.
      apply Hinv; [eapply record_inv; eauto|eapply record_admits; eauto].
    - intros [= <- <-]. split; [by eapply record_extends|].
      intros Hi Ha. eapply record_inv; eauto. }
  apply Hrest.
  apply good_tbind; [apply good_tlift|]. intros parent_node.
  apply good_tbind.
  { destruct (Py.truthy parent_node); [apply IH|apply good_tret]. }
  intros _.
  apply good_tbind; [apply good_tlift|]. intros replies.
  apply good_tbind; [apply good_tlift|]. intros reply_nodes.
  apply good_tbind; [|intros ?; apply good_tret].
  apply good_tfor. intros item. apply IH.
Qed.

(** What holds of a state that [inv] holds of, and that admits the parent
    URI, holds of the state [normalize_thread_node] leaves, whether it
    returns or raises. *)
Lemma normalize_thread_node_inv node posts edges parent_uri max_depth
    current_depth :
  let run := Normalize.normalize_thread_node fromisoformat validate_int now
               node posts edges parent_uri max_depth current_depth in
  extends (posts, edges) run.1
  ∧ (inv (posts, edges) → admits parent_uri (posts, edges) → inv run.1).
Proof.
  cbv zeta.
  pose proof (normalize_thread_node_run fromisoformat validate_int now node
                posts edges parent_uri max_depth current_depth) as Hrun.
  destruct (Normalize.normalize_thread_node _ _ _ _ _ _ _ _ _) as [st' r].
  by apply (thread_node_good _ _ _ _ _ _ _ _ Hrun).
Qed.

End TraversalInvariant.

(** ** Thread traversal: what the result looks like *)

Lemma record_post_Some post parent st st' r :
  Normalize.record_post post parent st = Some (st', r) →
  r = Ret tt
  ∧ st'.1 = Py.setitem (Post.uri post) post st.1
  ∧ (st'.2 = st.2
     ∨ ∃ uri, parent = Some uri ∧ uri ≠ ""
               ∧ st'.2 = st.2 ++ [{| Edge.src_uri := Post.uri post;
                                     Edge.dst_uri := uri;
                                     Edge.edge_type := REPLY;
                                     Edge.created_at :=
                                       Some (Post.created_at post) |}]
               ∧ (Post.uri post, uri, REPLY) ∉ Edge.key <$> st.2).
Proof.
  destruct st as [posts edges]. unfold Normalize.record_post.
  intros [= <- <-]. split; [done|]. split; [done|]. simpl.
  destruct parent as [uri|]; [|by left].
  unfold Normalize.uri_truthy.
  destruct (String.eqb_spec uri "") as [->|Hne]; [by left|]. simpl.
  destruct (existsb _ edges) eqn:Hex; [by left|]. right.
  exists uri. split; [done|]. split; [done|]. split; [done|].
  intros Hin. apply list_elem_of_fmap in Hin as (e & Heq & He).
  apply not_true_iff_false in Hex. apply Hex, existsb_exists.
  exists e. split; [by apply list_elem_of_In|].
  unfold Edge.eqb. apply bool_decide_eq_true. by rewrite <- Heq.
Qed.

Lemma setitem_keyed (post : Post.t) (d : list (string * Post.t)) :
  Forall (λ kv, kv.1 = Post.uri kv.2) d →
  Forall (λ kv, kv.1 = Post.uri kv.2) (Py.setitem (Post.uri post) post d).
Proof.
  induction 1 as [|[k v] d Hkv Hd IH]; simpl.
  - by repeat constructor.
  - destruct (String.eqb_spec (Post.uri post) k) as [<-|Hne];
      by constructor.
Qed.

Lemma setitem_NoDup {V} k (v : V) d :
  NoDup (Py.keys d) → NoDup (Py.keys (Py.setitem k v d)).
Proof.
  intros Hd. rewrite keys_setitem. case_decide as Hin; [done|].
  apply NoDup_app. split; [done|]. split; [|apply NoDup_singleton].
  intros x Hx Hx'. apply list_elem_of_singleton in Hx' as ->. done.
Qed.

Section TraversalResult.
Variable fromisoformat : string -> option datetime.
Variable validate_int : json -> option Z.
Variable now : datetime.

(** X6.  [normalize_thread_node] only adds: the keys of the dict it was given
    stay where they were, and so do the edges of the list, whether it
    returns or raises. *)
Theorem normalize_thread_node_appends node posts edges parent_uri max_depth
    current_depth :
  let run := Normalize.normalize_thread_node fromisoformat validate_int now
               node posts edges parent_uri max_depth current_depth in
  Py.keys posts `prefix_of` Py.keys run.1.1 ∧ edges `prefix_of` run.1.2.
Proof.
  apply (normalize_thread_node_inv fromisoformat validate_int now
           (λ st st', Py.keys st.1 `prefix_of` Py.keys st'.1
                      ∧ st.2 `prefix_of` st'.2)
           (λ _ _, True) (λ _, True)).
  - done.
  - intros st1 st2 st3 [? ?] [? ?]. split; by etrans.
  - done.
  - intros post parent st st' r Hrec.
    apply record_post_Some in Hrec as (_ & -> & Hedges). split.
    + apply keys_setitem_prefix.
    + destruct Hedges as [->|(uri & _ & _ & -> & _)];
        [done|by apply prefix_app_r].
  - done.
  - done.
Qed.

(** The state a traversal leaves from a well-formed state is well formed:
    the keys of the dict are distinct and each is the URI of its post; the
    edges have distinct identities, all are REPLY edges, and both ends of
    every edge are keys of the dict. *)
Lemma normalize_thread_node_well_formed node posts edges parent_uri max_depth
    current_depth :
  let well_formed := λ st : Normalize.thread_state,
    NoDup (Py.keys st.1)
    ∧ Forall (λ kv, kv.1 = Post.uri kv.2) st.1
    ∧ NoDup (Edge.key <$> st.2)
    ∧ Forall (λ e, Edge.edge_type e = REPLY
                   ∧ Edge.src_uri e ∈ Py.keys st.1
                   ∧ Edge.dst_uri e ∈ Py.keys st.1) st.2 in
  well_formed (posts, edges) →
  (∀ uri, parent_uri = Some uri → uri ≠ "" → uri ∈ Py.keys posts) →
  well_formed
    (Normalize.normalize_thread_node fromisoformat validate_int now node posts
       edges parent_uri max_depth current_depth).1.
Proof.
  intros well_formed.
  apply (normalize_thread_node_inv fromisoformat validate_int now
           (λ st st', Py.keys st.1 `prefix_of` Py.keys st'.1)
           (λ parent st, ∀ uri, parent = Some uri → uri ≠ "" →
                                uri ∈ Py.keys st.1)
           well_formed).
  - done.
  - intros st1 st2 st3 ? ?. by etrans.
  - intros parent st st' Hadm Hext uri Hp Hne.
    eapply elem_of_prefix; [by eapply Hadm|done].
  - intros post parent st st' r Hrec.
    apply record_post_Some in Hrec as (_ & -> & _). apply keys_setitem_prefix.
  - intros post parent st st' r Hrec uri [= <-] _.
    apply record_post_Some in Hrec as (_ & -> & _).
    rewrite keys_setitem. case_decide; [done|].
    apply elem_of_app. right. left.
  - intros post parent st st' r (Hkeys & Hkeyed & Hids & Hedges) Hadm Hrec.
    apply record_post_Some in Hrec as (_ & Hposts & Hnew).
    assert (Hgrow : ∀ k, k ∈ Py.keys st.1 → k ∈ Py.keys st'.1).
    { intros k Hk. rewrite Hposts.
      eapply elem_of_prefix; [done|apply keys_setitem_prefix]. }
    assert (Hself : Post.uri post ∈ Py.keys st'.1).
    { rewrite Hposts, keys_setitem. case_decide; [done|].
      apply elem_of_app. right. left. }
    assert (Hold : Forall (λ e, Edge.edge_type e = REPLY
                                ∧ Edge.src_uri e ∈ Py.keys st'.1
                                ∧ Edge.dst_uri e ∈ Py.keys st'.1) st.2).
    { eapply Forall_impl; [exact Hedges|]. intros e (? & ? & ?). auto. }
    unfold well_formed. rewrite Hposts at 1 2.
    split; [by apply setitem_NoDup|]. split; [by apply setitem_keyed|].
    destruct Hnew as [->|(uri & -> & Hne & -> & Hfresh)]; [done|].
    split.
    + rewrite fmap_app. apply NoDup_app. split; [done|].
      split; [|apply NoDup_singleton].
      intros k Hk Hk'. apply list_elem_of_singleton in Hk' as ->. done.
    + apply Forall_app. split; [done|]. constructor; [|constructor].
      simpl. split; [done|]. split; [done|]. apply Hgrow. by apply Hadm.
Qed.

(** What [extract_thread_posts_and_edges] returns is well formed. *)
Lemma extract_thread_spec thread_response max_depth posts edges :
  Normalize.extract_thread_posts_and_edges fromisoformat validate_int now
    thread_response max_depth = Ret (posts, edges) →
  NoDup (Py.keys posts)
  ∧ Forall (λ kv, kv.1 = Post.uri kv.2) posts
  ∧ NoDup (Edge.key <$> edges)
  ∧ Normalize.deduplicate_edges edges = edges
  ∧ Forall (λ e, Edge.edge_type e = REPLY
                 ∧ Edge.src_uri e ∈ Py.keys posts
                 ∧ Edge.dst_uri e ∈ Py.keys posts) edges.
Proof.
  unfold Normalize.extract_thread_posts_and_edges.
  destruct (Py.get thread_response "thread") as [thread|]; [|discriminate].
  simpl.
  assert (Hempty : NoDup (Py.keys (@nil (string * Post.t)))
                   ∧ Forall (λ kv, kv.1 = Post.uri kv.2) []
                   ∧ NoDup (Edge.key <$> [])
                   ∧ Forall (λ e, Edge.edge_type e = REPLY
                                  ∧ Edge.src_uri e ∈ Py.keys (@nil (string * Post.t))
                                  ∧ Edge.dst_uri e ∈ Py.keys (@nil (string * Post.t)))
                       []).
  { repeat split; constructor. }
  assert (Hfinish : ∀ posts edges,
    NoDup (Py.keys posts)
    ∧ Forall (λ kv, kv.1 = Post.uri kv.2) posts
    ∧ NoDup (Edge.key <$> edges)
    ∧ Forall (λ e, Edge.edge_type e = REPLY
                   ∧ Edge.src_uri e ∈ Py.keys posts
                   ∧ Edge.dst_uri e ∈ Py.keys posts) edges →
    NoDup (Py.keys posts)
    ∧ Forall (λ kv, kv.1 = Post.uri kv.2) posts
    ∧ NoDup (Edge.key <$> edges)
    ∧ Normalize.deduplicate_edges edges = edges
    ∧ Forall (λ e, Edge.edge_type e = REPLY
                   ∧ Edge.src_uri e ∈ Py.keys posts
                   ∧ Edge.dst_uri e ∈ Py.keys posts) edges).
  { intros ps es (H1 & H2 & H3 & H4). repeat split; try done.
    by apply (dedup_loop_properties Edge.key es). }
  destruct (negb (Py.truthy thread)).
  { intros [= <- <-]. by apply Hfinish. }
  pose proof (normalize_thread_node_well_formed thread [] [] None max_depth 0
                Hempty) as Hwf.
  destruct (Normalize.normalize_thread_node _ _ _ _ _ _ _ _ _) as [st [ret|e]];
    [|discriminate].
  intros [= ->]. apply Hfinish. apply Hwf. discriminate.
Qed.

(** X7.  The posts and the edges [extract_thread_posts_and_edges] returns: the
    keys of the dict are distinct and each is the URI of its post; the edges
    have distinct identities, so [deduplicate_edges] leaves them as they
    are; every edge is a REPLY edge between two posts of the dict. *)
Theorem extract_thread_well_formed thread_response max_depth posts edges :
  Normalize.extract_thread_posts_and_edges fromisoformat validate_int now
    thread_response max_depth = Ret (posts, edges) →
  NoDup (Py.keys posts)
  ∧ Forall (λ kv, kv.1 = Post.uri kv.2) posts
  ∧ NoDup (Edge.key <$> edges)
  ∧ Normalize.deduplicate_edges edges = edges
  ∧ Forall (λ e, Edge.edge_type e = REPLY
                 ∧ Edge.src_uri e ∈ Py.keys posts
                 ∧ Edge.dst_uri e ∈ Py.keys posts) edges.
Proof. exact (extract_thread_spec thread_response max_depth posts edges). Qed.

End TraversalResult.

Lemma extract_thread_well_formed_witness :
  ∃ posts edges,
    Concrete.extract_thread_posts_and_edges
      (JDict [("thread", Concrete.thread_from_seed)]) 10 = Ret (posts, edges)
    ∧ NoDup (Py.keys posts)
    ∧ Normalize.deduplicate_edges edges = edges.
Proof.
  assert (H : ∃ result,
    Concrete.extract_thread_posts_and_edges
      (JDict [("thread", Concrete.thread_from_seed)]) 10 = Ret result)
    by (eexists; vm_compute; reflexivity).
  destruct H as [[posts edges] H]. exists posts, edges.
  split; [exact H|].
  destruct (extract_thread_well_formed Concrete.fromisoformat
              Concrete.validate_int Concrete.now _ _ _ _ H)
    as (H1 & _ & _ & H2 & _).
  split; [exact H1|exact H2].
Defined.

(** ** Thread traversal: the depth bound *)

Section TraversalDepth.
Variable fromisoformat : string -> option datetime.
Variable validate_int : json -> option Z.
Variable now : datetime.

Lemma tfor_skip {A} (body : json → Normalize.traversal (option A)) items st :
  (∀ item st, body item st = Some (st, Ret None)) →
  Normalize.tfor body items st = Some (st, Ret tt).
Proof.
  intros Hbody. induction items as [|item rest IH]; simpl; [done|].
  unfold Normalize.tbind. by rewrite Hbody.
Qed.

Lemma tbind_inv {A B} (m : Normalize.traversal A)
    (k : A → Normalize.traversal B) st st' r :
  Normalize.tbind m k st = Some (st', r) →
  (∃ e, m st = Some (st', Raise e) ∧ r = Raise e)
  ∨ (∃ a st1, m st = Some (st1, Ret a) ∧ k a st1 = Some (st', r)).
Proof.
  unfold Normalize.tbind.
  destruct (m st) as [[st1 [a|e]]|]; [| |discriminate].
  - intros Hk. right. by exists a, st1.
  - intros [= <- <-]. left. by exists e.
Qed.

(** One level of the traversal: the root is recorded, or nothing is. *)
Lemma thread_node_root_only node parent_uri st st' r :
  Normalize.thread_node fromisoformat validate_int now 1 node parent_uri 1 0 st
  = Some (st', r) →
  st' = st
  ∨ ∃ post, Normalize.record_post post parent_uri st = Some (st', Ret tt).
Proof.
  simpl. intros Hrun.
  apply tbind_inv in Hrun as [(e & [= <- _] & _)|(node_type & st1 & [= <- _] & Hrun)];
    [by left|].
  destruct (Normalize.is_type node_type Normalize.threadViewPost).
  2:{ left. repeat case_match; by injection Hrun as <- _. }
  apply tbind_inv in Hrun as [(e & [= <- _] & _)|(post_data & st1 & [= <- _] & Hrun)];
    [by left|].
  destruct (negb (Py.truthy post_data)); [left; by injection Hrun as <- _|].
  destruct (Normalize.normalize_post _ _ _ post_data) as [post|];
    [|left; by injection Hrun as <- _].
  right. exists post.
  apply tbind_inv in Hrun as [(e & Hrec & _)|([] & st1 & Hrec & Hrun)].
  { by apply record_post_Some in Hrec as ([=] & _). }
  rewrite Hrec. do 2 f_equal.
  apply tbind_inv in Hrun as [(e & [= <- _] & _)|(parent_node & st2 & [= <- _] & Hrun)];
    [done|].
  apply tbind_inv in Hrun as [(e & Hup & _)|(up & st2 & Hup & Hrun)].
  { destruct (Py.truthy parent_node); by injection Hup as <- _. }
  assert (st2 = st1) as ->
    by (destruct (Py.truthy parent_node); by injection Hup as <- _).
  apply tbind_inv in Hrun as [(e & [= <- _] & _)|(replies & st2 & [= <- _] & Hrun)];
    [done|].
  apply tbind_inv in Hrun as [(e & [= <- _] & _)|(reply_nodes & st2 & [= <- _] & Hrun)];
    [done|].
  apply tbind_inv in Hrun as [(e & Hfor & _)|(u & st2 & Hfor & Hrun)].
  - rewrite (tfor_skip (λ _, Normalize.tret None)) in Hfor by done.
    by injection Hfor as <- _.
  - rewrite (tfor_skip (λ _, Normalize.tret None)) in Hfor by done.
    injection Hfor as <- _. by injection Hrun as <- _.
Qed.

(** X8.  At the depth bound a node is not looked at: the call returns [None] and
    writes nothing.  With [max_depth = 1] only the root is looked at: the
    extraction gives at most one post and no edge. *)
Theorem thread_depth_bound :
  (∀ node posts edges parent_uri max_depth current_depth,
     max_depth ≤ current_depth →
     Normalize.normalize_thread_node fromisoformat validate_int now node posts
       edges parent_uri max_depth current_depth
     = ((posts, edges), Ret None))
  ∧ (∀ thread_response posts edges,
       Normalize.extract_thread_posts_and_edges fromisoformat validate_int now
         thread_response 1 = Ret (posts, edges) →
       (length posts ≤ 1)%nat ∧ edges = []).
Proof.
  split.
  - intros node posts edges parent_uri max_depth current_depth Hdepth.
    unfold Normalize.normalize_thread_node.
    destruct (Normalize.depth_fuel max_depth current_depth); simpl;
      destruct (Z.geb_spec current_depth max_depth); try lia; done.
  - intros thread_response posts edges.
    unfold Normalize.extract_thread_posts_and_edges.
    destruct (Py.get thread_response "thread") as [thread|]; [|discriminate].
    simpl. destruct (negb (Py.truthy thread)).
    { intros [= <- <-]. simpl. split; [lia|done]. }
    pose proof (normalize_thread_node_run fromisoformat validate_int now
                  thread [] [] None 1 0) as Hrun.
    destruct (Normalize.normalize_thread_node _ _ _ _ _ _ _ _ _)
      as [st [ret|e]]; [|discriminate].
    intros [= ->].
    change (Normalize.depth_fuel 1 0) with 1%nat in Hrun.
    apply thread_node_root_only in Hrun as [[= -> ->]|(post & [= <- <-])];
      simpl; (split; [lia|done]).
Qed.

End TraversalDepth.

Lemma thread_depth_bound_witness :
  (0 ≤ 0
   ∧ Concrete.normalize_thread_node Concrete.thread_from_seed [] [] None 0 0
     = (([], []), Ret None))
  ∧ ∃ posts edges,
      Concrete.extract_thread_posts_and_edges
        (JDict [("thread", Concrete.thread_from_seed)]) 1 = Ret (posts, edges)
      ∧ (length posts ≤ 1)%nat ∧ edges = [].
Proof.
  pose proof (thread_depth_bound Concrete.fromisoformat Concrete.validate_int
                Concrete.now) as [Hstop Hone].
  split.
  - assert (H : 0 ≤ 0) by lia. split; [exact H|].
    exact (Hstop Concrete.thread_from_seed [] [] None 0 0 H).
  - assert (H : ∃ result,
      Concrete.extract_thread_posts_and_edges
        (JDict [("thread", Concrete.thread_from_seed)]) 1 = Ret result)
      by (eexists; vm_compute; reflexivity).
    destruct H as [[posts edges] H]. exists posts, edges.
    split; [exact H|]. exact (Hone _ _ _ H).
Defined.

(** ** The retry loop, one iteration at a time *)

Section RetryFacts.
Variables (endpoint : string) (params : json) (cache_key : string) (ttl : Z).
Variable net : nat → Client.http_reply.
Variable jit : nat → Q.

(** The loop is its guard, one iteration, and the loop again. *)
Lemma retry_loop_unfold fuel c attempt backoff :
  Client.retry_loop (S fuel) c endpoint params cache_key ttl net jit attempt backoff
  = if negb (attempt <? max_retries (Client.config c)) then
      Some (c, Raise (RuntimeError "Failed to fetch after all attempts"), [])
    else
      match Client.attempt_once c endpoint params cache_key ttl
              (net (Z.to_nat attempt)) (jit (Z.to_nat attempt)) attempt
              backoff with
      | Client.Finished c' r evs => Some (c', r, evs)
      | Client.Retry c' backoff' pre =>
          match Client.retry_loop fuel c' endpoint params cache_key ttl net jit
                  (attempt + 1) backoff' with
          | Some (c'', r, evs) => Some (c'', r, pre ++ evs)
          | None => None
          end
      end.
Proof.
  simpl. unfold Client.attempt_once.
  destruct (negb _); [done|].
  destruct (net (Z.to_nat attempt)) as [|status_code header body].
  - destruct (attempt >=? _); [done|]. by destruct (Client.sleep_raises _).
  - destruct (status_code =? 429).
    { destruct header as [|secs|]; [|by destruct (Client.sleep_raises secs)|done].
      by destruct (Client.sleep_raises _). }
    destruct (status_code >=? 500); [by destruct (Client.sleep_raises _)|].
    destruct ((200 <=? status_code) && (status_code <=? 299)).
    { by destruct body. }
    destruct (attempt >=? _); [done|]. by destruct (Client.sleep_raises _).
Qed.

Lemma attempt_once_config c reply draw attempt backoff :
  match Client.attempt_once c endpoint params cache_key ttl reply draw attempt
          backoff with
  | Client.Finished c' _ _ | Client.Retry c' _ _ =>
      Client.config c' = Client.config c
  end.
Proof.
  unfold Client.attempt_once.
  destruct reply as [|status_code header body]; simpl.
  - destruct (attempt >=? _); [done|]. by destruct (Client.sleep_raises _).
  - destruct (status_code =? 429).
    { destruct header as [|secs|]; [|by destruct (Client.sleep_raises secs)|done].
      by destruct (Client.sleep_raises _). }
    destruct (status_code >=? 500); [by destruct (Client.sleep_raises _)|].
    destruct ((200 <=? status_code) && (status_code <=? 299)).
    { by destruct body. }
    destruct (attempt >=? _); [done|]. by destruct (Client.sleep_raises _).
Qed.

(** Induction on the runs of the loop. *)
Lemma retry_loop_induct
    (P : Client.BlueskyClient → Z → Client.BlueskyClient → exc json →
         list Client.io_event → Prop) :
  (∀ c attempt,
     max_retries (Client.config c) ≤ attempt →
     P c attempt c
       (Raise (RuntimeError "Failed to fetch after all attempts")) []) →
  (∀ c attempt backoff c' r evs,
     attempt < max_retries (Client.config c) →
     Client.attempt_once c endpoint params cache_key ttl
       (net (Z.to_nat attempt)) (jit (Z.to_nat attempt)) attempt
       backoff = Client.Finished c' r evs →
     P c attempt c' r evs) →
  (∀ c attempt backoff c1 backoff' pre c' r evs,
     attempt < max_retries (Client.config c) →
     Client.attempt_once c endpoint params cache_key ttl
       (net (Z.to_nat attempt)) (jit (Z.to_nat attempt)) attempt
       backoff = Client.Retry c1 backoff' pre →
     P c1 (attempt + 1) c' r evs →
     P c attempt c' r (pre ++ evs)) →
  ∀ fuel c attempt backoff c' r evs,
    Client.retry_loop fuel c endpoint params cache_key ttl net jit attempt backoff
    = Some (c', r, evs) →
    P c attempt c' r evs.
Proof.
  intros Hguard Hdone Hagain.
  induction fuel as [|fuel IH]; intros c attempt backoff c' r evs.
  - simpl. destruct (Z.ltb_spec attempt (max_retries (Client.config c)));
      simpl; [discriminate|]. intros [= <- <- <-]. by apply Hguard.
  - rewrite retry_loop_unfold.
    destruct (Z.ltb_spec attempt (max_retries (Client.config c))); simpl.
    2:{ intros [= <- <- <-]. by apply Hguard. }
    destruct (Client.attempt_once _ _ _ _ _ _ _ _ _) as [c1 r1 evs1|c1 b1 pre]
      eqn:Honce.
    + intros [= <- <- <-]. by eapply Hdone.
    + destruct (Client.retry_loop fuel c1 _ _ _ _ _ _ _ _)
        as [[[c2 r2] evs2]|] eqn:Hrest; [|discriminate].
      intros [= <- <- <-]. eapply Hagain; [done|done|]. by eapply IH.
Qed.

End RetryFacts.

Lemma requests_made_request endpoint params evs :
  Client.requests_made (Client.HttpRequest endpoint params :: evs)
  = 1 + Client.requests_made evs.
Proof. unfold Client.requests_made. rewrite filter_cons. simpl. lia. Qed.

Lemma requests_made_sleep secs evs :
  Client.requests_made (Client.Sleep secs :: evs) = Client.requests_made evs.
Proof. unfold Client.requests_made. by rewrite filter_cons. Qed.

Lemma requests_made_lookup cache_key evs :
  Client.requests_made (Client.CacheLookup cache_key :: evs)
  = Client.requests_made evs.
Proof. unfold Client.requests_made. by rewrite filter_cons. Qed.

(** Case analysis of one iteration that ended as [H] says. *)
Ltac attempt_inv H :=
  unfold Client.attempt_once in H;
  repeat match type of H with
         | context [match ?x with
                    | Client.TransportError => _
                    | Client.Response _ _ _ => _
                    end] =>
             destruct x as [|? ? ?] eqn:?
         | context [if ?b then _ else _] => destruct b eqn:?
         | context [match ?h with
                    | Client.NoRetryAfter => _
                    | Client.RetryAfterSeconds _ => _
                    | Client.RetryAfterMalformed => _
                    end] =>
             destruct h as [|?|] eqn:?
         | context [match ?b with Some _ => _ | None => _ end] =>
             destruct b eqn:?
         end;
  try discriminate H; injection H as <- <- <-.

Section RetryResults.
Variables (endpoint : string) (params : json) (cache_key : string) (ttl : Z).
Variable net : nat → Client.http_reply.
Variable jit : nat → Q.

(** A payload the loop returns is the body of a 2xx answer to its last
    attempt. *)
Lemma retry_loop_data fuel c attempt backoff c' data evs :
  0 ≤ attempt →
  Client.retry_loop fuel c endpoint params cache_key ttl net jit attempt backoff
  = Some (c', Ret data, evs) →
  ∃ (k : nat) status_code header,
    Z.of_nat k = attempt + Client.requests_made evs - 1
    ∧ attempt ≤ Z.of_nat k < max_retries (Client.config c)
    ∧ net k = Client.Response status_code header (Some data)
    ∧ 200 ≤ status_code ≤ 299.
Proof.
  intros Hpos Hrun. revert Hpos.
  pose (P := λ (c : Client.BlueskyClient) (attempt : Z)
               (c' : Client.BlueskyClient) (r : exc json)
               (evs : list Client.io_event),
          0 ≤ attempt → ∀ data, r = Ret data →
          ∃ (k : nat) status_code header,
            Z.of_nat k = attempt + Client.requests_made evs - 1
            ∧ attempt ≤ Z.of_nat k < max_retries (Client.config c)
            ∧ net k = Client.Response status_code header (Some data)
            ∧ 200 ≤ status_code ≤ 299).
  intros Hpos.
  refine (retry_loop_induct endpoint params cache_key ttl net jit P _ _ _
            fuel c attempt backoff c' (Ret data) evs Hrun Hpos data eq_refl);
    unfold P; clear.
  - intros c attempt _ _ data [=].
  - intros c attempt backoff c' r evs Hlt Honce Hpos data ->.
    attempt_inv Honce;
      exists (Z.to_nat attempt); eexists _, _;
      rewrite requests_made_request, requests_made_set_cache;
      (split; [lia|]); (split; [lia|]); (split; [eassumption|]);
      match goal with
      | H : (200 <=? ?s) && (?s <=? 299) = true |- _ =>
          apply andb_true_iff in H as [?%Z.leb_le ?%Z.leb_le]
      end; lia.
  - intros c attempt backoff c1 backoff' pre c' r evs Hlt Honce IH Hpos data ->.
    pose proof (attempt_once_config endpoint params cache_key ttl c
                  (net (Z.to_nat attempt)) (jit (Z.to_nat attempt)) attempt
       backoff) as Hcfg.
    rewrite Honce in Hcfg.
    destruct (IH ltac:(lia) data eq_refl) as (k & s & h & Hlast & Hk & Hnet & Hs).
    exists k, s, h. rewrite Hcfg in Hk.
    assert (Client.requests_made pre = 1) as Hpre.
    { attempt_inv Honce;
        by rewrite requests_made_request, requests_made_sleep,
             requests_made_nil. }
    rewrite requests_made_app, Hpre. split; [lia|]. split; [lia|done].
Qed.

(** An iteration that runs makes a request. *)
Lemma retry_loop_requests fuel c attempt backoff c' r evs :
  Client.retry_loop fuel c endpoint params cache_key ttl net jit attempt backoff
  = Some (c', r, evs) →
  attempt < max_retries (Client.config c) → 1 ≤ Client.requests_made evs.
Proof.
  apply (retry_loop_induct endpoint params cache_key ttl net jit
           (λ c attempt _ _ evs,
              attempt < max_retries (Client.config c) →
              1 ≤ Client.requests_made evs)).
  - intros; lia.
  - intros c0 a b c1 r1 evs1 _ Honce _.
    attempt_inv Honce;
      rewrite requests_made_request;
      pose proof (requests_made_nonneg (Client._set_cache
        (Client.count_request c0) cache_key ttl));
      rewrite ?requests_made_nil; lia.
  - intros c0 a b c1 b1 pre c2 r2 evs2 _ Honce _ _.
    rewrite requests_made_app. pose proof (requests_made_nonneg evs2).
    attempt_inv Honce;
      rewrite requests_made_request, requests_made_sleep, requests_made_nil;
      lia.
Qed.

(** What the loop does to the outside world: requests for the endpoint and
    the parameters of the call, sleeps, and a store under the key of the
    call when Redis is connected. *)
Lemma retry_loop_trace fuel c attempt backoff c' r evs :
  Client.retry_loop fuel c endpoint params cache_key ttl net jit attempt backoff
  = Some (c', r, evs) →
  Forall (λ ev, ev = Client.HttpRequest endpoint params
                ∨ (∃ secs, ev = Client.Sleep secs)
                ∨ (ev = Client.CacheStore cache_key ttl
                   ∧ Client._redis c = true)) evs.
Proof.
  apply (retry_loop_induct endpoint params cache_key ttl net jit
           (λ c _ _ _ evs,
              Forall (λ ev, ev = Client.HttpRequest endpoint params
                            ∨ (∃ secs, ev = Client.Sleep secs)
                            ∨ (ev = Client.CacheStore cache_key ttl
                               ∧ Client._redis c = true)) evs)).
  - constructor.
  - intros c0 a b c1 r1 evs1 _ Honce.
    attempt_inv Honce; unfold Client._set_cache; simpl;
      try destruct (Client._redis c0) eqn:Hredis; simpl;
      repeat (apply Forall_cons_2 || apply Forall_nil_2); eauto 6.
  - intros c0 a b c1 b1 pre c2 r2 evs2 _ Honce IH.
    apply Forall_app. split.
    + attempt_inv Honce;
        repeat (apply Forall_cons_2 || apply Forall_nil_2); eauto 6.
    + eapply Forall_impl; [exact IH|]. intros ev [?|[?|[? Hredis]]]; auto.
      right. right. split; [done|]. rewrite <- Hredis.
      attempt_inv Honce; done.
Qed.

(** The failed-request counter grows by at most the number of requests; no
    run of the loop raises the budget error. *)
Lemma retry_loop_failed fuel c attempt backoff c' r evs :
  Client.retry_loop fuel c endpoint params cache_key ttl net jit attempt backoff
  = Some (c', r, evs) →
  Client.failed_requests (Client.stats c)
  ≤ Client.failed_requests (Client.stats c')
  ≤ Client.failed_requests (Client.stats c) + Client.requests_made evs
  ∧ r ≠ Raise (RuntimeError "Request budget exhausted").
Proof.
  apply (retry_loop_induct endpoint params cache_key ttl net jit
           (λ c _ c' r evs,
              Client.failed_requests (Client.stats c)
              ≤ Client.failed_requests (Client.stats c')
              ≤ Client.failed_requests (Client.stats c)
                + Client.requests_made evs
              ∧ r ≠ Raise (RuntimeError "Request budget exhausted"))).
  - intros c0 a _. rewrite requests_made_nil. split; [lia|discriminate].
  - intros c0 a b c1 r1 evs1 _ Honce.
    attempt_inv Honce;
      rewrite ?requests_made_request, ?requests_made_set_cache,
        ?requests_made_nil;
      simpl; (split; [lia|discriminate]).
  - intros c0 a b c1 b1 pre c2 r2 evs2 _ Honce [IH Hne].
    split; [|done]. rewrite requests_made_app.
    attempt_inv Honce;
      rewrite ?requests_made_request, ?requests_made_sleep,
        ?requests_made_nil;
      simpl in *; lia.
Qed.

End RetryResults.

(** ** A call of [get], by cases *)

Lemma get_from_cache_facts c cache_key answer :
  let looked := Client._get_from_cache c cache_key answer in
  Client.config looked.1.1 = Client.config c
  ∧ Client._redis looked.1.1 = Client._redis c
  ∧ Client._request_count looked.1.1 = Client._request_count c
  ∧ Client.total_requests (Client.stats looked.1.1)
    = Client.total_requests (Client.stats c)
  ∧ Client.cache_misses (Client.stats looked.1.1)
    = Client.cache_misses (Client.stats c)
  ∧ Client.failed_requests (Client.stats looked.1.1)
    = Client.failed_requests (Client.stats c)
  ∧ Client.cache_hits (Client.stats c)
    ≤ Client.cache_hits (Client.stats looked.1.1)
    ≤ Client.cache_hits (Client.stats c) + 1
  ∧ (Client._redis c = false → looked = (c, JNull, []))
  ∧ Client.requests_made looked.2 = 0
  ∧ Forall (λ ev, ev = Client.CacheLookup cache_key) looked.2
  ∧ (looked.1.2 ≠ JNull →
     Client._redis c = true ∧ answer = Client.RedisJson looked.1.2).
Proof.
  unfold Client._get_from_cache.
  destruct (Client._redis c) eqn:Hredis; simpl.
  - destruct answer; simpl; split_and!;
      first [done|lia|by repeat constructor|by intros []].
  - split_and!; first [done|lia|by repeat constructor].
Qed.

Section GetFacts.
Variable param_hash : json → string.

(** The three ways a call of [get] goes: refused by the budget check,
    answered by the cache, or left to the retry loop, which ends within the
    fuel it is given. *)
Lemma get_cases c endpoint params env :
  let params' := Py.or_ params (JDict []) in
  let key := Client._make_cache_key param_hash endpoint params' in
  let ttl := Client._get_ttl_for_endpoint c endpoint in
  let looked := Client._get_from_cache c key (Client.cache_answer env) in
  let missed :=
    Client.with_stats looked.1.1 (Client.miss (Client.stats looked.1.1)) in
  (max_requests_per_run (Client.config c) ≤ Client._request_count c
   ∧ Client.get param_hash c endpoint params env
     = (c, Raise (RuntimeError "Request budget exhausted"), []))
  ∨ (Client._request_count c < max_requests_per_run (Client.config c)
     ∧ looked.1.2 ≠ JNull
     ∧ Client.get param_hash c endpoint params env
       = (looked.1.1, Ret looked.1.2, looked.2))
  ∨ (Client._request_count c < max_requests_per_run (Client.config c)
     ∧ looked.1.2 = JNull
     ∧ ∃ c' r evs,
         Client.retry_loop (Z.to_nat (max_retries (Client.config c))) missed
           endpoint params' key ttl (Client.net_answer env) (Client.jitter env) 0
           (initial_backoff (Client.config c)) = Some (c', r, evs)
         ∧ Client.counted (Client.requests_made evs) missed c'
         ∧ Client.requests_made evs ≤ Z.max 0 (max_retries (Client.config c))
         ∧ Client.get param_hash c endpoint params env
           = (c', r, looked.2 ++ evs)).
Proof.
  intros params' key ttl looked missed.
  unfold Client.get, Client._check_budget.
  destruct (Z.geb_spec (Client._request_count c)
              (max_requests_per_run (Client.config c))) as [Hfull|Hroom].
  { left. split; [lia|done]. }
  right.
  fold params' key ttl looked.
  pose proof (get_from_cache_facts c key (Client.cache_answer env))
    as (Hcfg & _).
  fold looked in Hcfg.
  destruct looked as [[c1 cached] evs1] eqn:Hlooked. simpl in *.
  assert (cached = JNull ∨ cached ≠ JNull) as [->|Hcached]
    by (destruct cached; (by left) || by right).
  - right. split; [done|]. split; [done|].
    destruct (retry_loop_counts (Z.to_nat (max_retries (Client.config c)))
                missed endpoint params' key ttl (Client.net_answer env) (Client.jitter env) 0
                (initial_backoff (Client.config c)))
      as (c3 & r & evs2 & Heq & Hcnt & Hle & _).
    { subst missed. simpl. rewrite Hcfg. lia. }
    exists c3, r, evs2. fold missed. rewrite Heq.
    split; [done|]. split; [done|]. split; [|done].
    subst missed. simpl in Hle. rewrite Hcfg in Hle. lia.
  - left. split; [done|]. split; [done|]. by destruct cached.
Qed.

End GetFacts.

Section GetResults.
Variable param_hash : json → string.

(** X9.  A payload that [get] returns is either what the cache held under
    the key of the call, and then no request was made, or the body of the
    2xx answer to the last request of the call, one of at most
    [max_retries]. *)
Theorem get_payload_origin c endpoint params env c' data evs :
  Client.get param_hash c endpoint params env = (c', Ret data, evs) →
  (Client._redis c = true
   ∧ Client.cache_answer env = Client.RedisJson data
   ∧ Client.requests_made evs = 0)
  ∨ (∃ status_code header,
       1 ≤ Client.requests_made evs ≤ max_retries (Client.config c)
       ∧ Client.net_answer env (Z.to_nat (Client.requests_made evs - 1))
         = Client.Response status_code header (Some data)
       ∧ 200 ≤ status_code ≤ 299).
Proof.
  intros Hget.
  pose proof (get_from_cache_facts c
                (Client._make_cache_key param_hash endpoint
                   (Py.or_ params (JDict [])))
                (Client.cache_answer env))
    as (Hcfg & _ & _ & _ & _ & _ & _ & _ & Hnone & _ & Hhit).
  destruct (get_cases param_hash c endpoint params env)
    as [[_ Heq]|[(_ & Hne & Heq)|(_ & _ & c3 & r & evs2 & Hloop & _ & _ & Heq)]];
    rewrite Heq in Hget.
  - discriminate.
  - injection Hget as <- <- <-. left.
    destruct (Hhit Hne) as [? ?]. done.
  - injection Hget as <- -> <-. right.
    apply retry_loop_data in Hloop as (k & s & h & Hk & Hrange & Hnet & Hs);
      [|lia].
    simpl in Hrange. rewrite Hcfg in Hrange.
    rewrite requests_made_app, Hnone. exists s, h.
    replace (Z.to_nat (0 + Client.requests_made evs2 - 1)) with k by lia.
    split; [lia|done].
Qed.

(** X10.  [get] raises the budget error exactly when
    [get_remaining_budget] is 0: the retry loop never raises it, whatever
    the counter reaches during the call. *)
Theorem get_budget_error_iff c endpoint params env :
  (Client.get param_hash c endpoint params env).1.2
  = Raise (RuntimeError "Request budget exhausted")
  ↔ Client.get_remaining_budget c = 0.
Proof.
  unfold Client.get_remaining_budget.
  destruct (get_cases param_hash c endpoint params env)
    as [[Hfull ->]|[(Hroom & _ & ->)|(Hroom & _ & c3 & r & evs2 & Hloop & _ & _ & ->)]];
    simpl.
  - split; [lia|done].
  - split; [discriminate|lia].
  - apply retry_loop_failed in Hloop as [_ Hne]. split; [done|lia].
Qed.

(** What one call of [get] does to the counters. *)
Lemma get_step c endpoint params env :
  let run := Client.get param_hash c endpoint params env in
  let s := Client.stats c in
  let s' := Client.stats run.1.1 in
  let n := Client.requests_made run.2 in
  let missed := Client.cache_misses s' - Client.cache_misses s in
  Client.config run.1.1 = Client.config c
  ∧ Client._redis run.1.1 = Client._redis c
  ∧ Client._request_count run.1.1 = Client._request_count c + n
  ∧ Client.total_requests s' = Client.total_requests s + n
  ∧ Client.cache_hits s ≤ Client.cache_hits s' ≤ Client.cache_hits s + 1
  ∧ 0 ≤ missed ≤ 1
  ∧ Client.failed_requests s ≤ Client.failed_requests s'
    ≤ Client.failed_requests s + n
  ∧ 0 ≤ n ≤ missed * Z.max 0 (max_retries (Client.config c))
  ∧ (1 ≤ max_retries (Client.config c) → missed ≤ n)
  ∧ (Client._redis c = false →
     Client.cache_hits s' = Client.cache_hits s).
Proof.
  pose proof (get_from_cache_facts c
                (Client._make_cache_key param_hash endpoint
                   (Py.or_ params (JDict [])))
                (Client.cache_answer env))
    as (Hcfg & Hredis & Hcnt & Htot & Hmiss & Hfail & Hhits & Hoff & Hnone & _).
  destruct (get_cases param_hash c endpoint params env)
    as [[_ ->]|[(_ & _ & ->)|(_ & _ & c3 & r & evs2 & Hloop & Hcounted & Hle & ->)]];
    cbv zeta; simpl.
  - rewrite requests_made_nil. split_and!; try done; try lia.
  - rewrite Hnone. split_and!; try done; try lia.
    intros Hno. by rewrite (Hoff Hno).
  - rewrite requests_made_app, Hnone.
    pose proof (retry_loop_failed _ _ _ _ _ _ _ _ _ _ _ _ _ Hloop) as [Hf _].
    pose proof (retry_loop_requests _ _ _ _ _ _ _ _ _ _ _ _ _ Hloop) as Hone.
    pose proof (requests_made_nonneg evs2).
    destruct Hcounted as (Hc1 & Hc2 & Hc3 & Hc4 & Hc5 & Hc6).
    simpl in *. rewrite Hcfg in Hone.
    split_and!; try congruence; try lia.
    intros Hno. rewrite (Hoff Hno) in Hc5. done.
Qed.

End GetResults.

Lemma get_payload_origin_witness :
  let c := Client.new_client default_config false in
  let env := Client.call_environment Concrete.retried_call in
  let evs := [Client.HttpRequest "app.bsky.feed.searchPosts"
                (JDict [("q", JStr "rocq")]); Client.Sleep 1;
              Client.HttpRequest "app.bsky.feed.searchPosts"
                (JDict [("q", JStr "rocq")]); Client.Sleep 2;
              Client.HttpRequest "app.bsky.feed.searchPosts"
                (JDict [("q", JStr "rocq")])] in
  ∃ c',
    Concrete.get c "app.bsky.feed.searchPosts" (JDict [("q", JStr "rocq")]) env
    = (c', Ret (JDict []), evs)
    ∧ ((Client._redis c = true
        ∧ Client.cache_answer env = Client.RedisJson (JDict [])
        ∧ Client.requests_made evs = 0)
       ∨ (∃ status_code header,
            1 ≤ Client.requests_made evs ≤ max_retries (Client.config c)
            ∧ Client.net_answer env (Z.to_nat (Client.requests_made evs - 1))
              = Client.Response status_code header (Some (JDict []))
            ∧ 200 ≤ status_code ≤ 299)).
Proof.
  intros c env evs.
  assert (Hget : ∃ c',
            Concrete.get c "app.bsky.feed.searchPosts"
              (JDict [("q", JStr "rocq")]) env
            = (c', Ret (JDict []), evs))
    by (eexists; vm_compute; reflexivity).
  destruct Hget as [c' Hget]. exists c'. split; [exact Hget|].
  exact (get_payload_origin Concrete.param_hash c _ _ _ _ _ _ Hget).
Defined.

Section GetsResults.
Variable param_hash : json → string.

(** What a sequence of calls does to the counters. *)
Lemma gets_step calls c :
  let run := Client.gets param_hash c calls in
  let s := Client.stats c in
  let s' := Client.stats run.1 in
  let n := Client.requests_made run.2 in
  let missed := Client.cache_misses s' - Client.cache_misses s in
  Client.config run.1 = Client.config c
  ∧ Client._redis run.1 = Client._redis c
  ∧ Client.total_requests s' = Client.total_requests s + n
  ∧ Client.cache_hits s ≤ Client.cache_hits s'
    ≤ Client.cache_hits s + Z.of_nat (length calls)
  ∧ 0 ≤ missed ≤ Z.of_nat (length calls)
  ∧ Client.failed_requests s ≤ Client.failed_requests s'
    ≤ Client.failed_requests s + n
  ∧ 0 ≤ n ≤ missed * Z.max 0 (max_retries (Client.config c))
  ∧ (1 ≤ max_retries (Client.config c) → missed ≤ n)
  ∧ (Client._redis c = false →
     Client.cache_hits s' = Client.cache_hits s).
Proof.
  revert c. induction calls as [|first rest IH]; intros c; cbv zeta.
  - simpl. rewrite requests_made_nil. split_and!; try done; lia.
  - simpl.
    pose proof (get_step param_hash c (Client.call_endpoint first)
                  (Client.call_params first) (Client.call_environment first))
      as Hfirst.
    destruct (Client.get param_hash c _ _ _) as [[c1 r1] evs1].
    specialize (IH c1).
    destruct (Client.gets param_hash c1 rest) as [c2 evs2].
    cbv zeta in Hfirst, IH. simpl in Hfirst, IH |- *.
    destruct Hfirst as (Hcfg & Hredis & _ & Htot & Hhits & Hmiss & Hfail
                        & Hn & Hone & Hoff).
    destruct IH as (Hcfg' & Hredis' & Htot' & Hhits' & Hmiss' & Hfail'
                    & Hn' & Hone' & Hoff').
    rewrite Hcfg in *. rewrite Hredis in *.
    rewrite requests_made_app.
    set (M := Z.max 0 (max_retries (Client.config c))) in *.
    split_and!; try congruence; try lia.
    intros Hno. rewrite (Hoff' Hno), (Hoff Hno). done.
Qed.

(** X11.  After any sequence of calls of [get] on a new client: the
    failed requests are among the requests counted; every call adds at most
    one cache hit and at most one cache miss; only a cache miss leads to
    requests, at most [max_retries] of them and, where [max_retries] is
    positive, at least one; and without a Redis connection no hit is ever
    counted. *)
Theorem gets_counters cfg ping_ok calls :
  let run := Client.gets param_hash (Client.new_client cfg ping_ok) calls in
  let s := Client.stats run.1 in
  Client.total_requests s = Client.requests_made run.2
  ∧ 0 ≤ Client.failed_requests s ≤ Client.total_requests s
  ∧ 0 ≤ Client.cache_hits s ≤ Z.of_nat (length calls)
  ∧ 0 ≤ Client.cache_misses s ≤ Z.of_nat (length calls)
  ∧ Client.total_requests s ≤ Client.cache_misses s * Z.max 0 (max_retries cfg)
  ∧ (1 ≤ max_retries cfg → Client.cache_misses s ≤ Client.total_requests s)
  ∧ (redis_enabled cfg && ping_ok = false → Client.cache_hits s = 0).
Proof.
  pose proof (gets_step calls (Client.new_client cfg ping_ok)) as H.
  cbv zeta in *. simpl in H.
  destruct H as (_ & _ & Htot & Hhits & Hmiss & Hfail & Hn & Hone & Hoff).
  rewrite Z.sub_0_r in *.
  split_and!; try done; try lia.
Qed.

(** The events of a call of [get]. *)
Lemma get_events c endpoint params env :
  let params' := Py.or_ params (JDict []) in
  let key := Client._make_cache_key param_hash endpoint params' in
  let ttl := Client._get_ttl_for_endpoint c endpoint in
  Forall (λ ev, ev = Client.HttpRequest endpoint params'
                ∨ (∃ secs, ev = Client.Sleep secs)
                ∨ (Client._redis c = true
                   ∧ (ev = Client.CacheLookup key
                      ∨ ev = Client.CacheStore key ttl)))
    (Client.get param_hash c endpoint params env).2.
Proof.
  intros params' key ttl.
  pose proof (get_from_cache_facts c key (Client.cache_answer env))
    as (_ & Hredis & _ & _ & _ & _ & _ & Hoff & _ & Hlook & _).
  assert (Hfirst : Forall (λ ev, ev = Client.HttpRequest endpoint params'
                ∨ (∃ secs, ev = Client.Sleep secs)
                ∨ (Client._redis c = true
                   ∧ (ev = Client.CacheLookup key
                      ∨ ev = Client.CacheStore key ttl)))
            (Client._get_from_cache c key (Client.cache_answer env)).2).
  { destruct (Client._redis c) eqn:Hon.
    - eapply Forall_impl; [exact Hlook|]. intros ev ->. auto.
    - rewrite (Hoff eq_refl). constructor. }
  destruct (get_cases param_hash c endpoint params env)
    as [[_ ->]|[(_ & _ & ->)|(_ & _ & c3 & r & evs2 & Hloop & _ & _ & ->)]];
    simpl.
  - constructor.
  - exact Hfirst.
  - apply Forall_app. split; [exact Hfirst|].
    apply retry_loop_trace in Hloop.
    eapply Forall_impl; [exact Hloop|].
    intros ev [?|[?|[Hev Hon]]]; [by left|by right; left|].
    right. right. split; [rewrite <- Hredis; exact Hon|right; exact Hev].
Qed.

(** X12.  What a call of [get] does to the outside world: requests for the
    endpoint and the parameters of the call ([{}] for none), sleeps, and,
    only when Redis is connected, lookups and stores under the key of the
    call, the stores with the time to live of the endpoint. *)
Theorem get_trace c endpoint params env :
  let params' := Py.or_ params (JDict []) in
  let key := Client._make_cache_key param_hash endpoint params' in
  let ttl := Client._get_ttl_for_endpoint c endpoint in
  Forall (λ ev, ev = Client.HttpRequest endpoint params'
                ∨ (∃ secs, ev = Client.Sleep secs)
                ∨ (Client._redis c = true
                   ∧ (ev = Client.CacheLookup key
                      ∨ ev = Client.CacheStore key ttl)))
    (Client.get param_hash c endpoint params env).2.
Proof. exact (get_events c endpoint params env). Qed.

End GetsResults.

(** ** The retry loop when every attempt fails *)




Lemma get_from_cache_events c cache_key answer :
  (Client._get_from_cache c cache_key answer).2
  = if Client._redis c then [Client.CacheLookup cache_key] else [].
Proof.
  unfold Client._get_from_cache.
  destruct (Client._redis c); [|done]. by destruct answer.
Qed.

Section RetryExhaustion.
Variables (endpoint : string) (params : json) (cache_key : string) (ttl : Z).
Variable net : nat → Client.http_reply.
Variable jit : nat → Q.

Lemma attempt_once_quiet c reply draw attempt backoff :
  Client.retried_quietly reply = true →
  Client.attempt_once c endpoint params cache_key ttl reply draw attempt backoff
  = if Client.sleep_raises (backoff + draw) then
      Client.Finished (Client.count_request c) (Raise ValueError)
        [Client.HttpRequest endpoint params]
    else
      Client.Retry (Client.count_request c) (Client.next_backoff c backoff)
        [Client.HttpRequest endpoint params; Client.Sleep backoff].
Proof.
  unfold Client.retried_quietly, Client.attempt_once.
  destruct reply as [|status_code header body]; [done|].
  destruct (Z.eqb_spec status_code 429) as [->|_]; simpl.
  - by destruct header.
  - rewrite orb_false_r. by intros ->.
Qed.




End RetryExhaustion.

Section GetExhaustion.
Variable param_hash : json → string.

(** A call that passes the budget check and is not served by the cache
    runs the retry loop on the client with the miss counted. *)
Lemma get_missed c endpoint params env :
  Client._request_count c < max_requests_per_run (Client.config c) →
  (Client.lookup param_hash c endpoint params env).1.2 = JNull →
  let params' := Py.or_ params (JDict []) in
  let key := Client._make_cache_key param_hash endpoint params' in
  let looked := (Client.lookup param_hash c endpoint params env).1.1 in
  let missed := Client.with_stats looked (Client.miss (Client.stats looked)) in
  Client.config missed = Client.config c
  ∧ Client._request_count missed = Client._request_count c
  ∧ Client.failed_requests (Client.stats missed)
    = Client.failed_requests (Client.stats c)
  ∧ Client.cache_misses (Client.stats missed)
    = Client.cache_misses (Client.stats c) + 1
  ∧ ∃ c' r evs,
      Client.retry_loop (Z.to_nat (max_retries (Client.config c))) missed
        endpoint params' key (Client._get_ttl_for_endpoint c endpoint)
        (Client.net_answer env) (Client.jitter env) 0
        (initial_backoff (Client.config c)) = Some (c', r, evs)
      ∧ Client.counted (Client.requests_made evs) missed c'
      ∧ Client.get param_hash c endpoint params env
        = (c', r,
           (if Client._redis c then [Client.CacheLookup key] else []) ++ evs).
Proof.
  unfold Client.lookup. intros Hroom Hnull. cbv zeta.
  pose proof (get_from_cache_facts c
                (Client._make_cache_key param_hash endpoint
                   (Py.or_ params (JDict [])))
                (Client.cache_answer env))
    as (Hcfg & _ & Hcnt & _ & Hmiss & Hfail & _).
  cbv zeta in *.
  destruct (get_cases param_hash c endpoint params env)
    as [[Hfull _]|[(_ & Hne & _)
                  |(_ & _ & c3 & r & evs2 & Hloop & Hcounted & _ & Hget)]];
    [lia|done|].
  rewrite get_from_cache_events in Hget.
  split; [done|]. split; [done|]. split; [done|].
  split; [simpl; lia|]. by exists c3, r, evs2.
Qed.



End GetExhaustion.



(** ** bsky/api.py: batches and pages *)

Lemma concat_slices {A} (l : list A) (step m : nat) :
  concat (map (λ i, Py.slice i step l)
            (map (λ k, (k * step)%nat) (seq 0 m)))
  = take (m * step) l.
Proof.
  induction m as [|m IH]; [done|].
  rewrite seq_S, !map_app, concat_app, IH. simpl. rewrite app_nil_r.
  unfold Py.slice. rewrite take_take_drop. f_equal. lia.
Qed.

Lemma chunks_length uris :
  length (Api.chunks uris) = ((length uris + 24) / 25)%nat.
Proof.
  unfold Api.chunks, Py.range_step.
  rewrite !length_map, length_seq. f_equal. lia.
Qed.

Lemma chunks_nonempty uris :
  Forall (λ chunk, (1 ≤ length chunk ≤ 25)%nat) (Api.chunks uris).
Proof.
  unfold Api.chunks, Py.range_step.
  pose proof (Nat.div_mod_eq (length uris + 25 - 1) 25) as Hdiv.
  pose proof (Nat.mod_upper_bound (length uris + 25 - 1) 25) as Hmod.
  rewrite !Forall_map. apply Forall_forall. intros k Hk.
  apply elem_of_seq in Hk. unfold Py.slice.
  rewrite length_take, length_drop. lia.
Qed.

(** X15.  The chunks of [batch_get_posts] are the URIs, in order, cut into
    pieces of 25 with a shorter last piece: none is empty, none exceeds what
    [get_posts] sends. *)
Theorem chunks_partition uris :
  concat (Api.chunks uris) = uris
  ∧ Forall (λ chunk, (1 ≤ length chunk ≤ 25)%nat) (Api.chunks uris)
  ∧ length (Api.chunks uris) = ((length uris + 24) / 25)%nat.
Proof.
  split; [|split; [apply chunks_nonempty|apply chunks_length]].
  unfold Api.chunks, Py.range_step.
  pose proof (Nat.div_mod_eq (length uris + 25 - 1) 25) as Hdiv.
  pose proof (Nat.mod_upper_bound (length uris + 25 - 1) 25) as Hmod.
  rewrite concat_slices. apply take_ge. lia.
Qed.

Section ApiFacts.
Variable param_hash : json → string.

Lemma get_posts_step client chunk env :
  let run := Api.get_posts param_hash client chunk env in
  let n := Client.requests_made run.2 in
  Client.config run.1.1 = Client.config client
  ∧ Client._request_count run.1.1 = Client._request_count client + n
  ∧ 0 ≤ n ≤ Z.max 0 (max_retries (Client.config client))
  ∧ (max_requests_per_run (Client.config client)
     ≤ Client._request_count client →
     run.1.1 = client ∧ run.2 = []
     ∧ (chunk ≠ [] → ∃ e, run.1.2 = Raise e)).
Proof.
  unfold Api.get_posts. destruct chunk as [|uri chunk]; cbv zeta.
  { simpl. rewrite requests_made_nil. split_and!; try done; lia. }
  set (params := JDict _).
  pose proof (get_step param_hash client "app.bsky.feed.getPosts" params env)
    as (Hcfg & _ & Hcnt & _ & _ & Hmiss & _ & Hn & _).
  cbv zeta in *.
  split; [done|]. split; [done|]. split; [nia|].
  intros Hfull.
  destruct (get_cases param_hash client "app.bsky.feed.getPosts" params env)
    as [[_ ->]|[(? & _)|(? & _)]]; [|lia|lia].
  simpl. split; [done|]. split; [done|]. intros _. by eexists.
Qed.

Lemma batch_loop_step todo k client all_posts envs :
  let run := Api.batch_loop param_hash todo k client all_posts envs in
  let n := Client.requests_made run.2 in
  Client.config run.1.1 = Client.config client
  ∧ Client._request_count run.1.1 = Client._request_count client + n
  ∧ 0 ≤ n
    ≤ Z.of_nat (length todo) * Z.max 0 (max_retries (Client.config client))
  ∧ (max_requests_per_run (Client.config client)
     ≤ Client._request_count client →
     Forall (λ chunk, chunk ≠ []) todo →
     run = (client, all_posts, [])).
Proof.
  revert k client all_posts.
  induction todo as [|chunk rest IH]; intros k client all_posts; cbv zeta.
  { simpl. rewrite requests_made_nil. split_and!; try done; lia. }
  simpl.
  pose proof (get_posts_step client chunk (envs k)) as Hfirst.
  destruct (Api.get_posts param_hash client chunk (envs k))
    as [[client1 r] evs1].
  set (all_posts1 := match exc_bind r _ with
                     | Ret found => all_posts ++ found
                     | Raise _ => all_posts
                     end).
  specialize (IH (S k) client1 all_posts1).
  destruct (Api.batch_loop param_hash rest (S k) client1 all_posts1 envs)
    as [[client2 found2] evs2].
  cbv zeta in Hfirst, IH. simpl in Hfirst, IH |- *.
  destruct Hfirst as (Hcfg & Hcnt & Hn & Hfull).
  destruct IH as (Hcfg' & Hcnt' & Hn' & Hfull').
  rewrite Hcfg in *. rewrite requests_made_app.
  split; [congruence|]. split; [lia|]. split; [nia|].
  intros Hno Hchunks. apply Forall_cons in Hchunks as [Hchunk Hrest].
  destruct (Hfull Hno) as (-> & -> & Hraise).
  destruct (Hraise Hchunk) as [e ->]. subst all_posts1. simpl in *.
  rewrite (Hfull' Hno Hrest). done.
Qed.

(** X16.  A batch of [n] URIs costs at most [ceil(n / 25)] calls of
    [get], so at most [ceil(n / 25) * max_retries] requests, each of them
    counted against the budget. *)
Theorem batch_get_posts_requests client uris envs :
  let run := Api.batch_get_posts param_hash client uris envs in
  let n := Client.requests_made run.2 in
  Client._request_count run.1.1 = Client._request_count client + n
  ∧ 0 ≤ n
    ≤ Z.of_nat ((length uris + 24) / 25)
      * Z.max 0 (max_retries (Client.config client)).
Proof.
  unfold Api.batch_get_posts. destruct uris as [|uri uris]; cbv zeta.
  { simpl. rewrite requests_made_nil. lia. }
  pose proof (batch_loop_step (Api.chunks (uri :: uris)) 0 client [] envs)
    as (_ & Hcnt & Hn & _).
  pose proof (chunks_length (uri :: uris)) as Hlen.
  cbv zeta in *. rewrite Hlen in Hn. done.
Qed.

(** X17.  With the budget exhausted, [batch_get_posts] makes no request
    and returns an empty list: the budget error of every chunk is caught and
    logged, and the caller cannot tell the outcome from a batch whose posts
    do not exist. *)
Theorem batch_get_posts_budget_exhausted client uris envs :
  max_requests_per_run (Client.config client) ≤ Client._request_count client →
  Api.batch_get_posts param_hash client uris envs = (client, [], []).
Proof.
  intros Hfull. unfold Api.batch_get_posts.
  destruct uris as [|uri uris]; [done|].
  pose proof (batch_loop_step (Api.chunks (uri :: uris)) 0 client [] envs)
    as (_ & _ & _ & Hno).
  apply Hno; [done|].
  eapply Forall_impl; [apply chunks_nonempty|].
  intros chunk Hlen ->. simpl in Hlen. lia.
Qed.

End ApiFacts.

Lemma batch_get_posts_budget_exhausted_witness :
  let uris := replicate 30 "at://did:plc:author/app.bsky.feed.post/1" in
  max_requests_per_run (Client.config Concrete.exhausted_client)
  ≤ Client._request_count Concrete.exhausted_client
  ∧ Api.batch_get_posts Concrete.param_hash Concrete.exhausted_client uris
      (λ _, Client.call_environment Concrete.prompt_call)
    = (Concrete.exhausted_client, [], []).
Proof.
  intros uris.
  assert (H : max_requests_per_run (Client.config Concrete.exhausted_client)
              ≤ Client._request_count Concrete.exhausted_client)
    by (vm_compute; discriminate).
  split; [exact H|].
  exact (batch_get_posts_budget_exhausted Concrete.param_hash
           Concrete.exhausted_client uris
           (λ _, Client.call_environment Concrete.prompt_call) H).
Defined.

Lemma assoc_app_l k (l l' : list (string * json)) v :
  Py.assoc k l = Some v → Py.assoc k (l ++ l') = Some v.
Proof.
  induction l as [|[k' v'] l IH]; simpl; [done|].
  destruct (String.eqb k k'); [done|exact IH].
Qed.

Lemma assoc_with_param k key s params v :
  Py.assoc k params = Some v →
  Py.assoc k (Api.with_param key s params) = Some v.
Proof.
  intros H. unfold Api.with_param. destruct s as [s|]; [|done].
  destruct (Api.given (Some s)); [by apply assoc_app_l|done].
Qed.

Section PageFacts.
Variable param_hash : json → string.

(** X18.  Every request [search_posts] and [get_quotes] make goes to their
    endpoint and asks for the given query, respectively URI, with a page
    size that is the given limit capped at 100. *)
Theorem page_requests_capped client env (limit : Z) cursor :
  (∀ query since until lang,
     Forall (λ ev, ∀ endpoint params,
               ev = Client.HttpRequest endpoint params →
               endpoint = "app.bsky.feed.searchPosts"
               ∧ Py.get params "q" = Ret (JStr query)
               ∧ Py.get params "limit" = Ret (JInt (Z.min limit 100)))
       (Api.search_posts param_hash client query limit cursor since until
          lang env).2)
  ∧ (∀ uri,
       Forall (λ ev, ∀ endpoint params,
                 ev = Client.HttpRequest endpoint params →
                 endpoint = "app.bsky.feed.getQuotes"
                 ∧ Py.get params "uri" = Ret (JStr uri)
                 ∧ Py.get params "limit" = Ret (JInt (Z.min limit 100)))
         (Api.get_quotes param_hash client uri limit cursor env).2).
Proof.
  split.
  - intros query since until lang. unfold Api.search_posts.
    set (params := Api.with_param _ _ _).
    assert (Hq : Py.assoc "q" params = Some (JStr query)
                 ∧ Py.assoc "limit" params = Some (JInt (Z.min limit 100))).
    { subst params. split; do 3 apply assoc_with_param;
        by destruct (Py.truthy cursor). }
    pose proof (get_events param_hash client "app.bsky.feed.searchPosts"
                  (JDict params) env) as Htrace.
    cbv zeta in Htrace.
    eapply Forall_impl; [exact Htrace|].
    assert (Py.or_ (JDict params) (JDict []) = JDict params) as ->.
    { destruct params; [by destruct Hq|done]. }
    intros ev [->|[[secs ->]|[_ [->| ->]]]] endpoint params' [= <- <-].
    destruct Hq as [Hq Hlimit]. unfold Py.get, Py.get_or.
    by rewrite Hq, Hlimit.
  - intros uri. unfold Api.get_quotes.
    set (params := if Py.truthy cursor then _ else _).
    assert (Hq : Py.assoc "uri" params = Some (JStr uri)
                 ∧ Py.assoc "limit" params = Some (JInt (Z.min limit 100))).
    { subst params. by destruct (Py.truthy cursor). }
    pose proof (get_events param_hash client "app.bsky.feed.getQuotes"
                  (JDict params) env) as Htrace.
    cbv zeta in Htrace.
    eapply Forall_impl; [exact Htrace|].
    assert (Py.or_ (JDict params) (JDict []) = JDict params) as ->.
    { destruct params; [by destruct Hq|done]. }
    intros ev [->|[[secs ->]|[_ [->| ->]]]] endpoint params' [= <- <-].
    destruct Hq as [Hq Hlimit]. unfold Py.get, Py.get_or.
    by rewrite Hq, Hlimit.
Qed.

End PageFacts.

(** ** bsky/ingest.py: what a run returns *)

Section IngestFacts.
Variable fromisoformat : string → option datetime.
Variable validate_int : json → option Z.
Variable now : datetime.
Variable param_hash : json → string.

(** A dict of posts whose keys are distinct and are the URIs of the posts. *)
Local Notation keyed posts :=
  (NoDup (Py.keys posts)
   ∧ Forall (λ kv : string * Post.t, kv.1 = Post.uri kv.2) posts).

Lemma put_post_keyed all_posts post :
  keyed all_posts → keyed (Ingest.put_post all_posts post).
Proof.
  intros [? ?]. split; [by apply setitem_NoDup|by apply setitem_keyed].
Qed.

Lemma update_keyed (d other : list (string * Post.t)) :
  keyed d → Forall (λ kv, kv.1 = Post.uri kv.2) other →
  keyed (Py.update d other).
Proof.
  unfold Py.update. revert d.
  induction other as [|[k v] other IH]; intros d Hd Hother; simpl; [done|].
  apply Forall_cons in Hother as [Hk Hother]. simpl in Hk. subst k.
  apply IH; [|done]. by apply (put_post_keyed d v).
Qed.

Lemma absorb_quote_posts_keyed max_nodes quote_posts all_posts :
  keyed all_posts →
  keyed (Ingest.absorb_quote_posts max_nodes quote_posts all_posts).
Proof.
  revert all_posts.
  induction quote_posts as [|post rest IH]; intros all_posts Hd; simpl; [done|].
  destruct (_ >=? _); [done|]. apply IH. by apply put_post_keyed.
Qed.

(** A call of [get] costs at most [max_retries] requests. *)
Lemma get_spent c endpoint params env :
  let c' := (Client.get param_hash c endpoint params env).1.1 in
  Client.config c' = Client.config c
  ∧ Client.total_requests (Client.stats c)
    ≤ Client.total_requests (Client.stats c')
    ≤ Client.total_requests (Client.stats c)
      + Z.max 0 (max_retries (Client.config c)).
Proof.
  pose proof (get_step param_hash c endpoint params env)
    as (Hcfg & _ & _ & Htot & _ & Hmiss & _ & Hn & _).
  cbv zeta in *. split; [done|]. nia.
Qed.

Lemma thread_phase_spec inputs client env :
  let run := Ingest.thread_phase fromisoformat validate_int now param_hash
               inputs client env in
  keyed run.2.1
  ∧ Forall (λ e, Edge.edge_type e = REPLY) run.2.2
  ∧ Client.config run.1 = Client.config client
  ∧ Client.total_requests (Client.stats client)
    ≤ Client.total_requests (Client.stats run.1)
    ≤ Client.total_requests (Client.stats client)
      + Z.max 0 (max_retries (Client.config client)).
Proof.
  unfold Ingest.thread_phase, Api.get_post_thread. cbv zeta.
  set (params := JDict _).
  pose proof (get_spent client "app.bsky.feed.getPostThread" params env) as H.
  destruct (Client.get param_hash client _ params env) as [[client' r] evs].
  simpl in H.
  destruct (exc_bind r _) as [[thread_posts thread_edges]|e] eqn:Hext; simpl.
  - destruct r as [thread_response|]; [|discriminate]. simpl in Hext.
    apply extract_thread_spec in Hext as (_ & Hkeyed & _ & _ & Hedges).
    split; [apply update_keyed; [split; constructor|done]|].
    split; [|done].
    eapply Forall_impl; [exact Hedges|]. by intros edge (? & _).
  - split; [split; constructor|]. split; [constructor|done].
Qed.

Lemma absorb_quote_page_spec inputs quote_response acc acc' :
  Ingest.absorb_quote_page fromisoformat validate_int now inputs
    quote_response acc = Ret acc' →
  (keyed acc.1 → keyed acc'.1)
  ∧ ∃ added,
      acc'.2 = acc.2 ++ added
      ∧ Forall (λ e, Edge.edge_type e = QUOTE
                     ∧ Edge.dst_uri e = seed_uri inputs) added.
Proof.
  unfold Ingest.absorb_quote_page.
  destruct (Py.get_or quote_response "posts" (JList [])) as [raw|];
    [|discriminate]. simpl.
  unfold Normalize.extract_quote_edges.
  destruct (Py.iter raw) as [items|]; [|discriminate]. simpl.
  rewrite quote_edges_loop_spec. simpl. intros [= <-]. simpl.
  split; [apply absorb_quote_posts_keyed|].
  eexists. split; [done|]. by apply Forall_map, Forall_forall.
Qed.

Lemma quote_loop_spec fuel inputs w call_no client acc cursor
    quote_pages_fetched client' acc' :
  Ingest.quote_loop fromisoformat validate_int now param_hash fuel inputs w
    call_no client acc cursor quote_pages_fetched = Some (client', acc') →
  (keyed acc.1 → keyed acc'.1)
  ∧ (∃ added,
       acc'.2 = acc.2 ++ added
       ∧ Forall (λ e, Edge.edge_type e = QUOTE
                      ∧ Edge.dst_uri e = seed_uri inputs) added)
  ∧ Client.config client' = Client.config client
  ∧ Client.total_requests (Client.stats client)
    ≤ Client.total_requests (Client.stats client')
    ≤ Client.total_requests (Client.stats client)
      + Z.max 0 (max_quote_pages inputs - quote_pages_fetched)
        * Z.max 0 (max_retries (Client.config client)).
Proof.
  revert call_no client acc cursor quote_pages_fetched.
  induction fuel as [|fuel IH];
    intros call_no client acc cursor quote_pages_fetched; simpl;
    destruct (Z.ltb_spec quote_pages_fetched (max_quote_pages inputs))
      as [Hlt|Hge]; simpl;
    try (intros [= <- <-]; split; [done|];
         split; [exists []; by rewrite app_nil_r|]; split; [done|nia]);
    [discriminate|].
  unfold Api.get_quotes. cbv zeta.
  set (params := JDict _).
  pose proof (get_spent client "app.bsky.feed.getQuotes" params
                (Ingest.call w call_no)) as [Hcfg Htot].
  destruct (Client.get param_hash client _ params _) as [[client1 r] evs].
  simpl in Hcfg, Htot.
  set (M := Z.max 0 (max_retries (Client.config client))) in *.
  assert (Hstay : ∀ client'' acc'',
    Some (client1, acc) = Some (client'', acc'') →
    (keyed acc.1 → keyed acc''.1)
    ∧ (∃ added,
         acc''.2 = acc.2 ++ added
         ∧ Forall (λ e, Edge.edge_type e = QUOTE
                        ∧ Edge.dst_uri e = seed_uri inputs) added)
    ∧ Client.config client'' = Client.config client
    ∧ Client.total_requests (Client.stats client)
      ≤ Client.total_requests (Client.stats client'')
      ≤ Client.total_requests (Client.stats client)
        + Z.max 0 (max_quote_pages inputs - quote_pages_fetched) * M).
  { intros ? ? [= <- <-]. split; [done|].
    split; [exists []; by rewrite app_nil_r|]. split; [done|nia]. }
  destruct r as [quote_response|e]; [|apply Hstay].
  destruct (Ingest.absorb_quote_page _ _ _ _ _ _) as [acc1|e] eqn:Hpage;
    [|apply Hstay].
  apply absorb_quote_page_spec in Hpage as (Hkeyed & added & Hadded & Hquotes).
  assert (Hstop : ∀ client'' acc'',
    Some (client1, acc1) = Some (client'', acc'') →
    (keyed acc.1 → keyed acc''.1)
    ∧ (∃ added,
         acc''.2 = acc.2 ++ added
         ∧ Forall (λ e, Edge.edge_type e = QUOTE
                        ∧ Edge.dst_uri e = seed_uri inputs) added)
    ∧ Client.config client'' = Client.config client
    ∧ Client.total_requests (Client.stats client)
      ≤ Client.total_requests (Client.stats client'')
      ≤ Client.total_requests (Client.stats client)
        + Z.max 0 (max_quote_pages inputs - quote_pages_fetched) * M).
  { intros ? ? [= <- <-]. split; [done|].
    split; [by exists added|]. split; [done|nia]. }
  destruct (Py.get quote_response "cursor") as [cursor'|e]; [|apply Hstop].
  destruct (negb (Py.truthy cursor')); [apply Hstop|].
  destruct (Client.get_remaining_budget client1 <? 10); [apply Hstop|].
  destruct (_ >=? _); [apply Hstop|].
  intros Hrest. apply IH in Hrest as (Hkeyed' & (added' & Hadded' & Hquotes')
                                       & Hcfg' & Htot').
  rewrite Hcfg in Htot'. fold M in Htot'.
  split; [by intros ?; apply Hkeyed', Hkeyed|].
  split.
  { exists (added ++ added'). rewrite Hadded', Hadded, <- app_assoc.
    split; [done|]. by apply Forall_app. }
  split; [congruence|]. nia.
Qed.

(** A run of [seed_mode] returns what [result] makes of a client and
    accumulators that are well formed. *)
Lemma seed_mode_inv inputs config w :
  ∃ client acc,
    Ingest.seed_mode fromisoformat validate_int now param_hash inputs config w
    = Ingest.result inputs client acc
    ∧ keyed acc.1
    ∧ Forall (λ e, Edge.edge_type e = REPLY
                   ∨ (Edge.edge_type e = QUOTE
                      ∧ Edge.dst_uri e = seed_uri inputs)) acc.2
    ∧ 0 ≤ Client.total_requests (Client.stats client)
      ≤ (1 + Z.max 0 (max_quote_pages inputs)) * Z.max 0 (max_retries config).
Proof.
  unfold Ingest.seed_mode. cbv zeta.
  pose proof (thread_phase_spec inputs
                (Client.new_client config (Ingest.ping_ok w))
                (Ingest.call w 0)) as Hthread.
  destruct (Ingest.thread_phase _ _ _ _ _ _ _) as [client acc].
  cbv zeta in Hthread. simpl in Hthread.
  destruct Hthread as (Hkeyed & Hreply & Hcfg & Htot).
  set (M := Z.max 0 (max_retries config)) in *.
  assert (Hhere : ∃ client0 acc0,
    Ingest.result inputs client acc = Ingest.result inputs client0 acc0
    ∧ keyed acc0.1
    ∧ Forall (λ e, Edge.edge_type e = REPLY
                   ∨ (Edge.edge_type e = QUOTE
                      ∧ Edge.dst_uri e = seed_uri inputs)) acc0.2
    ∧ 0 ≤ Client.total_requests (Client.stats client0)
      ≤ (1 + Z.max 0 (max_quote_pages inputs)) * M).
  { exists client, acc. split; [done|]. split; [done|].
    split; [|nia]. eapply Forall_impl; [exact Hreply|]. by left. }
  destruct (_ >=? _); [exact Hhere|].
  destruct (Ingest.quote_loop _ _ _ _ _ _ _ _ _ _ _ _) as [[client' acc']|]
    eqn:Hloop; [|exact Hhere].
  apply quote_loop_spec in Hloop
    as (Hkeyed' & (added & Hadded & Hquotes) & Hcfg' & Htot').
  rewrite Hcfg in Htot'. simpl in Htot'. fold M in Htot'.
  rewrite Z.sub_0_r in Htot'.
  exists client', acc'. split; [done|]. split; [by apply Hkeyed'|].
  split; [|nia].
  rewrite Hadded. apply Forall_app. split.
  - eapply Forall_impl; [exact Hreply|]. by left.
  - eapply Forall_impl; [exact Hquotes|]. by right.
Qed.

(** X19.  What [seed_mode] returns, whatever the network and the cache
    answer: posts with distinct URIs; edges with distinct (source,
    destination, type) triples; and no edge but REPLY edges and QUOTE edges
    that point at the seed. *)
Theorem seed_mode_well_formed inputs config w :
  let run := Ingest.seed_mode fromisoformat validate_int now param_hash
               inputs config w in
  NoDup (Post.uri <$> posts run)
  ∧ NoDup (Edge.key <$> edges run)
  ∧ Forall (λ e, Edge.edge_type e = REPLY
                 ∨ (Edge.edge_type e = QUOTE
                    ∧ Edge.dst_uri e = seed_uri inputs)) (edges run).
Proof.
  cbv zeta.
  destruct (seed_mode_inv inputs config w)
    as (client & [all_posts all_edges] & -> & [Hnodup Hkeyed] & Hedges & _).
  simpl in *. split; [|split].
  - assert (Post.uri <$> Py.values all_posts = Py.keys all_posts) as Huris.
    { unfold Py.values, Py.keys. clear Hnodup.
      induction Hkeyed as [|[k v] d Hk _ IH]; simpl; [done|].
      simpl in Hk. by rewrite Hk, <- IH. }
    unfold Py.slice_to.
    destruct (0 <=? max_nodes inputs);
      rewrite fmap_take, Huris;
      (eapply sublist_NoDup; [exact Hnodup|apply sublist_take]).
  - apply (dedup_loop_properties Edge.key all_edges).
  - unfold Normalize.deduplicate_edges.
    destruct (dedup_loop_sublist Edge.key all_edges ∅ [])
      as (added & -> & Hsub).
    simpl. apply Forall_forall. intros e He.
    rewrite Forall_forall in Hedges. apply Hedges.
    by eapply elem_of_sublist.
Qed.

(** X20.  A run of [seed_mode] makes at most
    [(1 + max_quote_pages) * max_retries] requests: one call of [get] for
    the thread and at most one per quote page. *)
Theorem seed_mode_requests inputs config w :
  let run := Ingest.seed_mode fromisoformat validate_int now param_hash
               inputs config w in
  0 ≤ total_requests run
  ≤ (1 + Z.max 0 (max_quote_pages inputs)) * Z.max 0 (max_retries config).
Proof.
  cbv zeta.
  by destruct (seed_mode_inv inputs config w)
    as (client & acc & -> & _ & _ & Htot).
Qed.

End IngestFacts.

Section QueryFacts.
Variable fromisoformat : string → option datetime.
Variable validate_int : json → option Z.
Variable now : datetime.
Variable param_hash : json → string.
Variable window : Z → exc (string * string).

(** The page counter bounds the search loop: with the fuel it grants, the
    loop ends, after at most one call of [get] per page. *)
Lemma search_loop_spec fuel inputs limit since until w call_no client all_posts
    cursor pages_fetched :
  (Z.to_nat (max_pages inputs - pages_fetched) ≤ fuel)%nat →
  ∃ client' all_posts',
    Ingest.search_loop fromisoformat validate_int now param_hash fuel inputs
      limit since until w call_no client all_posts cursor pages_fetched
    = Some (client', all_posts')
    ∧ Client.config client' = Client.config client
    ∧ Client.total_requests (Client.stats client)
      ≤ Client.total_requests (Client.stats client')
      ≤ Client.total_requests (Client.stats client)
        + Z.max 0 (max_pages inputs - pages_fetched)
          * Z.max 0 (max_retries (Client.config client)).
Proof.
  revert call_no client all_posts cursor pages_fetched.
  induction fuel as [|fuel IH];
    intros call_no client all_posts cursor pages_fetched Hfuel; simpl;
    destruct (Z.ltb_spec pages_fetched (max_pages inputs)) as [Hlt|Hge];
    simpl; try (eexists _, _; split; [done|]; split; [done|nia]); [lia|].
  unfold Api.search_posts. cbv zeta.
  set (params := JDict _).
  pose proof (get_spent param_hash client "app.bsky.feed.searchPosts" params
                (Ingest.call w call_no)) as [Hcfg Htot].
  destruct (Client.get param_hash client _ params _) as [[client1 r] evs].
  simpl in Hcfg, Htot.
  set (M := Z.max 0 (max_retries (Client.config client))) in *.
  assert (Hstop : ∀ found : list Post.t,
    ∃ client' all_posts',
      Some (client1, found) = Some (client', all_posts')
      ∧ Client.config client' = Client.config client
      ∧ Client.total_requests (Client.stats client)
        ≤ Client.total_requests (Client.stats client')
        ≤ Client.total_requests (Client.stats client)
          + Z.max 0 (max_pages inputs - pages_fetched) * M).
  { intros found. eexists _, _. split; [done|]. split; [done|nia]. }
  destruct (exc_bind r _) as [found|e]; [|apply Hstop].
  destruct (exc_bind r _) as [cursor'|e]; [|apply Hstop].
  destruct (negb (Py.truthy cursor')); [apply Hstop|].
  destruct (Client.get_remaining_budget client1 <? 10); [apply Hstop|].
  destruct (IH (S call_no) client1 (all_posts ++ found) cursor'
              (pages_fetched + 1))
    as (client2 & all_posts2 & -> & Hcfg' & Htot'); [lia|].
  rewrite Hcfg in Htot'. fold M in Htot'.
  eexists _, _. split; [done|]. split; [congruence|nia].
Qed.

(** X21.  What [query_mode] does, whatever the network and the cache
    answer.  It raises only what the computation of the time window raises,
    and only when a window other than 0 hours is asked for: a failure of the
    search ends the pagination and is not reported.  Otherwise it returns
    posts with distinct URIs and no edge, after at most
    [max_pages * max_retries] requests. *)
Theorem query_mode_outcome inputs config w :
  match Ingest.query_mode fromisoformat validate_int now param_hash window
          inputs config w with
  | Ret run =>
      NoDup (Post.uri <$> posts run)
      ∧ edges run = []
      ∧ 0 ≤ total_requests run
        ≤ Z.max 0 (max_pages inputs) * Z.max 0 (max_retries config)
  | Raise e =>
      ∃ hours, time_window_hours inputs = Some hours ∧ hours ≠ 0
               ∧ window hours = Raise e
  end.
Proof.
  unfold Ingest.query_mode. cbv zeta.
  assert (Hrun : ∀ since until,
    match
      (let '(client', all_posts) :=
         match Ingest.search_loop fromisoformat validate_int now param_hash
                 (Z.to_nat (max_pages inputs)) inputs
                 (Z.min (page_size inputs) (max_page_size config)) since until
                 w 0 (Client.new_client config (Ingest.ping_ok w)) [] JNull 0
         with
         | Some r => r
         | None => (Client.new_client config (Ingest.ping_ok w), [])
         end in
       Ret {| posts := Normalize.deduplicate_posts all_posts;
              edges := [];
              total_requests := Client.total_requests (Client.stats client');
              cache_hits := Client.cache_hits (Client.stats client');
              cache_misses := Client.cache_misses (Client.stats client') |})
    with
    | Ret run =>
        NoDup (Post.uri <$> posts run)
        ∧ edges run = []
        ∧ 0 ≤ total_requests run
          ≤ Z.max 0 (max_pages inputs) * Z.max 0 (max_retries config)
    | Raise e =>
        ∃ hours, time_window_hours inputs = Some hours ∧ hours ≠ 0
                 ∧ window hours = Raise e
    end).
  { intros since until.
    destruct (search_loop_spec (Z.to_nat (max_pages inputs)) inputs
                (Z.min (page_size inputs) (max_page_size config)) since until
                w 0 (Client.new_client config (Ingest.ping_ok w)) [] JNull 0)
      as (client' & all_posts & -> & _ & Htot); [lia|].
    simpl in *. rewrite Z.sub_0_r in Htot.
    split; [|split; [done|lia]].
    apply (dedup_loop_properties Post.uri all_posts). }
  destruct (time_window_hours inputs) as [hours|]; [|apply Hrun].
  destruct (Z.eqb_spec hours 0) as [->|Hne]; simpl; [apply Hrun|].
  destruct (window hours) as [[since until]|e] eqn:Hwindow; simpl.
  - apply Hrun.
  - by exists hours.
Qed.

End QueryFacts.

(** ** Graph assembly: statistics, degree sums, negative limits *)

Lemma foldl_min_spec t ts :
  foldl Z.min t ts ∈ t :: ts ∧ Forall (λ x, foldl Z.min t ts ≤ x) (t :: ts).
Proof.
  revert t. induction ts as [|x ts IH]; intros t; simpl.
  - split; [left|]. repeat constructor. lia.
  - destruct (IH (Z.min t x)) as [Hin Hle].
    apply Forall_cons in Hle as [Hhead Htail]. split.
    + apply elem_of_cons in Hin as [->|Hin].
      * destruct (Z.min_spec t x) as [[_ ->]|[_ ->]]; [left|right; left].
      * by do 2 right.
    + repeat constructor; [lia|lia|done].
Qed.

Lemma foldl_max_spec t ts :
  foldl Z.max t ts ∈ t :: ts ∧ Forall (λ x, x ≤ foldl Z.max t ts) (t :: ts).
Proof.
  revert t. induction ts as [|x ts IH]; intros t; simpl.
  - split; [left|]. repeat constructor. lia.
  - destruct (IH (Z.max t x)) as [Hin Hle].
    apply Forall_cons in Hle as [Hhead Htail]. split.
    + apply elem_of_cons in Hin as [->|Hin].
      * destruct (Z.max_spec t x) as [[_ ->]|[_ ->]]; [right; left|left].
      * by do 2 right.
    + repeat constructor; [lia|lia|done].
Qed.

(** X22.  The statistics of the graph: the counts are those of the nodes
    and the edges returned; with no node there is no time range; otherwise
    [timeMin] and [timeMax] are creation times of nodes of the graph, and
    the creation time of every node lies between them. *)
Theorem build_graph_stats posts edge_tuples max_nodes :
  let g := Service._build_graph posts edge_tuples max_nodes in
  let times := GraphNode.created_at <$> nodes g in
  node_count (graph_stats g) = Z.of_nat (length (nodes g))
  ∧ edge_count (graph_stats g) = Z.of_nat (length (graph_edges g))
  ∧ match time_min (graph_stats g), time_max (graph_stats g) with
    | Some lo, Some hi =>
        lo ∈ times ∧ hi ∈ times ∧ Forall (λ t, lo ≤ t ≤ hi) times
    | None, None => nodes g = []
    | _, _ => False
    end.
Proof.
  unfold Service._build_graph. cbv zeta.
  destruct (Service.degrees_loop _ ∅ ∅) as [in_degree out_degree]. simpl.
  split; [done|]. split; [done|].
  set (kept := Service.apply_node_limit posts max_nodes).
  assert (GraphNode.created_at <$> map (Service.make_node in_degree out_degree)
                                     kept
          = map DbPost.created_at kept) as ->.
  { change (map ?f ?l) with (f <$> l). rewrite <- list_fmap_compose.
    by apply list_fmap_ext. }
  destruct kept as [|post kept]; simpl; [done|].
  destruct (foldl_min_spec (DbPost.created_at post)
              (map DbPost.created_at kept)) as [Hlo Hmin].
  destruct (foldl_max_spec (DbPost.created_at post)
              (map DbPost.created_at kept)) as [Hhi Hmax].
  split; [done|]. split; [done|].
  rewrite Forall_forall in Hmin, Hmax. apply Forall_forall. intros t Ht.
  split; [by apply Hmin|by apply Hmax].
Qed.

Lemma sum_indicator (x : string) (l : list string) :
  NoDup l →
  foldr Z.add 0 ((λ u, if decide (x = u) then 1 else 0) <$> l)
  = if decide (x ∈ l) then 1 else 0.
Proof.
  induction 1 as [|u l Hu Hl IH]; [done|].
  rewrite fmap_cons. cbn [foldr].
  rewrite IH.
  destruct (decide (x = u)) as [Heq|Hne], (decide (x ∈ l)) as [Hin|Hout],
    (decide (x ∈ u :: l)) as [Hin'|Hout']; try lia; try (by subst).
  - destruct Hout'. subst. left.
  - destruct Hout'. by right.
  - by apply elem_of_cons in Hin' as [?|?].
Qed.

(** Counting the items of [E] end by end gives their number, when the ends
    are distinct and every item has one. *)
Lemma sum_counts {A} (f : A → string) (E : list A) (ends : list string) :
  NoDup ends → Forall (λ e, f e ∈ ends) E →
  foldr Z.add 0
    ((λ u, Z.of_nat (length (filter (λ e, f e = u) E))) <$> ends)
  = Z.of_nat (length E).
Proof.
  intros Hnodup. induction 1 as [|e E He HE IH].
  - clear. induction ends as [|u ends IHends]; [done|].
    rewrite fmap_cons. cbn [foldr]. by rewrite IHends.
  - cbn [length]. rewrite Nat2Z.inj_succ, <- IH, <- Z.add_1_l.
    rewrite <- (decide_True (A:=Z) 1 0 He), <- (sum_indicator (f e) ends Hnodup).
    clear. induction ends as [|u ends IHends]; [done|].
    rewrite !fmap_cons. cbn [foldr]. rewrite IHends, filter_cons.
    destruct (decide (f e = u)); simpl; lia.
Qed.

Lemma apply_node_limit_submseteq posts max_nodes :
  Service.apply_node_limit posts max_nodes ⊆+ posts.
Proof.
  unfold Service.apply_node_limit.
  destruct max_nodes as [n|]; [|done].
  destruct (Service.limit_applies posts (Some n)); [|done].
  etrans.
  - apply sublist_submseteq. change (map ?f ?l) with (f <$> l).
    apply fmap_sublist. unfold Py.slice_to.
    destruct (0 <=? n); apply sublist_take.
  - change (?f <$> ?l) with (map f l).
    assert (map snd (Service.sort_desc
                       (map (λ post, (Service.score post, post)) posts))
            ≡ₚ posts) as ->; [|done].
    change (map ?f ?l) with (f <$> l).
    rewrite (sort_desc_Permutation _), <- list_fmap_compose.
    by rewrite list_fmap_id.
Qed.

(** X23.  When the posts have distinct URIs, the in-degrees of the nodes
    add up to the number of edges of the graph, and so do the
    out-degrees. *)
Theorem build_graph_degree_sums posts edge_tuples max_nodes :
  NoDup (DbPost.uri <$> posts) →
  let g := Service._build_graph posts edge_tuples max_nodes in
  foldr Z.add 0 (GraphNode.in_degree <$> nodes g)
  = edge_count (graph_stats g)
  ∧ foldr Z.add 0 (GraphNode.out_degree <$> nodes g)
    = edge_count (graph_stats g).
Proof.
  intros Hnodup. unfold Service._build_graph. cbv zeta.
  set (kept := Service.apply_node_limit posts max_nodes).
  assert (Hkept : NoDup (DbPost.uri <$> kept)).
  { pose proof (apply_node_limit_submseteq posts max_nodes) as Hsub.
    apply (fmap_submseteq DbPost.uri) in Hsub.
    apply submseteq_sublist_l in Hsub as (l & Hsub & Hperm).
    eapply sublist_NoDup; [|exact Hsub]. by rewrite Hperm. }
  set (E := Service.filter_edges _ edge_tuples).
  assert (Hends : Forall (λ e, Service.tuple_src e ∈ DbPost.uri <$> kept
                               ∧ Service.tuple_dst e ∈ DbPost.uri <$> kept) E).
  { subst E. unfold Service.filter_edges. apply Forall_forall.
    intros e [[Hsrc Hdst] _]%list_elem_of_filter.
    by rewrite !elem_of_list_to_set in Hsrc, Hdst. }
  destruct (Service.degrees_loop E ∅ ∅) as [in_degree out_degree] eqn:Hloop.
  simpl. rewrite length_map.
  pose proof (degrees_loop_counts _ _ _ _ _ Hloop) as Hcount.
  change (map ?f ?l) with (f <$> l). rewrite <- !list_fmap_compose.
  split.
  - rewrite <- (sum_counts Service.tuple_dst E (DbPost.uri <$> kept) Hkept).
    2:{ eapply Forall_impl; [exact Hends|]. by intros e [_ ?]. }
    rewrite <- list_fmap_compose. f_equal. apply list_fmap_ext.
    intros i post _. simpl. destruct (Hcount (DbPost.uri post)) as [-> _].
    by rewrite lookup_empty.
  - rewrite <- (sum_counts Service.tuple_src E (DbPost.uri <$> kept) Hkept).
    2:{ eapply Forall_impl; [exact Hends|]. by intros e [? _]. }
    rewrite <- list_fmap_compose. f_equal. apply list_fmap_ext.
    intros i post _. simpl. destruct (Hcount (DbPost.uri post)) as [_ ->].
    by rewrite lookup_empty.
Qed.

Lemma build_graph_degree_sums_witness :
  let posts := [Concrete.post1; Concrete.post2; Concrete.post3] in
  let g := Service._build_graph posts Concrete.test_edges (Some 2) in
  NoDup (DbPost.uri <$> posts)
  ∧ foldr Z.add 0 (GraphNode.in_degree <$> nodes g)
    = edge_count (graph_stats g)
  ∧ foldr Z.add 0 (GraphNode.out_degree <$> nodes g)
    = edge_count (graph_stats g).
Proof.
  intros posts g.
  assert (H : NoDup (DbPost.uri <$> posts)).
  { apply (bool_decide_unpack _). vm_compute. exact I. }
  split; [exact H|].
  exact (build_graph_degree_sums posts Concrete.test_edges (Some 2) H).
Defined.

Lemma apply_node_limit_negative posts (n : Z) :
  n < 0 →
  Service.apply_node_limit posts (Some n)
  = take (length posts - Z.to_nat (- n))
      (map snd (Service.sort_desc
                  (map (λ post, (Service.score post, post)) posts))).
Proof.
  intros Hn. unfold Service.apply_node_limit, Service.limit_applies.
  destruct (Z.eqb_spec n 0); [lia|].
  destruct (Z.gtb_spec (Z.of_nat (length posts)) n); [|lia]. simpl.
  unfold Py.slice_to. destruct (Z.leb_spec 0 n); [lia|].
  rewrite (Permutation_length (sort_desc_Permutation _)), length_map.
  change (map snd ?l) with (snd <$> l). by rewrite fmap_take.
Qed.

(** X24.  A negative [max_nodes] is not ignored: it is truthy and always
    exceeded, so the posts are ranked by engagement score and the slice
    [[:max_nodes]] drops the last [-max_nodes] posts of the ranking. *)
Theorem negative_limit_drops_lowest posts edge_tuples (n : Z) :
  n < 0 →
  ∃ ranked,
    Service.ranked_by_engagement posts ranked
    ∧ Forall2 Service.shows
        (nodes (Service._build_graph posts edge_tuples (Some n)))
        (take (length posts - Z.to_nat (- n)) ranked).
Proof.
  intros Hn.
  destruct (build_graph_nodes posts edge_tuples (Some n))
    as (ind & outd & _ & -> & _).
  rewrite apply_node_limit_negative by done.
  eexists. split; [apply sort_desc_ranked|apply make_node_shows].
Qed.

Lemma negative_limit_drops_lowest_witness :
  let posts := [Concrete.post3; Concrete.post2; Concrete.post1] in
  -1 < 0
  ∧ ∃ ranked,
      Service.ranked_by_engagement posts ranked
      ∧ Forall2 Service.shows
          (nodes (Service._build_graph posts [] (Some (-1))))
          (take (length posts - Z.to_nat (- -1)) ranked).
Proof.
  intros posts.
  assert (H : -1 < 0) by reflexivity.
  split; [exact H|].
  exact (negative_limit_drops_lowest posts [] (-1) H).
Defined.

(** ** The client: errors that are not retried, and times to live *)

Section GetErrors.
Variable param_hash : json → string.

(** X25.  A [ValueError] is not an [httpx.HTTPError]: when the first
    answer is a 429 whose [Retry-After] is not a number or is negative, a
    2xx whose body is not JSON, or a 5xx or 429 without [Retry-After] met
    with a backoff that makes the sleep negative, a call of [get] that
    passes the budget check and is not served by the cache raises
    [ValueError] after that one request, without retrying and without
    counting a failure. *)
Theorem get_value_error_escapes c endpoint params env :
  Client._request_count c < max_requests_per_run (Client.config c) →
  (Client.lookup param_hash c endpoint params env).1.2 = JNull →
  1 ≤ max_retries (Client.config c) →
  (∃ body, Client.net_answer env 0%nat
           = Client.Response 429 Client.RetryAfterMalformed body)
  ∨ (∃ secs body, Client.sleep_raises secs = true
                  ∧ Client.net_answer env 0%nat
                    = Client.Response 429 (Client.RetryAfterSeconds secs) body)
  ∨ (∃ status_code header, 200 ≤ status_code ≤ 299
                           ∧ Client.net_answer env 0%nat
                             = Client.Response status_code header None)
  ∨ (Client.retried_quietly (Client.net_answer env 0%nat) = true
     ∧ Client.sleep_raises
         (initial_backoff (Client.config c) + Client.jitter env 0%nat)
       = true) →
  let run := Client.get param_hash c endpoint params env in
  let params' := Py.or_ params (JDict []) in
  let key := Client._make_cache_key param_hash endpoint params' in
  run.1.2 = Raise ValueError
  ∧ run.2 = (if Client._redis c then [Client.CacheLookup key] else [])
            ++ [Client.HttpRequest endpoint params']
  ∧ Client._request_count run.1.1 = Client._request_count c + 1
  ∧ Client.failed_requests (Client.stats run.1.1)
    = Client.failed_requests (Client.stats c).
Proof.
  intros Hroom Hnull Hsome Hnet run params' key. subst run params' key.
  destruct (get_missed param_hash c endpoint params env Hroom Hnull)
    as (Hcfg & Hcount & Hfailed & Hmiss & c3 & r & evs
        & Hloop & _ & ->).
  cbv zeta in *.
  set (missed := Client.with_stats _ _) in *.
  destruct (Z.to_nat (max_retries (Client.config c))) as [|fuel] eqn:Hfuel;
    [lia|].
  rewrite retry_loop_unfold, Hcfg in Hloop.
  destruct (Z.ltb_spec 0 (max_retries (Client.config c))); [|lia].
  cbn [negb] in Hloop.
  change (Z.to_nat 0) with 0%nat in Hloop.
  assert (Honce : Client.attempt_once missed endpoint (Py.or_ params (JDict []))
                    (Client._make_cache_key param_hash endpoint
                       (Py.or_ params (JDict [])))
                    (Client._get_ttl_for_endpoint c endpoint)
                    (Client.net_answer env 0%nat) (Client.jitter env 0%nat)
                    0 (initial_backoff (Client.config c))
                  = Client.Finished (Client.count_request missed)
                      (Raise ValueError)
                      [Client.HttpRequest endpoint (Py.or_ params (JDict []))]).
  { destruct Hnet as [[body Hnet]|[(secs & body & Hsecs & Hnet)
                     |[(status_code & header & Hstatus & Hnet)
                      |[Hquiet Hsleep]]]].
    - rewrite Hnet. done.
    - rewrite Hnet. unfold Client.attempt_once. simpl. by rewrite Hsecs.
    - rewrite Hnet. unfold Client.attempt_once.
      destruct (Z.eqb_spec status_code 429); [lia|].
      destruct (Z.geb_spec status_code 500); [lia|].
      destruct (Z.leb_spec 200 status_code); [|lia].
      destruct (Z.leb_spec status_code 299); [|lia]. done.
    - rewrite attempt_once_quiet by done. by rewrite Hsleep. }
  rewrite Honce in Hloop. injection Hloop as <- <- <-.
  cbn [fst snd]. split; [done|]. split; [done|].
  split; [simpl; simpl in Hcount; lia|]. simpl. simpl in Hfailed. done.
Qed.

(** X26.  The time to live of what the four calls of the API store in the
    cache: [search_ttl] for a search, [thread_ttl] for a thread and also for
    a page of quotes, [posts_ttl] for posts; [quotes_ttl] is given to no
    store. *)
Theorem api_cache_ttls client env :
  let stores (ttl : Z) (evs : list Client.io_event) :=
    Forall (λ ev, ∀ cache_key ttl',
              ev = Client.CacheStore cache_key ttl' → ttl' = ttl) evs in
  (∀ query limit cursor since until lang,
     stores (search_ttl (Client.config client))
       (Api.search_posts param_hash client query limit cursor since until
          lang env).2)
  ∧ (∀ uri depth parent_height,
       stores (thread_ttl (Client.config client))
         (Api.get_post_thread param_hash client uri depth parent_height env).2)
  ∧ (∀ uri limit cursor,
       stores (thread_ttl (Client.config client))
         (Api.get_quotes param_hash client uri limit cursor env).2)
  ∧ (∀ uris,
       stores (posts_ttl (Client.config client))
         (Api.get_posts param_hash client uris env).2).
Proof.
  intros stores. subst stores. cbv beta.
  assert (Hget : ∀ endpoint params ttl,
    Client._get_ttl_for_endpoint client endpoint = ttl →
    Forall (λ ev, ∀ cache_key ttl',
              ev = Client.CacheStore cache_key ttl' → ttl' = ttl)
      (Client.get param_hash client endpoint params env).2).
  { intros endpoint params ttl <-.
    eapply Forall_impl; [apply get_events|].
    intros ev [->|[[secs ->]|[_ [->| ->]]]] cache_key ttl' [=]. done. }
  split_and!.
  - intros. by apply Hget.
  - intros. by apply Hget.
  - intros. by apply Hget.
  - intros [|uri uris]; [constructor|]. by apply Hget.
Qed.

End GetErrors.

Lemma get_value_error_escapes_witness :
  let c := Client.new_client default_config true in
  let env := Concrete.garbled in
  let run := Concrete.get c "app.bsky.feed.getPosts" JNull env in
  let key := Client._make_cache_key Concrete.param_hash
               "app.bsky.feed.getPosts" (JDict []) in
  (Client._request_count c < max_requests_per_run (Client.config c)
   ∧ (Client.lookup Concrete.param_hash c "app.bsky.feed.getPosts" JNull
        env).1.2 = JNull
   ∧ 1 ≤ max_retries (Client.config c)
   ∧ ∃ status_code header,
       200 ≤ status_code ≤ 299
       ∧ Client.net_answer env 0%nat
         = Client.Response status_code header None)
  ∧ Client._redis c = true
  ∧ run.1.2 = Raise ValueError
  ∧ run.2 = (if Client._redis c then [Client.CacheLookup key] else [])
            ++ [Client.HttpRequest "app.bsky.feed.getPosts" (JDict [])]
  ∧ Client._request_count run.1.1 = Client._request_count c + 1
  ∧ Client.failed_requests (Client.stats run.1.1)
    = Client.failed_requests (Client.stats c).
Proof.
  intros c env.
  assert (Hroom : Client._request_count c
                  < max_requests_per_run (Client.config c)) by reflexivity.
  assert (Hnull : (Client.lookup Concrete.param_hash c "app.bsky.feed.getPosts"
                     JNull env).1.2 = JNull) by reflexivity.
  assert (Hsome : 1 ≤ max_retries (Client.config c)) by (simpl; lia).
  assert (Hnet : ∃ status_code header,
            200 ≤ status_code ≤ 299
            ∧ Client.net_answer env 0%nat
              = Client.Response status_code header None).
  { exists 200, Client.NoRetryAfter. split; [lia|reflexivity]. }
  split; [by split_and!|]. split; [reflexivity|].
  exact (get_value_error_escapes Concrete.param_hash c "app.bsky.feed.getPosts"
           JNull env Hroom Hnull Hsome
           (or_intror (or_intror (or_introl Hnet)))).
Defined.

(** A negative backoff ends the call at the first sleep.  With a negative
    initial backoff and a server that is down, [get] raises [ValueError]
    after one request and counts no failure; with a negative cap on the
    backoff and a page that does not exist, it raises [ValueError] in the
    handler, after one request counted as failed. *)
Example get_negative_backoff :
  let down := Concrete.get
                (Client.new_client Concrete.negative_initial_backoff false)
                "app.bsky.feed.getPosts" JNull Concrete.unavailable in
  let gone := Concrete.get
                (Client.new_client Concrete.negative_max_backoff false)
                "app.bsky.feed.getPosts" JNull Concrete.missing in
  (down.1.2 = Raise ValueError
   ∧ down.2 = [Client.HttpRequest "app.bsky.feed.getPosts" (JDict [])]
   ∧ Client.failed_requests (Client.stats down.1.1) = 0)
  ∧ (gone.1.2 = Raise ValueError
     ∧ gone.2 = [Client.HttpRequest "app.bsky.feed.getPosts" (JDict [])]
     ∧ Client.failed_requests (Client.stats gone.1.1) = 1).
Proof. vm_compute. done. Qed.
